(** * krb5format: keytab and credential-cache binary formats

    A shallow embedding of [krb5format.py] and the properties of its
    decoder and encoder.

    The module is Python 2 code: [str] is a byte string, [filter] returns
    a list, and a value read from a binary file can be joined with text
    literals.  Byte strings are modelled as lists of 8-bit characters,
    integers as [Z], a dictionary with a fixed set of keys as a record
    whose optional keys are [option] fields, and an open file as the pair
    of its offset and the bytes not read yet.  Exceptions are an error
    monad over the file state. *)

From Stdlib Require Import String Ascii ZArith List Bool Lia.
Import ListNotations.
Open Scope Z_scope.

(** ** Byte strings *)

Definition byte := ascii.
Definition bytes := list ascii.

Definition byte_to_Z (b : byte) : Z := Z.of_N (N_of_ascii b).
Definition byte_of_Z (z : Z) : byte := ascii_of_N (Z.to_N z).

Definition B (s : string) : bytes := list_ascii_of_string s.
Definition raw (l : list Z) : bytes := map byte_of_Z l.

Definition len (s : bytes) : Z := Z.of_nat (length s).

(** ** Exceptions *)

Inductive exn := EOFError | StructError | KeyError | ValueError.

Inductive result (A : Type) :=
| Ok (a : A)
| Raise (e : exn).
Arguments Ok {A} a.
Arguments Raise {A} e.

(** ** The [struct] module: fixed-width big-endian integers *)

Inductive Struct := char | uint16 | int32 | uint32.

Definition size (s : Struct) : Z :=
  match s with char => 1 | uint16 => 2 | int32 => 4 | uint32 => 4 end.

Definition lo (s : Struct) : Z :=
  match s with int32 => - 2 ^ 31 | _ => 0 end.

Definition hi (s : Struct) : Z :=
  match s with
  | char => 2 ^ 8 | uint16 => 2 ^ 16 | int32 => 2 ^ 31 | uint32 => 2 ^ 32
  end.

Definition be_decode (data : bytes) : Z :=
  fold_left (fun acc b => acc * 256 + byte_to_Z b) data 0.

Fixpoint be_encode (n : nat) (x : Z) : bytes :=
  match n with
  | O => []
  | S n' => be_encode n' (x / 256) ++ [byte_of_Z (x mod 256)]
  end.

(** [Struct.unpack]: the data must have exactly the size of the format. *)
Definition unpack (s : Struct) (data : bytes) : result Z :=
  if len data =? size s then
    let u := be_decode data in
    Ok (match s with
        | int32 => if u <? 2 ^ 31 then u else u - 2 ^ 32
        | _ => u
        end)
  else Raise StructError.

(** The bytes of a number in a format: big-endian, two's complement. *)
Definition enc (s : Struct) (x : Z) : bytes :=
  be_encode (Z.to_nat (size s)) (x mod 2 ^ (8 * size s)).

(** [Struct.pack]: the number must be in the range of the format. *)
Definition pack (s : Struct) (x : Z) : result bytes :=
  if (lo s <=? x) && (x <? hi s) then Ok (enc s x) else Raise StructError.

(** ** Files opened for reading *)

Record file := mkfile { tell : Z; rest : bytes }.

Definition open (contents : bytes) : file := mkfile 0 contents.

(** [f.read(n)]: at most [n] bytes, fewer at the end of the file; a
    negative [n] reads everything that is left. *)
Definition read (n : Z) (f : file) : bytes * file :=
  let k := if n <? 0 then length (rest f) else Z.to_nat n in
  let data := firstn k (rest f) in
  (data, mkfile (tell f + len data) (skipn k (rest f))).

(** ** Computations that read from a file and may raise *)

Definition M (A : Type) := file -> result (A * file).

Definition ret {A} (a : A) : M A := fun f => Ok (a, f).

Definition bind {A C} (m : M A) (k : A -> M C) : M C :=
  fun f => match m f with
           | Ok (a, f') => k a f'
           | Raise e => Raise e
           end.

Definition lift {A} (r : result A) : M A :=
  fun f => match r with Ok a => Ok (a, f) | Raise e => Raise e end.

Definition raise {A} (e : exn) : M A := fun _ => Raise e.

Definition fread (n : Z) : M bytes := fun f => Ok (read n f).

Definition ftell : M Z := fun f => Ok (tell f, f).

(** [try: m except struct.error: raise EOFError] *)
Definition except_struct_error {A} (m : M A) : M A :=
  fun f => match m f with
           | Raise StructError => Raise EOFError
           | r => r
           end.

Declare Scope krb_scope.
Delimit Scope krb_scope with krb.
Notation "x <- m ;; k" := (bind m (fun x => k))
  (at level 61, m at next level, right associativity) : krb_scope.
Notation "' p <- m ;; k" := (bind m (fun a => let p := a in k))
  (at level 61, p pattern, m at next level, right associativity) : krb_scope.
Open Scope krb_scope.

(** [for i in range(n): acc.append(body)] *)
Fixpoint for_range {A} (n : nat) (body : M A) : M (list A) :=
  match n with
  | O => ret []
  | S n' => x <- body;; xs <- for_range n' body;; ret (x :: xs)
  end.

(** ** Python string operations *)

(** [sep.join(parts)] *)
Fixpoint join (sep : bytes) (parts : list bytes) : bytes :=
  match parts with
  | [] => []
  | [p] => p
  | p :: ps => p ++ sep ++ join sep ps
  end.

(** [s.split(c)] for a one-character separator: never the empty list. *)
Fixpoint split (c : byte) (s : bytes) : list bytes :=
  match s with
  | [] => [[]]
  | x :: s' =>
      if Ascii.eqb x c then [] :: split c s'
      else match split c s' with
           | [] => [[x]]
           | p :: ps => (x :: p) :: ps
           end
  end.

(** ** Decoded records *)

Record principal := mkprincipal {
  name_type : option Z;
  value : bytes
}.

Record keyblock := mkkeyblock {
  type : Z;
  etype : option bytes;
  val : bytes
}.

Record entry := mkentry {
  entry_principal : principal;
  timestamp : Z;
  vno8 : Z;
  key : keyblock;
  vno : option Z
}.

Record times := mktimes {
  authtime : Z; starttime : Z; endtime : Z; renew_till : Z
}.

Record cred := mkcred {
  client : principal;
  server : principal;
  cred_key : keyblock;
  cred_times : times;
  is_skey : Z;
  tktflags : Z;
  addrs : list bytes;
  authdata : list bytes;
  ticket : bytes;
  ticket2 : bytes
}.

(** ** class Krb5File *)

(** The attributes of the object that the readers consult; the list part
    of the object is [entries]. *)
Record Krb5File (E : Type) := mkKrb5File {
  version : Z;
  array : Struct;
  entries : list E
}.
Arguments mkKrb5File {E}.
Arguments version {E}.
Arguments array {E}.
Arguments entries {E}.

Section Readers.
Context {E : Type}.
Variable self : Krb5File E.

Definition _read_version : M Z :=
  data <- fread 2;; lift (unpack uint16 data).

(** Lines 66-68 of [load]: the object once the version tag is known. *)
Definition set_version (v : Z) : Krb5File E :=
  mkKrb5File v (if v =? 0x0504 then uint32 else array self) (entries self).

Definition _read_array : M bytes :=
  data <- fread (size (array self));;
  n <- lift (unpack (array self) data);;
  fread n.

Definition _read_principal : M principal :=
  '(nt, num_components) <-
     except_struct_error
       (nt <- (if version self =? 0x0504
               then data <- fread 4;; v <- lift (unpack uint32 data);;
                    ret (Some v)
               else ret None);;
        data <- fread (size (array self));;
        n <- lift (unpack (array self) data);;
        ret (nt, n));;
  realm <- _read_array;;
  components <- for_range (Z.to_nat num_components) _read_array;;
  nt <- (if version self =? 0x0502
         then data <- fread 4;; v <- lift (unpack uint32 data);;
              ret (Some v)
         else ret nt);;
  ret (mkprincipal nt (join (B "/") components ++ B "@" ++ realm)).

Definition _read_time : M Z :=
  data <- fread 4;; lift (unpack uint32 data).

Definition _read_keyblock : M keyblock :=
  data <- fread 2;;
  ty <- lift (unpack uint16 data);;
  et <- (if version self >? 0x0502
         then data <- fread 2;; ret (Some data)
         else ret None);;
  data <- fread 2;;
  keylen <- lift (unpack uint16 data);;
  v <- fread keylen;;
  ret (mkkeyblock ty et v).

(** [self.array.pack(len(arr)) + arr] *)
Definition _make_array (arr : bytes) : result bytes :=
  match pack (array self) (len arr) with
  | Ok l => Ok (l ++ arr)
  | Raise e => Raise e
  end.
End Readers.

(** ** Computations that only may raise *)

Definition rbind {A C} (r : result A) (k : A -> result C) : result C :=
  match r with Ok a => k a | Raise e => Raise e end.

Notation "x <~ r ;; k" := (rbind r (fun x => k))
  (at level 61, r at next level, right associativity) : krb_scope.

(** [for c in items: data += body(c)] *)
Fixpoint for_each (items : list bytes) (body : bytes -> result bytes)
  : result bytes :=
  match items with
  | [] => Ok []
  | c :: cs => d <~ body c;; ds <~ for_each cs body;; Ok (d ++ ds)
  end.

(** ** class Keytab *)

Module Keytab.

Definition t := Krb5File entry.

Definition __get_entry_size : M Z :=
  data <- fread 4;;
  if len data <? 4 then raise EOFError else lift (unpack int32 data).

(** [while size < 0: f.read(-size); size = self.__get_entry_size(f)].
    Every turn of the loop that does not raise takes the four bytes of
    a size field from the file, so the bytes left in the file bound the
    number of turns; with none left the next size cannot be read. *)
Fixpoint while_negative (fuel : nat) (size : Z) : M Z :=
  if size <? 0 then
    match fuel with
    | O => raise EOFError
    | S fuel' =>
        _ <- fread (- size);;
        size' <- __get_entry_size;;
        while_negative fuel' size'
    end
  else ret size.

Definition while_size_negative (size : Z) : M Z :=
  fun f => while_negative (length (rest f)) size f.

Definition _read_vno8 : M Z :=
  data <- fread 1;; lift (unpack char data).

Definition _read_vno (size start : Z) : M (option Z) :=
  finish <- ftell;;
  let remaining := size - (finish - start) in
  '(vno, remaining) <-
     (if remaining >=? 4
      then data <- fread 4;; v <- lift (unpack uint32 data);;
           ret (Some v, remaining - 4)
      else ret (None, remaining));;
  _ <- (if remaining >? 0 then fread remaining else ret []);;
  ret vno.

Section Methods.
Variable self : t.

Definition _load_entry : M entry :=
  size <- __get_entry_size;;
  size <- while_size_negative size;;
  start <- ftell;;
  p <- _read_principal self;;
  ts <- _read_time;;
  v8 <- _read_vno8;;
  k <- _read_keyblock self;;
  v <- _read_vno size start;;
  ret (mkentry p ts v8 k v).

(** The entry loop of [Krb5File.load].  An entry that is returned has
    taken at least its size field from the file, so the bytes left in
    the file bound the number of turns, and the turn without fuel
    returns no entry ([load_loop_fuel]). *)
Fixpoint load_loop (fuel : nat) (acc : list entry) (f : file)
  : result (list entry) :=
  match _load_entry f with
  | Raise EOFError => Ok acc
  | Raise e => Raise e
  | Ok (e, f') =>
      match fuel with
      | O => Ok (acc ++ [e])
      | S fuel' => load_loop fuel' (acc ++ [e]) f'
      end
  end.

Definition load_entries (acc : list entry) (f : file)
  : result (list entry) :=
  load_loop (length (rest f)) acc f.

(** Lines 204-205 of [__write_entry]: the key block. *)
Definition write_keyblock (k : keyblock) : result bytes :=
  ty <~ pack uint16 (type k);;
  v <~ _make_array self (val k);;
  Ok (ty ++ v).

(** The bytes that [__write_entry] hands to [f.write]. *)
Definition __write_entry (e : entry) : result bytes :=
  match split "@"%char (value (entry_principal e)) with
  | [princ; realm] =>
      let components := split "/"%char princ in
      n <~ pack uint16 (Z.of_nat (length components));;
      r <~ _make_array self realm;;
      cs <~ for_each components (_make_array self);;
      nt <~ match name_type (entry_principal e) with
            | Some nt => pack uint32 nt
            | None => Raise KeyError
            end;;
      ts <~ pack uint32 (timestamp e);;
      v8 <~ pack char (vno8 e);;
      kb <~ write_keyblock (key e);;
      v <~ match vno e with
           | Some v => if v =? 0 then Ok [] else pack uint32 v
           | None => Ok []
           end;;
      let data := n ++ r ++ cs ++ nt ++ ts ++ v8 ++ kb ++ v in
      sz <~ pack int32 (len data);;
      Ok (sz ++ data)
  | _ => Raise ValueError
  end.

(** The contents of the file that [save] writes. *)
Definition save : result bytes :=
  v <~ pack uint16 (version self);;
  es <~ (fix go (l : list entry) : result bytes :=
           match l with
           | [] => Ok []
           | e :: l' => d <~ __write_entry e;; ds <~ go l';; Ok (d ++ ds)
           end) (entries self);;
  Ok (v ++ es).
End Methods.

(** [Krb5File.load], on the contents of the file; [_load_intro] does
    nothing for a keytab. *)
Definition load (self : t) (contents : bytes) : result t :=
  match _read_version (open contents) with
  | Raise e => Raise e
  | Ok (v, f) =>
      let self' := set_version self v in
      match load_entries self' (entries self') f with
      | Ok es => Ok (mkKrb5File (version self') (array self') es)
      | Raise e => Raise e
      end
  end.

(** [Keytab(filename)]: [__init__] makes the empty list with
    [self.array = uint16] and loads the file; [version] has no value
    before [load] sets it. *)
Definition fresh : t := mkKrb5File 0 uint16 [].

Definition __init__ (contents : bytes) : result t := load fresh contents.

End Keytab.

(** ** Dictionary equality *)

Definition bytes_eq_dec (x y : bytes) : {x = y} + {x <> y} :=
  list_eq_dec ascii_dec x y.

Definition principal_eq_dec (x y : principal) : {x = y} + {x <> y}.
Proof.
  decide equality; [apply bytes_eq_dec | decide equality; apply Z.eq_dec].
Defined.

Definition keyblock_eq_dec (x y : keyblock) : {x = y} + {x <> y}.
Proof.
  decide equality;
    [apply bytes_eq_dec | decide equality; apply bytes_eq_dec | apply Z.eq_dec].
Defined.

Definition entry_eq_dec (x y : entry) : {x = y} + {x <> y}.
Proof.
  decide equality;
    [decide equality; apply Z.eq_dec | apply keyblock_eq_dec
    | apply Z.eq_dec | apply Z.eq_dec | apply principal_eq_dec].
Defined.

Definition entry_eqb (x y : entry) : bool :=
  if entry_eq_dec x y then true else false.

(** [key in keys] *)
Definition contains (keys : list entry) (k : entry) : bool :=
  existsb (entry_eqb k) keys.

(** [l.remove(k)]: the first item equal to [k] goes; [ValueError] when
    there is none. *)
Fixpoint list_remove (k : entry) (l : list entry) : result (list entry) :=
  match l with
  | [] => Raise ValueError
  | x :: l' =>
      if entry_eqb x k then Ok l'
      else l'' <~ list_remove k l';; Ok (x :: l'')
  end.

(** ** Keytab.filter *)

Section Filter.
(** The [re] module: compiled patterns, [re.compile] and whether
    [pattern.match(s)] finds a match at the start of [s]. *)
Variable Pattern : Type.
Variable re_compile : bytes -> result Pattern.
Variable re_match : Pattern -> bytes -> bool.

Definition filter (self : list entry) (pattern : bytes)
  : result (list entry) :=
  princs <~ re_compile pattern;;
  let keys :=
    List.filter (fun k => re_match princs (value (entry_principal k)))
                self in
  let other_keys :=
    fold_left (fun other key =>
                 if negb (contains keys key) then other ++ [key]
                 else other)
              self [] in
  fold_left (fun l key => l' <~ l;; list_remove key l')
            other_keys (Ok self).
End Filter.

(** ** A fragment of the pattern language of [re]

    Literal characters, [.] (any character but a newline) and a postfix
    [*], which is what the patterns of the examples use.  [re.match]
    succeeds when some prefix of the subject is in the language. *)

Module Re.

Inductive regex :=
| Empty
| Eps
| Chr (c : byte)
| Dot
| Cat (r s : regex)
| Alt (r s : regex)
| Star (r : regex).

Fixpoint nullable (r : regex) : bool :=
  match r with
  | Empty => false
  | Eps => true
  | Chr _ => false
  | Dot => false
  | Cat r s => nullable r && nullable s
  | Alt r s => nullable r || nullable s
  | Star _ => true
  end.

Definition newline : byte := ascii_of_nat 10.

Fixpoint deriv (c : byte) (r : regex) : regex :=
  match r with
  | Empty => Empty
  | Eps => Empty
  | Chr d => if Ascii.eqb c d then Eps else Empty
  | Dot => if Ascii.eqb c newline then Empty else Eps
  | Cat r s =>
      if nullable r then Alt (Cat (deriv c r) s) (deriv c s)
      else Cat (deriv c r) s
  | Alt r s => Alt (deriv c r) (deriv c s)
  | Star r => Cat (deriv c r) (Star r)
  end.

(** [pattern.match(s)] is not [None] *)
Fixpoint matches (r : regex) (s : bytes) : bool :=
  nullable r ||
  match s with
  | [] => false
  | c :: s' => matches (deriv c r) s'
  end.

Definition special (c : byte) : bool :=
  existsb (Ascii.eqb c) (B "\^$+?{}[]|()").

Definition atom (c : byte) : regex :=
  if Ascii.eqb c "."%char then Dot else Chr c.

(** [re.compile] on the fragment; a pattern outside it is refused. *)
Fixpoint compile (p : bytes) : result regex :=
  match p with
  | [] => Ok Eps
  | c :: p' =>
      if special c || Ascii.eqb c "*"%char then Raise ValueError
      else
        match p' with
        | s :: p'' =>
            if Ascii.eqb s "*"%char
            then r <~ compile p'';; Ok (Cat (Star (atom c)) r)
            else r <~ compile p';; Ok (Cat (atom c) r)
        | [] => Ok (atom c)
        end
  end.

End Re.

(** ** class CredentialCache *)

Module CredentialCache.

(** [is_tgt_expired], with the clock reading
    [calendar.timegm(datetime.datetime.now().timetuple())
     + time.timezone] passed as [now].  The result is Python's [True],
    [False], or the [None] of a function that ends without [return]. *)
Fixpoint is_tgt_expired (self : list cred) (now secs : Z) : option bool :=
  match self with
  | [] => None
  | key :: self' =>
      let server := value (server key) in
      let service := hd [] (split "/"%char server) in
      if bytes_eq_dec service (B "krbtgt") then
        let expires := endtime (cred_times key) in
        if expires <=? now + secs then Some true else Some false
      else is_tgt_expired self' now secs
  end.

End CredentialCache.

(** ** The wire layout of the format description

    The byte sequences that the description of the file formats lays
    out, field by field, for given field values. *)

Module Wire.

(** A length field in format [s], then the payload. *)
Definition array (s : Struct) (payload : bytes) : bytes :=
  enc s (len payload) ++ payload.

Definition arrays (s : Struct) (l : list bytes) : bytes :=
  concat (map (array s) l).

(** Where the name type of a principal stands. *)
Inductive place := First | Last | Absent.

Definition principal (s : Struct) (pl : place) (nt : Z) (realm : bytes)
           (components : list bytes) : bytes :=
  (match pl with First => enc uint32 nt | _ => [] end)
    ++ enc s (Z.of_nat (length components))
    ++ array s realm
    ++ arrays s components
    ++ (match pl with Last => enc uint32 nt | _ => [] end).

(** The joined name that a principal decodes to. *)
Definition joined (realm : bytes) (components : list bytes) : bytes :=
  join (B "/") components ++ B "@" ++ realm.

(** A key block with its length in format [s], with or without the
    two bytes of the etype field. *)
Definition keyblock (s : Struct) (with_etype : bool) (k : keyblock)
  : bytes :=
  enc uint16 (type k)
    ++ (if with_etype
        then match etype k with Some e => e | None => [] end
        else [])
    ++ enc s (len (val k)) ++ val k.

(** The fields that open a principal: the name type when it stands
    first, and the component count [n]. *)
Definition lead (s : Struct) (pl : place) (nt n : Z) : bytes :=
(match pl with First => enc uint32 nt | _ => [] end) ++ enc s n.




End Wire.

(** Where [_read_principal] reads the name type (lines 92-93 and
    101-102), and whether [_read_keyblock] reads an etype (line 112), by
    version tag. *)
Definition name_type_place (v : Z) : Wire.place :=
  if v =? 0x0504 then Wire.First
  else if v =? 0x0502 then Wire.Last
  else Wire.Absent.

Definition has_etype (v : Z) : bool := v >? 0x0502.

(** The lengths of a principal fit the length fields of format [s]. *)
Definition fits (s : Struct) (realm : bytes) (components : list bytes)
  : Prop :=
  Z.of_nat (length components) < hi s
  /\ len realm < hi s
  /\ Forall (fun c => len c < hi s) components.

(** [server.split('/')[0]] (line 223), computed in one pass: the text of
    a name before its first [/] ([hd_split_slash]). *)
Fixpoint service (name : bytes) : bytes :=
  match name with
  | [] => []
  | c :: name' => if Ascii.eqb c "/"%char then [] else c :: service name'
  end.

(** [service == "krbtgt"] (line 224). *)
Definition is_krbtgt (service : bytes) : bool :=
  if bytes_eq_dec service (B "krbtgt") then true else false.

(** ** class CredentialCache: loading *)

Module CCache.

(** What a loaded credential cache holds: the attributes of
    [Krb5File] with the list of credentials, and the [headers] and
    [default_princ] that [_load_intro] sets. *)
Record t := mk {
  base : Krb5File cred;
  headers : list (Z * bytes);
  default_princ : principal
}.

(** [struct.unpack("<L", data)]: four bytes, little-endian. *)
Definition unpack_le_uint32 (data : bytes) : result Z :=
  if len data =? 4 then Ok (be_decode (rev data)) else Raise StructError.

Section Methods.
Variable self : Krb5File cred.

Definition _read_times : M times :=
  a <- _read_time;;
  s <- _read_time;;
  e <- _read_time;;
  r <- _read_time;;
  ret (mktimes a s e r).

Definition _read_segments : M (list bytes) :=
  data <- fread 4;;
  num_segs <- lift (unpack uint32 data);;
  for_range (Z.to_nat num_segs) (_read_array self).

(** [while f.tell() < pos + headerlen: ...] with [limit] for
    [pos + headerlen].  A turn that does not raise takes the four bytes
    of a tag and a tag length from the file, so the bytes left bound the
    number of turns; with none left the tag cannot be unpacked. *)
Fixpoint headers_loop (fuel : nat) (limit : Z) (headers : list (Z * bytes))
  : M (list (Z * bytes)) :=
  fun f =>
    if tell f <? limit then
      match fuel with
      | O => Raise StructError
      | S fuel' =>
          (data <- fread 2;;
           tag <- lift (unpack uint16 data);;
           data <- fread 2;;
           taglen <- lift (unpack uint16 data);;
           tagdata <- fread taglen;;
           headers_loop fuel' limit (headers ++ [(tag, tagdata)])) f
      end
    else Ok (headers, f).

Definition _read_headers : M (list (Z * bytes)) :=
  data <- fread 2;;
  headerlen <- lift (unpack uint16 data);;
  pos <- ftell;;
  fun f => headers_loop (length (rest f)) (pos + headerlen) [] f.

(** The values that [_load_intro] stores in [self.headers] and
    [self.default_princ]. *)
Definition _load_intro : M (list (Z * bytes) * principal) :=
  h <- _read_headers;;
  p <- _read_principal self;;
  ret (h, p).

Definition _load_entry : M cred :=
  cl <- _read_principal self;;
  sv <- _read_principal self;;
  k <- _read_keyblock self;;
  tm <- _read_times;;
  data <- fread 1;;
  skey <- lift (unpack char data);;
  data <- fread 4;;
  flags <- lift (unpack_le_uint32 data);;
  ad <- _read_segments;;
  au <- _read_segments;;
  tk <- _read_array self;;
  tk2 <- _read_array self;;
  ret (mkcred cl sv k tm skey flags ad au tk tk2).

(** The entry loop of [Krb5File.load].  A credential that is returned
    has taken bytes from the file, so the bytes left in the file bound
    the number of turns, and the turn without fuel returns no
    credential. *)
Fixpoint load_loop (fuel : nat) (acc : list cred) (f : file)
  : result (list cred) :=
  match _load_entry f with
  | Raise EOFError => Ok acc
  | Raise e => Raise e
  | Ok (c, f') =>
      match fuel with
      | O => Ok (acc ++ [c])
      | S fuel' => load_loop fuel' (acc ++ [c]) f'
      end
  end.

Definition load_entries (acc : list cred) (f : file) : result (list cred) :=
  load_loop (length (rest f)) acc f.
End Methods.

(** [Krb5File.load] for a credential cache, on the contents of the
    file. *)
Definition load (self : Krb5File cred) (contents : bytes) : result t :=
  match _read_version (open contents) with
  | Raise e => Raise e
  | Ok (v, f) =>
      let self' := set_version self v in
      match _load_intro self' f with
      | Raise e => Raise e
      | Ok ((h, p), f') =>
          match load_entries self' (entries self') f' with
          | Ok cs => Ok (mk (mkKrb5File v (array self') cs) h p)
          | Raise e => Raise e
          end
      end
  end.

Definition fresh : Krb5File cred := mkKrb5File 0 uint16 [].

(** [CredentialCache(filename)] *)
Definition __init__ (contents : bytes) : result t := load fresh contents.

End CCache.

(** ** The wire layout of a credential cache *)

(** The field values of a principal on the wire. *)
Record wprincipal := mkwprincipal {
  w_name_type : Z;
  w_realm : bytes;
  w_components : list bytes
}.

Definition wprincipal_fits (s : Struct) (p : wprincipal) : Prop :=
  0 <= w_name_type p < 2 ^ 32 /\ fits s (w_realm p) (w_components p).

Definition wire_principal (s : Struct) (pl : Wire.place) (p : wprincipal)
  : bytes :=
  Wire.principal s pl (w_name_type p) (w_realm p) (w_components p).

(** The principal that the reader returns for these field values. *)
Definition decoded_principal (pl : Wire.place) (p : wprincipal) : principal :=
  mkprincipal (match pl with
               | Wire.Absent => None
               | _ => Some (w_name_type p)
               end)
              (Wire.joined (w_realm p) (w_components p)).

(** One header: tag, length of the data, data. *)
Definition wire_header (h : Z * bytes) : bytes :=
  enc uint16 (fst h) ++ enc uint16 (len (snd h)) ++ snd h.

(** The header block: its total length, then the headers. *)
Definition wire_headers (hs : list (Z * bytes)) : bytes :=
  enc uint16 (len (concat (map wire_header hs)))
    ++ concat (map wire_header hs).

Definition header_fits (h : Z * bytes) : Prop :=
  0 <= fst h < 2 ^ 16 /\ len (snd h) < 2 ^ 16.

(** A list of segments: a u32 count, then the arrays. *)
Definition wire_segments (s : Struct) (l : list bytes) : bytes :=
  enc uint32 (Z.of_nat (length l)) ++ Wire.arrays s l.

Definition segments_fit (s : Struct) (l : list bytes) : Prop :=
  Z.of_nat (length l) < 2 ^ 32 /\ Forall (fun c => len c < hi s) l.

(** The field values of a credential on the wire. *)
Record wcred := mkwcred {
  w_client : wprincipal;
  w_server : wprincipal;
  w_keytype : Z;
  w_etype : bytes;
  w_keyval : bytes;
  w_times : times;
  w_is_skey : Z;
  w_tktflags : Z;
  w_addrs : list bytes;
  w_authdata : list bytes;
  w_ticket : bytes;
  w_ticket2 : bytes
}.

Definition wcred_fits (s : Struct) (c : wcred) : Prop :=
  wprincipal_fits s (w_client c) /\ wprincipal_fits s (w_server c)
  /\ 0 <= w_keytype c < 2 ^ 16 /\ len (w_etype c) = 2
  /\ len (w_keyval c) < 2 ^ 16
  /\ 0 <= authtime (w_times c) < 2 ^ 32
  /\ 0 <= starttime (w_times c) < 2 ^ 32
  /\ 0 <= endtime (w_times c) < 2 ^ 32
  /\ 0 <= renew_till (w_times c) < 2 ^ 32
  /\ 0 <= w_is_skey c < 2 ^ 8
  /\ 0 <= w_tktflags c < 2 ^ 32
  /\ segments_fit s (w_addrs c) /\ segments_fit s (w_authdata c)
  /\ len (w_ticket c) < hi s /\ len (w_ticket2 c) < hi s.

Definition wcred_key (with_etype : bool) (c : wcred) : keyblock :=
  mkkeyblock (w_keytype c)
             (if with_etype then Some (w_etype c) else None)
             (w_keyval c).

(** The bytes of a credential, the ticket flags little-endian. *)
Definition wire_cred (s : Struct) (pl : Wire.place) (with_etype : bool)
           (c : wcred) : bytes :=
  wire_principal s pl (w_client c)
    ++ wire_principal s pl (w_server c)
    ++ Wire.keyblock uint16 with_etype (wcred_key with_etype c)
    ++ (enc uint32 (authtime (w_times c))
          ++ enc uint32 (starttime (w_times c))
          ++ enc uint32 (endtime (w_times c))
          ++ enc uint32 (renew_till (w_times c)))
    ++ enc char (w_is_skey c)
    ++ rev (enc uint32 (w_tktflags c))
    ++ wire_segments s (w_addrs c)
    ++ wire_segments s (w_authdata c)
    ++ Wire.array s (w_ticket c)
    ++ Wire.array s (w_ticket2 c).

(** The credential that the reader returns for these field values. *)
Definition decoded_cred (pl : Wire.place) (with_etype : bool) (c : wcred)
  : cred :=
  mkcred (decoded_principal pl (w_client c))
         (decoded_principal pl (w_server c))
         (wcred_key with_etype c)
         (w_times c) (w_is_skey c) (w_tktflags c)
         (w_addrs c) (w_authdata c) (w_ticket c) (w_ticket2 c).

(** ** The ticket-granting ticket of a cache *)

(** The primary component of a principal: the first of its
    components. *)
Definition primary_component (p : wprincipal) : option bytes :=
  hd_error (w_components p).

(** The credential's server principal has the primary component
    "krbtgt". *)
Definition primary_is_krbtgt (c : wcred) : bool :=
  match primary_component (w_server c) with
  | Some c1 => is_krbtgt c1
  | None => false
  end.

Definition has_slash (c : bytes) : bool :=
  existsb (fun x => Ascii.eqb x "/"%char) c.

(** The server principals that [is_tgt_expired] takes for the
    ticket-granting service, by their components: the first component
    reads "krbtgt" up to its first [/], or in full when it has none, and
    behind that text the joined name has a [/], from a second component
    or from the first component itself. *)
Definition taken_for_tgt (p : wprincipal) : bool :=
  match w_components p with
  | [] => false
  | c1 :: others =>
      is_krbtgt (service c1)
      && (match others with [] => has_slash c1 | _ :: _ => true end)
  end.

(** ** Sample data

    A keytab object for version tag 0x0502 and the fields of one entry:
    principal [host@R] with name type 1, timestamp 9, key-version byte
    7 and a key of type 17 with two bytes. *)

Definition sample_keytab : Keytab.t := set_version Keytab.fresh 0x0502.

Definition sample_principal : principal := mkprincipal (Some 1) (B "host@R").

Definition sample_key : keyblock := mkkeyblock 17 None (raw [170; 187]).

Definition sample_fields : bytes :=
  Wire.principal uint16 Wire.Last 1 (B "R") [B "host"]
    ++ enc uint32 9 ++ enc char 7 ++ Wire.keyblock uint16 false sample_key.

(** What the encoder leaves out: a key version that is present but
    zero. *)
Definition drop_zero_vno (e : entry) : entry :=
  match vno e with
  | Some v =>
      if v =? 0
      then mkentry (entry_principal e) (timestamp e) (vno8 e) (key e) None
      else e
  | None => e
  end.

(** The field values that the decoder yields for version tag 0x0502. *)
Definition in_range_0502 (e : entry) : Prop :=
  (exists nt realm components,
      entry_principal e = mkprincipal (Some nt) (Wire.joined realm components)
      /\ 0 <= nt < 2 ^ 32
      /\ len realm < 2 ^ 16
      /\ Forall (fun c => len c < 2 ^ 16) components)
  /\ 0 <= timestamp e < 2 ^ 32
  /\ 0 <= vno8 e < 2 ^ 8
  /\ 0 <= type (key e) < 2 ^ 16
  /\ etype (key e) = None
  /\ len (val (key e)) < 2 ^ 16
  /\ match vno e with Some v => 0 <= v < 2 ^ 32 | None => True end.

(** ** The parts of the readers, named for the proofs *)

(** [_read_principal] inside its [try]: the name type when it stands
    first, and the component count. *)
Definition principal_lead {E} (self : Krb5File E) : M (option Z * Z) :=
  nt <- (if version self =? 0x0504
         then data <- fread 4;; v <- lift (unpack uint32 data);;
              ret (Some v)
         else ret None);;
  data <- fread (size (array self));;
  n <- lift (unpack (array self) data);;
  ret (nt, n).

(** [_read_principal] behind its [try]. *)
Definition principal_after_lead {E} (self : Krb5File E) (nt : option Z)
           (num_components : Z) : M principal :=
  realm <- _read_array self;;
  components <- for_range (Z.to_nat num_components) (_read_array self);;
  nt <- (if version self =? 0x0502
         then data <- fread 4;; v <- lift (unpack uint32 data);;
              ret (Some v)
         else ret nt);;
  ret (mkprincipal nt (join (B "/") components ++ B "@" ++ realm)).


(** On any proper prefix of [wire], and on the empty file, a reader
    raises [struct.error] or returns with the file at its end; a strict
    reader raises. *)
Definition cut {A} (m : M A) (wire : bytes) : Prop :=
  forall pos j, (j < length wire)%nat \/ j = 0%nat ->
    m (mkfile pos (firstn j wire)) = Raise StructError
    \/ exists a pos', m (mkfile pos (firstn j wire)) = Ok (a, mkfile pos' []).

Definition strict {A} (m : M A) (wire : bytes) : Prop :=
  forall pos j, (j < length wire)%nat \/ j = 0%nat ->
    m (mkfile pos (firstn j wire)) = Raise StructError.

(** The principal name of an entry is one that [__write_entry] can
    take apart and pack: exactly one [@], fewer than 65535 [/], fewer
    than 2^31 - 2^18 bytes. *)
Definition name_fits (e : entry) : Prop :=
  count_occ ascii_dec (value (entry_principal e)) "@"%char = 1%nat
  /\ Z.of_nat (count_occ ascii_dec (value (entry_principal e)) "/"%char)
     < 2 ^ 16 - 1
  /\ len (value (entry_principal e)) < 2 ^ 31 - 2 ^ 18.

(** A credential for the ticket-granting service of realm [R], and the
    default principal [user@R]. *)
Definition sample_user : wprincipal := mkwprincipal 1 (B "R") [B "user"].

Definition sample_tgs : wprincipal :=
  mkwprincipal 2 (B "R") [B "krbtgt"; B "R"].

Definition sample_wcred : wcred :=
  mkwcred sample_user sample_tgs 17 (raw [0; 17]) (raw [170; 187])
          (mktimes 10 20 100 200) 0 0x40e00000
          [B "addr"] [] (B "ticket") [].

(** A credential for the principal [krbtgt@R], of one component, that
    ends at time 100, and a cache file of version 0x0504 with this
    credential alone. *)
Definition sample_single : wcred :=
  mkwcred sample_user (mkwprincipal 2 (B "R") [B "krbtgt"])
          17 (raw [0; 17]) (raw [170; 187])
          (mktimes 10 20 100 200) 0 0x40e00000
          [] [] (B "ticket") [].

Definition sample_single_cache : bytes :=
  enc uint16 0x0504 ++ wire_headers []
    ++ wire_principal uint32 Wire.First sample_user
    ++ wire_cred uint32 Wire.First true sample_single.

(** The fields that open a principal with these field values. *)
Definition wire_lead (s : Struct) (pl : Wire.place) (p : wprincipal) : bytes :=
  Wire.lead s pl (w_name_type p) (Z.of_nat (length (w_components p))).

(** The bytes of a credential that is cut off in the fields that open
    its client principal or, behind a whole client principal, in the
    fields that open its server principal. *)
Definition cut_in_lead (s : Struct) (pl : Wire.place) (b : bytes) : Prop :=
  exists (p : wprincipal) (j : nat),
    0 <= w_name_type p < 2 ^ 32
    /\ (j < length (wire_lead s pl p))%nat
    /\ (b = firstn j (wire_lead s pl p)
        \/ exists client,
             wprincipal_fits s client
             /\ b = wire_principal s pl client
                     ++ firstn j (wire_lead s pl p)).

(** ** The wire layout of a keytab *)

(** The field values of a keytab record on the wire; [we_trailer] is
    what the record holds behind its key. *)
Record wentry := mkwentry {
  we_principal : wprincipal;
  we_timestamp : Z;
  we_vno8 : Z;
  we_keytype : Z;
  we_etype : bytes;
  we_keyval : bytes;
  we_trailer : bytes
}.

Definition wentry_key (with_etype : bool) (e : wentry) : keyblock :=
  mkkeyblock (we_keytype e)
             (if with_etype then Some (we_etype e) else None)
             (we_keyval e).

(** The body of a record: the bytes that its size field counts. *)
Definition wire_entry_body (s : Struct) (pl : Wire.place) (with_etype : bool)
           (e : wentry) : bytes :=
  wire_principal s pl (we_principal e)
    ++ enc uint32 (we_timestamp e) ++ enc char (we_vno8 e)
    ++ Wire.keyblock uint16 with_etype (wentry_key with_etype e)
    ++ we_trailer e.

Definition wentry_fits (s : Struct) (pl : Wire.place) (with_etype : bool)
           (e : wentry) : Prop :=
  wprincipal_fits s (we_principal e)
  /\ 0 <= we_timestamp e < 2 ^ 32 /\ 0 <= we_vno8 e < 2 ^ 8
  /\ 0 <= we_keytype e < 2 ^ 16 /\ len (we_etype e) = 2
  /\ len (we_keyval e) < 2 ^ 16
  /\ len (wire_entry_body s pl with_etype e) < 2 ^ 31.

(** The entry that the reader returns for these field values: the first
    four bytes of a trailer that has them are the key version. *)
Definition decoded_entry (pl : Wire.place) (with_etype : bool) (e : wentry)
  : entry :=
  mkentry (decoded_principal pl (we_principal e))
          (we_timestamp e) (we_vno8 e) (wentry_key with_etype e)
          (if 4 <=? len (we_trailer e)
           then Some (be_decode (firstn 4 (we_trailer e)))
           else None).

(** The fields of a record up to the end of its key. *)
Definition wire_entry_fields (s : Struct) (pl : Wire.place)
           (with_etype : bool) (e : wentry) : bytes :=
  wire_principal s pl (we_principal e)
    ++ enc uint32 (we_timestamp e) ++ enc char (we_vno8 e)
    ++ Wire.keyblock uint16 with_etype (wentry_key with_etype e).

(** What a keytab file holds behind its version tag: records, and holes
    with a negative size before the bytes to skip. *)
Inductive item :=
| Rec (e : wentry)
| Hole (skipped : bytes).

Definition wire_item (s : Struct) (pl : Wire.place) (with_etype : bool)
           (i : item) : bytes :=
  match i with
  | Rec e =>
      enc int32 (len (wire_entry_body s pl with_etype e))
        ++ wire_entry_body s pl with_etype e
  | Hole skipped => enc int32 (- len skipped) ++ skipped
  end.

Definition item_fits (s : Struct) (pl : Wire.place) (with_etype : bool)
           (i : item) : Prop :=
  match i with
  | Rec e => wentry_fits s pl with_etype e
  | Hole skipped => 0 < len skipped <= 2 ^ 31
  end.

Definition decoded_items (pl : Wire.place) (with_etype : bool)
           (items : list item) : list entry :=
  flat_map (fun i => match i with
                     | Rec e => [decoded_entry pl with_etype e]
                     | Hole _ => []
                     end) items.

Definition sample_wentry (trailer : bytes) : wentry :=
  mkwentry (mkwprincipal 1 (B "R") [B "host"]) 9 7 17 (raw [0; 17])
           (raw [170; 187]) trailer.

(** A reader raises nothing but [struct.error] and [EOFError]. *)
Definition raises_only {A} (m : M A) : Prop :=
  forall f x, m f = Raise x -> x = StructError \/ x = EOFError.

(** A reader that returns leaves no more of the file than it found. *)
Definition shrinks {A} (m : M A) : Prop :=
  forall f a f', m f = Ok (a, f') ->
                 (length (rest f') <= length (rest f))%nat.

(** From [f], the entry loop decodes the entries [es] one after the
    other and stands at [f']. *)
Inductive decodes (self : Keytab.t) : file -> list entry -> file -> Prop :=
| decodes_nil f : decodes self f [] f
| decodes_cons f e f' es f'' :
    Keytab._load_entry self f = Ok (e, f') ->
    decodes self f' es f'' ->
    decodes self f (e :: es) f''.

(** From [f], the entry reader skips holes, one after the other, and
    stands at [f'] where the next size field would start: a size field
    with a negative value [n] is read, and [f.read(-n)] takes the bytes
    of the hole, or those that are left of it. *)
Inductive holes : file -> file -> Prop :=
| holes_nil f : holes f f
| holes_cons f n f1 f' :
    Keytab.__get_entry_size f = Ok (n, f1) ->
    n < 0 ->
    holes (mkfile (tell f1 + Z.min (- n) (len (rest f1)))
                  (skipn (Z.to_nat (- n)) (rest f1))) f' ->
    holes f f'.

(** A reader takes exactly the bytes [wire] from the front of any file
    and returns [a]. *)
Definition reads {A} (m : M A) (wire : bytes) (a : A) : Prop :=
  forall pos tail,
    m (mkfile pos (wire ++ tail)) = Ok (a, mkfile (pos + len wire) tail).

(** * Properties *)

(** ** Bytes and fixed-width integers *)

Lemma byte_to_Z_range (b : byte) : 0 <= byte_to_Z b < 256.
Proof.
  unfold byte_to_Z. pose proof (N_ascii_bounded b). lia.
Qed.

Lemma byte_to_of_Z (z : Z) : 0 <= z < 256 -> byte_to_Z (byte_of_Z z) = z.
Proof.
  intros Hz. unfold byte_to_Z, byte_of_Z.
  rewrite N_ascii_embedding by lia. lia.
Qed.

Lemma byte_of_to_Z (b : byte) : byte_of_Z (byte_to_Z b) = b.
Proof.
  unfold byte_to_Z, byte_of_Z. rewrite N2Z.id. apply ascii_N_embedding.
Qed.

Lemma len_app (a b : bytes) : len (a ++ b) = len a + len b.
Proof. unfold len. rewrite length_app. lia. Qed.

Lemma len_nonneg (a : bytes) : 0 <= len a.
Proof. unfold len. lia. Qed.

Lemma len_nil : len [] = 0.
Proof. reflexivity. Qed.

Lemma length_be_encode (n : nat) (x : Z) : length (be_encode n x) = n.
Proof.
  revert x. induction n as [|n IH]; intros x; simpl; [reflexivity|].
  rewrite length_app, IH. simpl. lia.
Qed.

Lemma be_decode_snoc (l : bytes) (b : byte) :
  be_decode (l ++ [b]) = be_decode l * 256 + byte_to_Z b.
Proof. unfold be_decode. rewrite fold_left_app. reflexivity. Qed.

Lemma be_decode_encode (n : nat) (x : Z) :
  0 <= x < 256 ^ Z.of_nat n -> be_decode (be_encode n x) = x.
Proof.
  revert x. induction n as [|n IH]; intros x Hx.
  - simpl in *. unfold be_decode. simpl. lia.
  - simpl be_encode. rewrite be_decode_snoc.
    rewrite Nat2Z.inj_succ, Z.pow_succ_r in Hx by lia.
    rewrite IH.
    + rewrite byte_to_of_Z by (apply Z.mod_pos_bound; lia).
      pose proof (Z.div_mod x 256). lia.
    + split; [apply Z.div_pos; lia|].
      apply Z.div_lt_upper_bound; lia.
Qed.

Lemma be_decode_range (l : bytes) : 0 <= be_decode l < 256 ^ len l.
Proof.
  induction l as [|b l IH] using rev_ind.
  - unfold be_decode, len. simpl. lia.
  - rewrite be_decode_snoc, len_app. unfold len at 2. simpl length.
    change (Z.of_nat 1) with 1.
    rewrite Z.pow_add_r by (pose proof (len_nonneg l); lia).
    pose proof (byte_to_Z_range b). change (256 ^ 1) with 256. lia.
Qed.

Lemma be_encode_decode (l : bytes) : be_encode (length l) (be_decode l) = l.
Proof.
  induction l as [|b l IH] using rev_ind; [reflexivity|].
  rewrite length_app, be_decode_snoc. simpl length.
  rewrite Nat.add_comm. simpl be_encode.
  pose proof (byte_to_Z_range b).
  replace ((be_decode l * 256 + byte_to_Z b) / 256) with (be_decode l)
    by (symmetry; rewrite Z.add_comm, Z.div_add by lia;
        rewrite Z.div_small by lia; lia).
  replace ((be_decode l * 256 + byte_to_Z b) mod 256) with (byte_to_Z b)
    by (symmetry; rewrite Z.add_comm, Z.mod_add by lia;
        apply Z.mod_small; lia).
  rewrite IH, byte_of_to_Z. reflexivity.
Qed.

Lemma size_pos (s : Struct) : 0 < size s.
Proof. destruct s; simpl; lia. Qed.

Lemma len_enc (s : Struct) (x : Z) : len (enc s x) = size s.
Proof.
  unfold len, enc. rewrite length_be_encode.
  pose proof (size_pos s). lia.
Qed.

Lemma pack_ok (s : Struct) (x : Z) :
  lo s <= x < hi s -> pack s x = Ok (enc s x).
Proof.
  intros Hx. unfold pack.
  replace (lo s <=? x) with true by (symmetry; apply Z.leb_le; lia).
  replace (x <? hi s) with true by (symmetry; apply Z.ltb_lt; lia).
  reflexivity.
Qed.

Lemma pack_inv (s : Struct) (x : Z) (d : bytes) :
  pack s x = Ok d -> lo s <= x < hi s /\ d = enc s x.
Proof.
  unfold pack. destruct (lo s <=? x) eqn:H1; simpl; [|discriminate].
  destruct (x <? hi s) eqn:H2; [|discriminate].
  intros H; inversion H. apply Z.leb_le in H1. apply Z.ltb_lt in H2.
  split; [lia | reflexivity].
Qed.

Lemma unpack_enc (s : Struct) (x : Z) :
  lo s <= x < hi s -> unpack s (enc s x) = Ok x.
Proof.
  intros Hx. unfold unpack. rewrite len_enc, Z.eqb_refl.
  unfold enc. rewrite be_decode_encode.
  - destruct s; cbv [lo hi size] in *;
      try (rewrite Z.mod_small by lia; reflexivity).
    change (8 * 4) with 32.
    destruct (Z.lt_ge_cases x 0) as [Hn|Hn].
    + assert (Hm : x mod 2 ^ 32 = x + 2 ^ 32).
      { replace x with (x + 2 ^ 32 + (-1) * 2 ^ 32) at 1 by lia.
        rewrite Z.mod_add, Z.mod_small by lia. reflexivity. }
      rewrite Hm.
      destruct (Z.ltb_spec (x + 2 ^ 32) (2 ^ 31)); [lia|].
      f_equal. lia.
    + rewrite Z.mod_small by lia.
      destruct (Z.ltb_spec x (2 ^ 31)); [reflexivity | lia].
  - rewrite Z2Nat.id by (pose proof (size_pos s); lia).
    replace (256 ^ size s) with (2 ^ (8 * size s))
      by (destruct s; reflexivity).
    apply Z.mod_pos_bound. destruct s; cbv [size]; lia.
Qed.

Lemma unpack_short (s : Struct) (d : bytes) :
  len d <> size s -> unpack s d = Raise StructError.
Proof.
  intros H. unfold unpack.
  destruct (Z.eqb_spec (len d) (size s)); [contradiction | reflexivity].
Qed.

Lemma unpack_range (s : Struct) (d : bytes) (v : Z) :
  unpack s d = Ok v -> lo s <= v < hi s /\ len d = size s.
Proof.
  unfold unpack. destruct (Z.eqb_spec (len d) (size s)) as [E|E];
    [|discriminate].
  intros [= <-].
  pose proof (be_decode_range d) as R. rewrite E in R.
  split; [|exact E].
  destruct s; cbv [lo hi size] in *; try lia.
  change (Z.pow_pos 2 31) with (2 ^ 31); change (Z.pow_pos 2 32) with (2 ^ 32).
  destruct (Z.ltb_spec (be_decode d) (2 ^ 31)); lia.
Qed.

Lemma enc_unpack (s : Struct) (d : bytes) (v : Z) :
  unpack s d = Ok v -> enc s v = d.
Proof.
  intros H. destruct (unpack_range _ _ _ H) as [R L].
  unfold unpack in H. rewrite L, Z.eqb_refl in H.
  injection H as <-.
  pose proof (be_decode_range d) as D. rewrite L in D.
  assert (Hn : Z.to_nat (size s) = length d) by (unfold len in L; lia).
  unfold enc. rewrite Hn.
  transitivity (be_encode (length d) (be_decode d));
    [f_equal | apply be_encode_decode].
  clear R Hn L.
  destruct s; cbv [size] in *; try (apply Z.mod_small; lia).
  change (8 * 4) with 32.
  change (Z.pow_pos 2 31) with (2 ^ 31); change (Z.pow_pos 2 32) with (2 ^ 32).
  destruct (Z.ltb_spec (be_decode d) (2 ^ 31)).
  - apply Z.mod_small; lia.
  - replace (be_decode d - 2 ^ 32) with (be_decode d + (-1) * 2 ^ 32) by lia.
    rewrite Z.mod_add by lia. apply Z.mod_small; lia.
Qed.

(** ** Reading from a file *)

Lemma read_app (p : Z) (d t : bytes) (n : Z) :
  n = len d -> read n (mkfile p (d ++ t)) = (d, mkfile (p + n) t).
Proof.
  intros ->. unfold read, len. simpl.
  destruct (Z.ltb_spec (Z.of_nat (length d)) 0); [lia|].
  rewrite Nat2Z.id.
  rewrite firstn_app, Nat.sub_diag, firstn_all, firstn_O, app_nil_r.
  rewrite skipn_app, Nat.sub_diag, skipn_all, skipn_O. reflexivity.
Qed.

Lemma read_short (n : Z) (f : file) :
  len (rest f) <= n -> read n f = (rest f, mkfile (tell f + len (rest f)) []).
Proof.
  intros H. unfold read, len in *.
  destruct (Z.ltb_spec n 0); [lia|].
  rewrite firstn_all2, skipn_all2 by lia. reflexivity.
Qed.

Lemma read_length (n : Z) (f : file) :
  0 <= n ->
  len (fst (read n f)) = Z.min n (len (rest f))
  /\ tell (snd (read n f)) = tell f + Z.min n (len (rest f))
  /\ rest (snd (read n f)) = skipn (Z.to_nat n) (rest f).
Proof.
  intros H. unfold read, len.
  destruct (Z.ltb_spec n 0); [lia|]. simpl.
  rewrite length_firstn. repeat split; lia.
Qed.

Lemma read_split (n : Z) (f f1 : file) (d : bytes) :
  0 <= n -> read n f = (d, f1) ->
  rest f = d ++ rest f1
  /\ tell f1 = tell f + len d
  /\ len d = Z.min n (len (rest f)).
Proof.
  intros Hn R. unfold read in R.
  destruct (Z.ltb_spec n 0); [lia|].
  injection R as <- <-. cbn [rest tell].
  rewrite firstn_skipn. unfold len. rewrite length_firstn.
  repeat split; lia.
Qed.

Lemma reads_ret {A} (a : A) : reads (ret a) [] a.
Proof.
  intros pos tail. unfold ret. simpl. rewrite len_nil, Z.add_0_r.
  reflexivity.
Qed.

Lemma reads_bind {A C} (m : M A) (k : A -> M C) (w1 w2 : bytes) (a : A)
      (c : C) :
  reads m w1 a -> reads (k a) w2 c -> reads (bind m k) (w1 ++ w2) c.
Proof.
  intros H1 H2 pos tail. unfold bind.
  rewrite <- app_assoc, H1, H2, len_app. f_equal. f_equal. f_equal. lia.
Qed.

Lemma reads_ret_bind {A C} (a : A) (k : A -> M C) (w : bytes) (c : C) :
  reads (k a) w c -> reads (bind (ret a) k) w c.
Proof. intros H pos tail. unfold bind, ret. apply H. Qed.

Lemma reads_lift_bind {A C} (r : result A) (a : A) (k : A -> M C)
      (w : bytes) (c : C) :
  r = Ok a -> reads (k a) w c -> reads (bind (lift r) k) w c.
Proof. intros -> H pos tail. unfold bind, lift. apply H. Qed.

Lemma reads_fread (d : bytes) (n : Z) : n = len d -> reads (fread n) d d.
Proof.
  intros -> pos tail. unfold fread. rewrite read_app by reflexivity.
  reflexivity.
Qed.

Lemma reads_fread_bind {C} (n : Z) (k : bytes -> M C) (d w : bytes) (c : C) :
  n = len d -> reads (k d) w c -> reads (bind (fread n) k) (d ++ w) c.
Proof. intros Hn H. apply reads_bind with (a := d); [apply reads_fread|]; auto. Qed.

Lemma reads_unpack (s : Struct) (n x : Z) :
  n = size s -> lo s <= x < hi s ->
  reads (bind (fread n) (fun data => lift (unpack s data))) (enc s x) x.
Proof.
  intros -> Hx pos tail. unfold bind, fread.
  rewrite read_app by (symmetry; apply len_enc).
  unfold lift. rewrite unpack_enc by exact Hx. rewrite len_enc. reflexivity.
Qed.

Lemma reads_unpack_bind {C} (s : Struct) (n x : Z) (k : Z -> M C)
      (w : bytes) (c : C) :
  n = size s -> lo s <= x < hi s -> reads (k x) w c ->
  reads (bind (fread n) (fun data => bind (lift (unpack s data)) k))
        (enc s x ++ w) c.
Proof.
  intros -> Hx H. apply reads_fread_bind; [symmetry; apply len_enc|].
  apply reads_lift_bind with (a := x); [apply unpack_enc; exact Hx | exact H].
Qed.

Lemma reads_unpack_bind_step {C} (s : Struct) (n x : Z) (k : Z -> M C)
      (pos : Z) (t : bytes) :
  n = size s -> lo s <= x < hi s ->
  bind (fread n) (fun data => bind (lift (unpack s data)) k)
       (mkfile pos (enc s x ++ t))
  = k x (mkfile (pos + size s) t).
Proof.
  intros -> Hx. unfold bind at 1. unfold fread.
  rewrite read_app by (symmetry; apply len_enc).
  unfold bind, lift. rewrite unpack_enc by exact Hx. reflexivity.
Qed.

Lemma reads_except_bind {A C} (m : M A) (k : A -> M C) (w1 w2 : bytes)
      (a : A) (c : C) :
  reads m w1 a -> reads (k a) w2 c ->
  reads (bind (except_struct_error m) k) (w1 ++ w2) c.
Proof.
  intros H1 H2. apply reads_bind with (a := a); [|exact H2].
  intros pos tail. unfold except_struct_error. rewrite H1. reflexivity.
Qed.

Lemma reads_unpack_some (s : Struct) (n x : Z) :
  n = size s -> lo s <= x < hi s ->
  reads (bind (fread n)
              (fun data => bind (lift (unpack s data))
                                (fun v => ret (Some v))))
        (enc s x) (Some x).
Proof.
  intros Hn Hx. rewrite <- (app_nil_r (enc s x)).
  apply reads_unpack_bind; [exact Hn | exact Hx | apply reads_ret].
Qed.

Lemma lo_nonpos (s : Struct) : lo s <= 0.
Proof. destruct s; cbv [lo]; lia. Qed.

Section ReaderFacts.
Context {E : Type}.
Variable self : Krb5File E.

Lemma reads_array (x : bytes) :
  len x < hi (array self) ->
  reads (_read_array self) (Wire.array (array self) x) x.
Proof.
  intros Hx. unfold _read_array, Wire.array.
  rewrite <- (app_nil_r x) at 2.
  apply reads_unpack_bind;
    [reflexivity
    | pose proof (lo_nonpos (array self)); pose proof (len_nonneg x); lia|].
  rewrite app_nil_r. apply reads_fread. reflexivity.
Qed.

Lemma reads_arrays (l : list bytes) :
  Forall (fun c => len c < hi (array self)) l ->
  reads (for_range (length l) (_read_array self))
        (Wire.arrays (array self) l) l.
Proof.
  induction 1 as [|c l Hc Hl IH]; simpl.
  - apply reads_ret.
  - unfold Wire.arrays. simpl.
    apply reads_bind with (a := c); [apply reads_array; exact Hc|].
    rewrite <- (app_nil_r (concat _)).
    apply reads_bind with (a := l); [exact IH | apply reads_ret].
Qed.

Lemma reads_principal (nt : Z) (realm : bytes) (components : list bytes) :
  0 <= nt < 2 ^ 32 ->
  Z.of_nat (length components) < hi (array self) ->
  len realm < hi (array self) ->
  Forall (fun c => len c < hi (array self)) components ->
  reads (_read_principal self)
        (Wire.principal (array self) (name_type_place (version self))
                        nt realm components)
        (mkprincipal
           (match name_type_place (version self) with
            | Wire.Absent => None
            | _ => Some nt
            end)
           (Wire.joined realm components)).
Proof.
  intros Hnt Hn Hr Hc.
  pose proof (lo_nonpos (array self)) as Hlo.
  assert (Hcount : lo (array self) <= Z.of_nat (length components)
                   < hi (array self)) by lia.
  unfold _read_principal, Wire.principal, name_type_place.
  destruct (Z.eqb_spec (version self) 0x0504) as [E4|E4];
    [|destruct (Z.eqb_spec (version self) 0x0502) as [E2|E2]].
  - rewrite app_assoc.
    eapply reads_except_bind.
    + eapply reads_bind;
        [apply reads_unpack_some; [reflexivity | cbv [lo hi]; lia]|].
      rewrite <- (app_nil_r (enc (array self) _)).
      apply reads_unpack_bind; [reflexivity | exact Hcount | apply reads_ret].
    + cbv beta iota.
      eapply reads_bind; [apply reads_array; exact Hr|].
      rewrite Nat2Z.id.
      eapply reads_bind; [apply reads_arrays; exact Hc|].
      destruct (Z.eqb_spec (version self) 0x0502); [lia|].
      apply reads_ret_bind. apply reads_ret.
  - change ([] ++ ?x) with x.
    eapply reads_except_bind.
    + apply reads_ret_bind. rewrite <- (app_nil_r (enc (array self) _)).
      apply reads_unpack_bind; [reflexivity | exact Hcount | apply reads_ret].
    + cbv beta iota.
      eapply reads_bind; [apply reads_array; exact Hr|].
      rewrite Nat2Z.id.
      eapply reads_bind; [apply reads_arrays; exact Hc|].
      rewrite <- (app_nil_r (enc uint32 nt)).
      eapply reads_bind;
        [apply reads_unpack_some; [reflexivity | cbv [lo hi]; lia]|].
      apply reads_ret.
  - change ([] ++ ?x) with x.
    eapply reads_except_bind.
    + apply reads_ret_bind. rewrite <- (app_nil_r (enc (array self) _)).
      apply reads_unpack_bind; [reflexivity | exact Hcount | apply reads_ret].
    + cbv beta iota.
      eapply reads_bind; [apply reads_array; exact Hr|].
      rewrite Nat2Z.id.
      eapply reads_bind; [apply reads_arrays; exact Hc|].
      apply reads_ret_bind. apply reads_ret.
Qed.
End ReaderFacts.

(** ** Version gating of the principal decoder *)

(** C1, as the code has it.  In a file whose version tag is 0x0504 a
    principal is decoded with 4-byte array-length fields and its u32
    name type is read before the component count.  With tag 0x0502 the
    length fields have 2 bytes and the name type is read after the
    component list.  With any other tag (0x0501 and 0x0503 among them)
    the length fields have 2 bytes and no name type is read at all: the
    decoded principal has none and the reader stops after the last
    component. *)
Theorem C1_principal_version_gating
        (v nt : Z) (realm : bytes) (components : list bytes) :
  0 <= nt < 2 ^ 32 ->
  let self := set_version Keytab.fresh v in
  (v = 0x0504 -> fits uint32 realm components ->
   reads (_read_principal self)
         (Wire.principal uint32 Wire.First nt realm components)
         (mkprincipal (Some nt) (Wire.joined realm components)))
  /\ (v = 0x0502 -> fits uint16 realm components ->
      reads (_read_principal self)
            (Wire.principal uint16 Wire.Last nt realm components)
            (mkprincipal (Some nt) (Wire.joined realm components)))
  /\ (v <> 0x0504 -> v <> 0x0502 -> fits uint16 realm components ->
      reads (_read_principal self)
            (Wire.principal uint16 Wire.Absent nt realm components)
            (mkprincipal None (Wire.joined realm components))).
Proof.
  intros Hnt self. repeat split.
  - intros -> (Hn & Hr & Hc).
    apply (reads_principal self nt realm components Hnt Hn Hr Hc).
  - intros -> (Hn & Hr & Hc).
    apply (reads_principal self nt realm components Hnt Hn Hr Hc).
  - intros H4 H2 (Hn & Hr & Hc).
    pose proof (reads_principal self nt realm components Hnt) as R.
    unfold self in *. unfold set_version in *. cbn [version array] in *.
    unfold name_type_place in R.
    destruct (Z.eqb_spec v 0x0504); [contradiction|].
    destruct (Z.eqb_spec v 0x0502); [contradiction|].
    apply R; assumption.
Qed.

Lemma C1_principal_version_gating_witness :
  reads (_read_principal (set_version Keytab.fresh 0x0502))
        (Wire.principal uint16 Wire.Last 1 (B "R") [B "host"; B "a"])
        (mkprincipal (Some 1) (B "host/a@R")).
Proof.
  apply (proj1 (proj2 (C1_principal_version_gating
                         0x0502 1 (B "R") [B "host"; B "a"]
                         ltac:(lia)))).
  - reflexivity.
  - unfold fits. split; [|split].
    + vm_compute. reflexivity.
    + vm_compute. reflexivity.
    + repeat constructor.
Defined.

(** C1 as stated fails for tag 0x0503: the four bytes of a name type
    that follows the components are not read. *)
Lemma C1_counterexample :
  ~ reads (_read_principal (set_version Keytab.fresh 0x0503))
          (Wire.principal uint16 Wire.Last 1 (B "R") [B "a"])
          (mkprincipal (Some 1) (B "a@R")).
Proof.
  intros H. specialize (H 0 []). vm_compute in H. discriminate H.
Qed.

(** What the decoder returns there: no name type, four bytes left. *)
Example C1_tag_0503_run :
  _read_principal (set_version Keytab.fresh 0x0503)
                  (open (Wire.principal uint16 Wire.Last 1 (B "R") [B "a"]))
  = Ok (mkprincipal None (B "a@R"), mkfile 8 (enc uint32 1)).
Proof. vm_compute. reflexivity. Qed.

(** ** Arrays shorter than their length field says *)

(** C4, as the code has it.  When the length field of an array declares
    more payload bytes than are left in the file, [_read_array] raises
    nothing: it returns the bytes that are left, a payload shorter than
    the declared length, and leaves the file at its end. *)
Theorem C4_read_array_short_payload
        {E} (self : Krb5File E) (n pos : Z) (payload : bytes) :
  0 <= n < hi (array self) ->
  len payload < n ->
  _read_array self (mkfile pos (enc (array self) n ++ payload))
  = Ok (payload, mkfile (pos + size (array self) + len payload) []).
Proof.
  intros Hn Hshort. unfold _read_array.
  pose proof (lo_nonpos (array self)).
  unfold bind at 1. unfold fread at 1.
  rewrite read_app by (symmetry; apply len_enc).
  unfold bind, lift. rewrite unpack_enc by lia.
  unfold fread. rewrite read_short by (simpl; lia). reflexivity.
Qed.

Lemma C4_read_array_short_payload_witness :
  _read_array (set_version Keytab.fresh 0x0502)
              (mkfile 0 (enc uint16 5 ++ B "a"))
  = Ok (B "a", mkfile (0 + 2 + 1) []).
Proof.
  apply (C4_read_array_short_payload (set_version Keytab.fresh 0x0502)
                                     5 0 (B "a")).
  - vm_compute. split; [discriminate | reflexivity].
  - vm_compute. reflexivity.
Defined.

(** C4 as stated fails: a length field of 5 followed by one byte gives a
    one-byte payload and no exception. *)
Lemma C4_counterexample :
  _read_array (set_version Keytab.fresh 0x0502) (open (raw [0; 5; 97]))
  = Ok (B "a", mkfile 3 []).
Proof. vm_compute. reflexivity. Qed.

(** ** Expiry of the ticket-granting ticket *)

Lemma hd_split (c : byte) (s : bytes) :
  hd [] (split c s)
  = (fix before (s : bytes) : bytes :=
       match s with
       | [] => []
       | x :: s' => if Ascii.eqb x c then [] else x :: before s'
       end) s.
Proof.
  induction s as [|x s IH]; simpl; [reflexivity|].
  destruct (Ascii.eqb x c); [reflexivity|].
  rewrite <- IH. destruct (split c s); reflexivity.
Qed.

Lemma hd_split_slash (s : bytes) : hd [] (split "/"%char s) = service s.
Proof.
  rewrite hd_split. induction s as [|x s IH]; simpl; [reflexivity|].
  destruct (Ascii.eqb x "/"); [reflexivity | rewrite IH; reflexivity].
Qed.

Lemma service_app_slash (c rest : bytes) :
  ~ In "/"%char c -> service (c ++ "/"%char :: rest) = c.
Proof.
  induction c as [|x c IH]; intros Hn; simpl; [reflexivity|].
  destruct (Ascii.eqb_spec x "/"%char) as [->|_].
  - exfalso. apply Hn. left. reflexivity.
  - rewrite IH by (intros H; apply Hn; right; exact H). reflexivity.
Qed.

Lemma service_app_at (c rest : bytes) :
  ~ In "/"%char c ->
  service (c ++ "@"%char :: rest) = c ++ "@"%char :: service rest.
Proof.
  induction c as [|x c IH]; intros Hn; simpl; [reflexivity|].
  destruct (Ascii.eqb_spec x "/"%char) as [->|_].
  - exfalso. apply Hn. left. reflexivity.
  - rewrite IH by (intros H; apply Hn; right; exact H). reflexivity.
Qed.

Lemma with_at_not_krbtgt (c rest : bytes) :
  c ++ "@"%char :: rest <> B "krbtgt".
Proof.
  intros H.
  assert (Hin : In "@"%char (B "krbtgt")).
  { rewrite <- H. apply in_or_app. right. left. reflexivity. }
  simpl in Hin.
  repeat (destruct Hin as [Hin|Hin]; [discriminate Hin|]). exact Hin.
Qed.

Lemma service_app_has_slash (c rest : bytes) :
  has_slash c = true -> service (c ++ rest) = service c.
Proof.
  induction c as [|x c IH]; intros H; simpl in *; [discriminate H|].
  destruct (Ascii.eqb x "/"%char); [reflexivity|].
  rewrite IH by exact H. reflexivity.
Qed.

Lemma has_slash_In (c : bytes) : has_slash c = false -> ~ In "/"%char c.
Proof.
  unfold has_slash. intros H Hin.
  assert (E : existsb (fun x => Ascii.eqb x "/"%char) c = true).
  { apply existsb_exists. exists "/"%char. split; [exact Hin | reflexivity]. }
  congruence.
Qed.

Lemma service_plain (c : bytes) : ~ In "/"%char c -> service c = c.
Proof.
  induction c as [|x c IH]; intros Hn; simpl; [reflexivity|].
  destruct (Ascii.eqb_spec x "/"%char) as [->|_].
  - exfalso. apply Hn. left. reflexivity.
  - rewrite IH by (intros H; apply Hn; right; exact H). reflexivity.
Qed.

Lemma service_app_cut (c rest : bytes) :
  service (c ++ "/"%char :: rest) = service c.
Proof.
  induction c as [|x c IH]; simpl; [reflexivity|].
  destruct (Ascii.eqb x "/"%char); [reflexivity | rewrite IH; reflexivity].
Qed.

Lemma is_krbtgt_with_at (c rest : bytes) :
  is_krbtgt (c ++ "@"%char :: rest) = false.
Proof.
  unfold is_krbtgt.
  destruct (bytes_eq_dec (c ++ "@"%char :: rest) (B "krbtgt")) as [E|_];
    [|reflexivity].
  exfalso. exact (with_at_not_krbtgt _ _ E).
Qed.

(** The test of line 224 on a decoded name, by the components of the
    principal. *)
Lemma service_joined (p : wprincipal) :
  is_krbtgt (service (Wire.joined (w_realm p) (w_components p)))
  = taken_for_tgt p.
Proof.
  unfold taken_for_tgt, Wire.joined.
  destruct (w_components p) as [|c1 [|c2 cs]].
  - cbn [join app].
    change (B "@" ++ w_realm p) with ([] ++ "@"%char :: w_realm p).
    rewrite service_app_at by (intros []). apply is_krbtgt_with_at.
  - cbn [join].
    change (c1 ++ B "@" ++ w_realm p) with (c1 ++ "@"%char :: w_realm p).
    destruct (has_slash c1) eqn:Hs.
    + rewrite service_app_has_slash by exact Hs.
      rewrite andb_true_r. reflexivity.
    + rewrite service_app_at by (apply has_slash_In; exact Hs).
      rewrite is_krbtgt_with_at, andb_false_r. reflexivity.
  - change (join (B "/") (c1 :: c2 :: cs))
      with (c1 ++ "/"%char :: join (B "/") (c2 :: cs)).
    rewrite <- app_assoc.
    change (("/"%char :: ?x) ++ ?y) with ("/"%char :: (x ++ y)).
    rewrite service_app_cut, andb_true_r. reflexivity.
Qed.

(** The loop of [is_tgt_expired] answers for the first entry that
    passes the test of line 224. *)
Lemma is_tgt_expired_find (self : list cred) (now secs : Z) :
  CredentialCache.is_tgt_expired self now secs
  = match find (fun k => is_krbtgt (service (value (server k)))) self with
    | Some k => Some (endtime (cred_times k) <=? now + secs)
    | None => None
    end.
Proof.
  induction self as [|k self IH]; [reflexivity|].
  cbn [CredentialCache.is_tgt_expired find].
  rewrite hd_split_slash. unfold is_krbtgt at 1.
  destruct (bytes_eq_dec (service (value (server k))) (B "krbtgt")).
  - destruct (endtime (cred_times k) <=? now + secs); reflexivity.
  - exact IH.
Qed.

(** C6, as the code has it.  On a cache as the loader decodes it, with
    the clock reading [now] and the grace period [secs],
    [is_tgt_expired] answers for the first credential whose server
    principal is taken for the ticket-granting service: expired
    ([True]) exactly when its end time is at most [now + secs], not
    expired ([False]) otherwise; for a cache without such a credential
    the answer is neither of the two but [None].  A server principal is
    taken for the ticket-granting service when its joined name reads
    "krbtgt" before its first [/]: for a principal whose first component
    holds no [/], exactly when that primary component is "krbtgt" and a
    second component follows it.  The principal of the single component
    "krbtgt" is not taken. *)
Theorem C6_is_tgt_expired (now secs : Z) :
  (forall (pl : Wire.place) (with_etype : bool) (cs : list wcred),
      CredentialCache.is_tgt_expired (map (decoded_cred pl with_etype) cs)
                                     now secs
      = match find (fun c => taken_for_tgt (w_server c)) cs with
        | Some c => Some (endtime (w_times c) <=? now + secs)
        | None => None
        end)
  /\ (forall (c : wcred) (c1 : bytes) (others : list bytes),
         w_components (w_server c) = c1 :: others ->
         ~ In "/"%char c1 ->
         taken_for_tgt (w_server c)
         = primary_is_krbtgt c
           && match others with [] => false | _ :: _ => true end)
  /\ (forall c : wcred,
         w_components (w_server c) = [] ->
         taken_for_tgt (w_server c) = false).
Proof.
  split; [|split].
  - intros pl with_etype cs. rewrite is_tgt_expired_find.
    induction cs as [|c cs IH]; [reflexivity|].
    cbn [map find]. rewrite <- service_joined.
    change (value (server (decoded_cred pl with_etype c)))
      with (Wire.joined (w_realm (w_server c)) (w_components (w_server c))).
    destruct (is_krbtgt
                (service (Wire.joined (w_realm (w_server c))
                                      (w_components (w_server c)))));
      [reflexivity | exact IH].
  - intros c c1 others Hc Hn.
    unfold taken_for_tgt, primary_is_krbtgt, primary_component.
    rewrite Hc. cbn [hd_error]. rewrite service_plain by exact Hn.
    destruct others as [|c2 others]; [|reflexivity].
    assert (Hs : has_slash c1 = false).
    { destruct (has_slash c1) eqn:E; [|reflexivity].
      exfalso. apply Hn. unfold has_slash in E.
      apply existsb_exists in E. destruct E as (x & Hin & Hx).
      apply Ascii.eqb_eq in Hx. subst x. exact Hin. }
    rewrite Hs. reflexivity.
  - intros c Hc. unfold taken_for_tgt. rewrite Hc. reflexivity.
Qed.

Lemma C6_is_tgt_expired_witness :
  taken_for_tgt (w_server sample_wcred) = true
  /\ taken_for_tgt (w_server sample_single) = false.
Proof.
  split.
  - rewrite (proj1 (proj2 (C6_is_tgt_expired 0 0))
                   sample_wcred (B "krbtgt") [B "R"] eq_refl).
    + reflexivity.
    + vm_compute. intros H.
      repeat (destruct H as [H|H]; [discriminate H|]). exact H.
  - rewrite (proj1 (proj2 (C6_is_tgt_expired 0 0))
                   sample_single (B "krbtgt") [] eq_refl).
    + reflexivity.
    + vm_compute. intros H.
      repeat (destruct H as [H|H]; [discriminate H|]). exact H.
Defined.

(** C6 as stated fails for a server principal of the single component
    "krbtgt": the cache file with this one credential loads, the
    credential is the first whose server principal has the primary
    component "krbtgt", its end time 100 is at most 400 + 100, and the
    answer is [None], not [True]. *)
Lemma C6_counterexample :
  (exists cache,
      CCache.__init__ sample_single_cache = Ok cache
      /\ entries (CCache.base cache)
         = [decoded_cred Wire.First true sample_single]
      /\ CredentialCache.is_tgt_expired (entries (CCache.base cache)) 400 100
         = None)
  /\ find primary_is_krbtgt [sample_single] = Some sample_single
  /\ endtime (w_times sample_single) <= 400 + 100.
Proof.
  split; [|split].
  - eexists. split; [vm_compute; reflexivity|].
    split; vm_compute; reflexivity.
  - vm_compute. reflexivity.
  - vm_compute. discriminate.
Qed.

(** ** Filtering a keytab *)

Lemma entry_eqb_refl (k : entry) : entry_eqb k k = true.
Proof. unfold entry_eqb. destruct (entry_eq_dec k k); congruence. Qed.

Lemma entry_eqb_eq (x y : entry) : entry_eqb x y = true <-> x = y.
Proof.
  unfold entry_eqb. destruct (entry_eq_dec x y); split; congruence.
Qed.

Lemma contains_In (keys : list entry) (k : entry) :
  contains keys k = true <-> In k keys.
Proof.
  unfold contains. rewrite existsb_exists. split.
  - intros (x & Hx & Heq). apply entry_eqb_eq in Heq. subst. exact Hx.
  - intros H. exists k. split; [exact H | apply entry_eqb_refl].
Qed.

Lemma other_keys_filter (keep : entry -> bool) (self other : list entry) :
  fold_left (fun other key => if keep key then other ++ [key] else other)
            self other
  = other ++ List.filter keep self.
Proof.
  revert other. induction self as [|k self IH]; intros other; simpl.
  - rewrite app_nil_r. reflexivity.
  - rewrite IH. destruct (keep k); [|reflexivity].
    rewrite <- app_assoc. reflexivity.
Qed.

Lemma list_remove_first (k : entry) (pre l : list entry) :
  ~ In k pre -> list_remove k (pre ++ k :: l) = Ok (pre ++ l).
Proof.
  induction pre as [|x pre IH]; intros Hnot; simpl.
  - rewrite entry_eqb_refl. reflexivity.
  - destruct (entry_eqb x k) eqn:Heq.
    + apply entry_eqb_eq in Heq. subst. exfalso. apply Hnot. left.
      reflexivity.
    + rewrite IH by (intros H; apply Hnot; right; exact H). reflexivity.
Qed.

Lemma remove_others (keep : entry -> bool) (l pre : list entry) :
  Forall (fun x => keep x = true) pre ->
  fold_left (fun l key => l' <~ l;; list_remove key l')
            (List.filter (fun k => negb (keep k)) l) (Ok (pre ++ l))
  = Ok (pre ++ List.filter keep l).
Proof.
  revert pre. induction l as [|k l IH]; intros pre Hpre; simpl.
  - reflexivity.
  - destruct (keep k) eqn:Hk; simpl.
    + change (pre ++ k :: l) with (pre ++ [k] ++ l).
      change (pre ++ k :: List.filter keep l)
        with (pre ++ [k] ++ List.filter keep l).
      rewrite !app_assoc. apply IH.
      apply Forall_app. split; [exact Hpre | repeat constructor; exact Hk].
    + rewrite list_remove_first.
      * apply IH. exact Hpre.
      * intros Hin. rewrite Forall_forall in Hpre.
        specialize (Hpre k Hin). congruence.
Qed.

Section FilterFacts.
Variable Pattern : Type.
Variable re_compile : bytes -> result Pattern.
Variable re_match : Pattern -> bytes -> bool.

Lemma filter_keeps_matching (self : list entry) (pattern : bytes) :
  filter Pattern re_compile re_match self pattern
  = (princs <~ re_compile pattern;;
     Ok (List.filter
           (fun k => re_match princs (value (entry_principal k))) self)).
Proof.
  unfold filter. destruct (re_compile pattern) as [princs|e]; simpl;
    [|reflexivity].
  set (keep := fun k => re_match princs (value (entry_principal k))).
  rewrite other_keys_filter. simpl.
  rewrite (filter_ext_in _ (fun k => negb (keep k))).
  - apply (remove_others keep self []). constructor.
  - intros k Hk. f_equal.
    destruct (keep k) eqn:Hkeep.
    + apply contains_In. apply filter_In. split; assumption.
    + destruct (contains (List.filter keep self) k) eqn:Hc;
        [|reflexivity].
      apply contains_In, filter_In in Hc. destruct Hc. congruence.
Qed.
End FilterFacts.

(** C7.  After [filter] the keytab holds exactly the entries whose
    joined principal name the pattern matches at its start, in their
    original order (when the pattern does not compile nothing is
    filtered and its error is raised).  In particular three entries
    with the principals "host/a@R", "host/b@R" and "user@R", whatever
    their other fields, are filtered by "host/.*" to the first two. *)
Theorem C7_filter :
  (forall (Pattern : Type) (re_compile : bytes -> result Pattern)
          (re_match : Pattern -> bytes -> bool)
          (self : list entry) (pattern : bytes),
      filter Pattern re_compile re_match self pattern
      = (princs <~ re_compile pattern;;
         Ok (List.filter
               (fun k => re_match princs (value (entry_principal k)))
               self)))
  /\ (forall nt1 nt2 nt3 ts1 ts2 ts3 v1 v2 v3 k1 k2 k3 n1 n2 n3,
         let e1 := mkentry (mkprincipal nt1 (B "host/a@R")) ts1 v1 k1 n1 in
         let e2 := mkentry (mkprincipal nt2 (B "host/b@R")) ts2 v2 k2 n2 in
         let e3 := mkentry (mkprincipal nt3 (B "user@R")) ts3 v3 k3 n3 in
         filter Re.regex Re.compile Re.matches [e1; e2; e3] (B "host/.*")
         = Ok [e1; e2]).
Proof.
  split.
  - apply filter_keeps_matching.
  - intros. rewrite filter_keeps_matching. reflexivity.
Qed.

(** ** Readers only move forward *)

Create HintDb shrinks.

Lemma shrinks_ret {A} (a : A) : shrinks (ret a).
Proof. intros f x f' [= _ <-]. lia. Qed.

Lemma shrinks_raise {A} (e : exn) : shrinks (@raise A e).
Proof. intros f x f' H. discriminate H. Qed.

Lemma shrinks_lift {A} (r : result A) : shrinks (lift r).
Proof.
  intros f x f' H. unfold lift in H. destruct r; [|discriminate].
  injection H as _ <-. lia.
Qed.

Lemma shrinks_fread (n : Z) : shrinks (fread n).
Proof.
  intros f x f' [= _ <-]. unfold read. simpl. rewrite length_skipn. lia.
Qed.

Lemma shrinks_ftell : shrinks ftell.
Proof. intros f x f' [= _ <-]. lia. Qed.

Lemma shrinks_bind {A C} (m : M A) (k : A -> M C) :
  shrinks m -> (forall a, shrinks (k a)) -> shrinks (bind m k).
Proof.
  intros Hm Hk f c f' H. unfold bind in H.
  destruct (m f) as [[a f1]|e] eqn:E; [|discriminate].
  apply Hm in E. apply Hk in H. lia.
Qed.

Lemma shrinks_except {A} (m : M A) :
  shrinks m -> shrinks (except_struct_error m).
Proof.
  intros Hm f a f' H. unfold except_struct_error in H.
  destruct (m f) as [[a1 f1]|e] eqn:E.
  - injection H as <- <-. apply Hm in E. exact E.
  - destruct e; discriminate.
Qed.

Lemma shrinks_for_range {A} (n : nat) (body : M A) :
  shrinks body -> shrinks (for_range n body).
Proof.
  intros Hb. induction n as [|n IH]; simpl.
  - apply shrinks_ret.
  - apply shrinks_bind; [exact Hb|]. intros x.
    apply shrinks_bind; [exact IH|]. intros xs. apply shrinks_ret.
Qed.

#[local] Hint Resolve shrinks_ret shrinks_raise shrinks_lift shrinks_fread
  shrinks_ftell shrinks_except shrinks_for_range : shrinks.

Ltac shrinks_step :=
  match goal with
  | |- shrinks (bind _ _) => apply shrinks_bind; [|intros ?]
  | |- shrinks (if ?b then _ else _) => destruct b
  | |- shrinks (let '(_, _) := ?p in _) => destruct p
  | |- shrinks _ => solve [auto with shrinks]
  end.

Lemma shrinks_read_array {E} (self : Krb5File E) : shrinks (_read_array self).
Proof. unfold _read_array. repeat shrinks_step. Qed.

#[local] Hint Resolve shrinks_read_array : shrinks.

Lemma shrinks_read_principal {E} (self : Krb5File E) :
  shrinks (_read_principal self).
Proof.
  unfold _read_principal.
  apply shrinks_bind.
  - apply shrinks_except. repeat shrinks_step.
  - intros [nt n]. repeat shrinks_step.
Qed.

Lemma shrinks_read_time : shrinks _read_time.
Proof. unfold _read_time. repeat shrinks_step. Qed.

Lemma shrinks_read_keyblock {E} (self : Krb5File E) :
  shrinks (_read_keyblock self).
Proof. unfold _read_keyblock. repeat shrinks_step. Qed.

Lemma shrinks_read_vno8 : shrinks Keytab._read_vno8.
Proof. unfold Keytab._read_vno8. repeat shrinks_step. Qed.

Lemma shrinks_read_vno (size start : Z) : shrinks (Keytab._read_vno size start).
Proof.
  unfold Keytab._read_vno. apply shrinks_bind; [auto with shrinks|].
  intros finish. apply shrinks_bind.
  - repeat shrinks_step.
  - intros [v r]. repeat shrinks_step.
Qed.

#[local] Hint Resolve shrinks_read_principal shrinks_read_time
  shrinks_read_keyblock shrinks_read_vno8 shrinks_read_vno : shrinks.

(** ** The size field *)

Lemma get_entry_size_short (f : file) :
  len (rest f) < 4 -> Keytab.__get_entry_size f = Raise EOFError.
Proof.
  intros H. unfold Keytab.__get_entry_size, bind, fread.
  rewrite read_short by lia. cbn [fst snd].
  destruct (Z.ltb_spec (len (rest f)) 4); [reflexivity | lia].
Qed.

Lemma get_entry_size_inv (f f' : file) (n : Z) :
  Keytab.__get_entry_size f = Ok (n, f') ->
  rest f = enc int32 n ++ rest f'
  /\ tell f' = tell f + 4
  /\ - 2 ^ 31 <= n < 2 ^ 31.
Proof.
  unfold Keytab.__get_entry_size, bind, fread. intros H.
  destruct (read 4 f) as [data f1] eqn:R.
  destruct (Z.ltb_spec (len data) 4) as [Hl|Hl]; [discriminate H|].
  unfold lift in H. destruct (unpack int32 data) as [v|] eqn:U;
    [|discriminate H].
  injection H as -> ->.
  pose proof (unpack_range _ _ _ U) as [Hr Hlen].
  pose proof (enc_unpack _ _ _ U) as He.
  apply read_split in R; [|lia]. destruct R as (R1 & R2 & _).
  rewrite He, R2, Hlen. repeat split; try assumption; apply Hr.
Qed.

Lemma get_entry_size_enc (n pos : Z) (t : bytes) :
  - 2 ^ 31 <= n < 2 ^ 31 ->
  Keytab.__get_entry_size (mkfile pos (enc int32 n ++ t))
  = Ok (n, mkfile (pos + 4) t).
Proof.
  intros Hn. unfold Keytab.__get_entry_size, bind, fread.
  rewrite read_app by (symmetry; apply len_enc).
  rewrite len_enc. cbn [size]. change (4 <? 4) with false. cbv iota.
  unfold lift. rewrite unpack_enc by exact Hn. reflexivity.
Qed.

Lemma get_entry_size_length (f f' : file) (n : Z) :
  Keytab.__get_entry_size f = Ok (n, f') ->
  (length (rest f') + 4 = length (rest f))%nat.
Proof.
  intros H. apply get_entry_size_inv in H. destruct H as (Hr & _ & _).
  rewrite Hr, length_app. unfold enc. rewrite length_be_encode.
  cbn [size]. lia.
Qed.

(** ** The loops do not run out of turns *)

Lemma hole_at_eof {C} (size : Z) (k : Z -> M C) (f : file) :
  rest f = [] -> size < 0 ->
  bind (fread (- size)) (fun _ => bind Keytab.__get_entry_size k) f
  = Raise EOFError.
Proof.
  intros Hnil Hs. unfold bind at 1. unfold fread.
  rewrite read_short by (rewrite Hnil; unfold len; simpl; lia).
  unfold bind. rewrite get_entry_size_short; [reflexivity|].
  cbn [rest]. unfold len. simpl. lia.
Qed.

Lemma length_zero_nil (s : bytes) : (length s <= 0)%nat -> s = [].
Proof. destruct s; simpl; [reflexivity | lia]. Qed.

Lemma while_negative_fuel (fuel fuel' : nat) (size : Z) (f : file) :
  (length (rest f) <= fuel)%nat -> (length (rest f) <= fuel')%nat ->
  Keytab.while_negative fuel size f = Keytab.while_negative fuel' size f.
Proof.
  revert fuel' size f.
  induction fuel as [|fuel IH]; intros fuel' size f H H';
    destruct fuel' as [|fuel']; try reflexivity; simpl;
    destruct (Z.ltb_spec size 0) as [Hs|Hs]; try reflexivity.
  - rewrite hole_at_eof by (auto using length_zero_nil). reflexivity.
  - rewrite hole_at_eof by (auto using length_zero_nil). reflexivity.
  - unfold bind at 1 3. unfold fread.
    destruct (read (- size) f) as [d f1] eqn:R.
    assert (H1 : (length (rest f1) <= length (rest f))%nat).
    { apply (shrinks_fread (- size) f d f1). unfold fread. rewrite R.
      reflexivity. }
    unfold bind.
    destruct (Keytab.__get_entry_size f1) as [[n f2]|e] eqn:G;
      [|reflexivity].
    apply get_entry_size_length in G. apply IH; lia.
Qed.

Lemma while_size_nonneg (size : Z) (f : file) :
  0 <= size -> Keytab.while_size_negative size f = Ok (size, f).
Proof.
  intros H. unfold Keytab.while_size_negative.
  destruct (length (rest f)); simpl;
    destruct (Z.ltb_spec size 0); try lia; reflexivity.
Qed.

Lemma while_size_neg (size : Z) (f : file) :
  size < 0 ->
  Keytab.while_size_negative size f
  = bind (fread (- size))
         (fun _ => bind Keytab.__get_entry_size Keytab.while_size_negative) f.
Proof.
  intros H. unfold Keytab.while_size_negative.
  rewrite (while_negative_fuel _ (S (length (rest f)))) by lia.
  simpl. destruct (Z.ltb_spec size 0); [|lia].
  unfold bind at 1 3. unfold fread.
  destruct (read (- size) f) as [d f1] eqn:R.
  assert (H1 : (length (rest f1) <= length (rest f))%nat).
  { apply (shrinks_fread (- size) f d f1). unfold fread. rewrite R.
    reflexivity. }
  unfold bind.
  destruct (Keytab.__get_entry_size f1) as [[n f2]|e] eqn:G; [|reflexivity].
  apply get_entry_size_length in G. apply while_negative_fuel; lia.
Qed.

Lemma shrinks_get_entry_size : shrinks Keytab.__get_entry_size.
Proof. intros f n f' H. apply get_entry_size_length in H. lia. Qed.

Lemma shrinks_while_negative (fuel : nat) (size : Z) :
  shrinks (Keytab.while_negative fuel size).
Proof.
  revert size. induction fuel as [|fuel IH]; intros size; simpl;
    destruct (size <? 0); auto with shrinks.
  apply shrinks_bind; [auto with shrinks|]. intros _.
  apply shrinks_bind; [apply shrinks_get_entry_size|]. intros n. apply IH.
Qed.

Lemma shrinks_while_size_negative (size : Z) :
  shrinks (Keytab.while_size_negative size).
Proof.
  intros f a f' H. unfold Keytab.while_size_negative in H.
  apply shrinks_while_negative in H. exact H.
Qed.

#[local] Hint Resolve shrinks_get_entry_size shrinks_while_size_negative
  : shrinks.

(** An entry that is returned has taken at least the four bytes of its
    size field. *)
Lemma load_entry_length (self : Keytab.t) (f f' : file) (e : entry) :
  Keytab._load_entry self f = Ok (e, f') ->
  (length (rest f') + 4 <= length (rest f))%nat.
Proof.
  unfold Keytab._load_entry. intros H. unfold bind at 1 in H.
  destruct (Keytab.__get_entry_size f) as [[n f1]|] eqn:G; [|discriminate].
  apply get_entry_size_length in G.
  assert (S : shrinks
                (size <- Keytab.while_size_negative n;;
                 start <- ftell;;
                 p <- _read_principal self;;
                 ts <- _read_time;;
                 v8 <- Keytab._read_vno8;;
                 k <- _read_keyblock self;;
                 v <- Keytab._read_vno size start;;
                 ret (mkentry p ts v8 k v))) by repeat shrinks_step.
  apply S in H. lia.
Qed.

Lemma load_loop_fuel (self : Keytab.t) (fuel fuel' : nat)
      (acc : list entry) (f : file) :
  (length (rest f) <= fuel)%nat -> (length (rest f) <= fuel')%nat ->
  Keytab.load_loop self fuel acc f = Keytab.load_loop self fuel' acc f.
Proof.
  revert fuel' acc f.
  induction fuel as [|fuel IH]; intros fuel' acc f H H';
    destruct fuel' as [|fuel']; try reflexivity; simpl;
    destruct (Keytab._load_entry self f) as [[e f1]|x] eqn:L;
    try reflexivity;
    apply load_entry_length in L; try lia.
  apply IH; lia.
Qed.

Lemma load_entries_step (self : Keytab.t) (acc : list entry)
      (f f' : file) (e : entry) :
  Keytab._load_entry self f = Ok (e, f') ->
  Keytab.load_entries self acc f = Keytab.load_entries self (acc ++ [e]) f'.
Proof.
  intros L. unfold Keytab.load_entries.
  pose proof (load_entry_length _ _ _ _ L) as Hl.
  destruct (length (rest f)) as [|n] eqn:Hn; [lia|].
  simpl. rewrite L. apply load_loop_fuel; lia.
Qed.

Lemma load_entries_raise (self : Keytab.t) (acc : list entry) (f : file)
      (x : exn) :
  Keytab._load_entry self f = Raise x ->
  Keytab.load_entries self acc f
  = match x with EOFError => Ok acc | _ => Raise x end.
Proof.
  intros L. unfold Keytab.load_entries.
  destruct (length (rest f)); simpl; rewrite L; reflexivity.
Qed.

Lemma load_entries_same (self : Keytab.t) (acc : list entry) (f g : file) :
  Keytab._load_entry self f = Keytab._load_entry self g ->
  Keytab.load_entries self acc f = Keytab.load_entries self acc g.
Proof.
  intros H.
  destruct (Keytab._load_entry self g) as [[e g']|x] eqn:L.
  - rewrite (load_entries_step self acc f g' e H).
    rewrite (load_entries_step self acc g g' e L). reflexivity.
  - rewrite (load_entries_raise self acc f x H).
    rewrite (load_entries_raise self acc g x L). reflexivity.
Qed.

Lemma load_entries_decodes (self : Keytab.t) (f f' : file)
      (es acc : list entry) :
  decodes self f es f' ->
  Keytab.load_entries self acc f = Keytab.load_entries self (acc ++ es) f'.
Proof.
  intros D. revert acc. induction D as [f|f e f1 es f2 L D IH]; intros acc.
  - rewrite app_nil_r. reflexivity.
  - rewrite (load_entries_step self acc f f1 e L), IH, <- app_assoc.
    reflexivity.
Qed.

(** ** Holes *)

(** C5, as the code has it.  Where the next size field reads as a
    negative value [-N], decoding reads [N] bytes past the size field,
    which moves the position by [N] when the file has that many bytes
    left and to the end of the file when it has fewer, produces no entry
    for the hole, and goes on with the size field that it finds there
    (again a hole, an entry, or the end of the entries). *)
Theorem C5_hole_skipped (self : Keytab.t) (f f1 : file) (n : Z) :
  Keytab.__get_entry_size f = Ok (n, f1) ->
  n < 0 ->
  let f2 := mkfile (tell f1 + Z.min (- n) (len (rest f1)))
                   (skipn (Z.to_nat (- n)) (rest f1)) in
  tell f1 = tell f + 4
  /\ Keytab._load_entry self f = Keytab._load_entry self f2
  /\ forall acc,
      Keytab.load_entries self acc f = Keytab.load_entries self acc f2.
Proof.
  intros G Hn f2.
  assert (L : Keytab._load_entry self f = Keytab._load_entry self f2).
  { unfold Keytab._load_entry. unfold bind at 1. rewrite G.
    unfold bind at 1. rewrite while_size_neg by exact Hn.
    unfold bind at 1. unfold fread.
    assert (R : read (- n) f1 = (fst (read (- n) f1), f2)).
    { pose proof (read_length (- n) f1 ltac:(lia)) as (_ & Ht & Hr).
      destruct (read (- n) f1) as [d g] eqn:R. cbn [fst snd] in *.
      destruct g as [t r]. cbn [tell rest] in *. subst. reflexivity. }
    rewrite R. unfold bind.
    destruct (Keytab.__get_entry_size f2) as [[m f3]|x]; reflexivity. }
  split; [|split].
  - apply get_entry_size_inv in G. apply G.
  - exact L.
  - intros acc. apply load_entries_same. exact L.
Qed.

Lemma C5_hole_skipped_witness :
  let f := open (enc int32 (-3) ++ raw [1; 2; 3; 4; 5]) in
  Keytab._load_entry Keytab.fresh f
  = Keytab._load_entry Keytab.fresh (mkfile 7 (raw [4; 5])).
Proof.
  intros f.
  apply (proj1 (proj2 (C5_hole_skipped Keytab.fresh f
                         (mkfile 4 (raw [1; 2; 3; 4; 5])) (-3)
                         ltac:(vm_compute; reflexivity)
                         ltac:(lia)))).
Defined.

(** C5 as stated fails where fewer than [N] bytes are left: after a
    size field of -10 with three bytes behind it, the read of the hole
    leaves the position 3 bytes past the size field, not 10, and the
    load ends there without an error. *)
Lemma C5_counterexample :
  let f := open (enc int32 (-10) ++ raw [1; 2; 3]) in
  Keytab.__get_entry_size f = Ok (-10, mkfile 4 (raw [1; 2; 3]))
  /\ read (- -10) (mkfile 4 (raw [1; 2; 3])) = (raw [1; 2; 3], mkfile 7 [])
  /\ Keytab.load Keytab.fresh (enc uint16 0x0502 ++ enc int32 (-10)
                                 ++ raw [1; 2; 3])
     = Ok (mkKrb5File 0x0502 uint16 []).
Proof. vm_compute. repeat split; reflexivity. Qed.

(** ** The end of an entry *)

Lemma load_entry_fields (self : Keytab.t) (f f0 f1 f2 f3 f4 : file)
      (size ts v8 : Z) (p : principal) (k : keyblock) :
  Keytab.__get_entry_size f = Ok (size, f0) ->
  0 <= size ->
  _read_principal self f0 = Ok (p, f1) ->
  _read_time f1 = Ok (ts, f2) ->
  Keytab._read_vno8 f2 = Ok (v8, f3) ->
  _read_keyblock self f3 = Ok (k, f4) ->
  Keytab._load_entry self f
  = match Keytab._read_vno size (tell f0) f4 with
    | Ok (v, f5) => Ok (mkentry p ts v8 k v, f5)
    | Raise x => Raise x
    end.
Proof.
  intros G Hs P T V K. unfold Keytab._load_entry.
  unfold bind at 1. rewrite G.
  unfold bind at 1. rewrite while_size_nonneg by exact Hs.
  unfold bind at 1. unfold ftell at 1.
  unfold bind at 1. rewrite P.
  unfold bind at 1. rewrite T.
  unfold bind at 1. rewrite V.
  unfold bind at 1. rewrite K.
  unfold bind.
  destruct (Keytab._read_vno size (tell f0) f4) as [[v f5]|x]; reflexivity.
Qed.

Lemma read_vno_none (size start : Z) (f : file) :
  size - (tell f - start) <= 0 ->
  Keytab._read_vno size start f = Ok (None, f).
Proof.
  intros H. unfold Keytab._read_vno, bind, ftell.
  destruct (Z.geb_spec (size - (tell f - start)) 4); [lia|].
  unfold ret. destruct (Z.gtb_spec (size - (tell f - start)) 0); [lia|].
  reflexivity.
Qed.

Lemma read_vno_padding (size start : Z) (f : file) :
  0 <= size - (tell f - start) < 4 ->
  size - (tell f - start) <= len (rest f) ->
  Keytab._read_vno size start f
  = Ok (None, mkfile (start + size)
                     (skipn (Z.to_nat (size - (tell f - start))) (rest f))).
Proof.
  intros H Hl. unfold Keytab._read_vno, bind, ftell.
  set (remaining := size - (tell f - start)) in *.
  destruct (Z.geb_spec remaining 4); [lia|].
  unfold ret. destruct (Z.gtb_spec remaining 0) as [Hp|Hp].
  - unfold fread.
    pose proof (read_length remaining f ltac:(lia)) as (_ & Ht & Hr).
    destruct (read remaining f) as [d [t r]]. cbn [fst snd tell rest] in *.
    subst t r. do 3 f_equal. unfold remaining in *. lia.
  - assert (Hz : remaining = 0) by lia. rewrite Hz. simpl skipn.
    destruct f as [t r]. cbn [tell rest] in *. do 3 f_equal.
    unfold remaining in *. lia.
Qed.

Lemma read_vno_some (sz start : Z) (f : file) :
  4 <= sz - (tell f - start) ->
  sz - (tell f - start) <= len (rest f) ->
  Keytab._read_vno sz start f
  = Ok (Some (be_decode (firstn 4 (rest f))),
        mkfile (start + sz)
               (skipn (Z.to_nat (sz - (tell f - start))) (rest f))).
Proof.
  intros H Hl. unfold Keytab._read_vno. unfold bind at 1. unfold ftell.
  set (remaining := sz - (tell f - start)) in *.
  destruct (Z.geb_spec remaining 4); [|lia].
  unfold bind at 1. unfold bind at 1. unfold fread at 1.
  destruct (read 4 f) as [d f1] eqn:R.
  pose proof (read_split 4 f f1 d ltac:(lia) R) as (R1 & R2 & R3).
  assert (Hd : len d = 4) by lia.
  assert (Hfd : firstn 4 (rest f) = d).
  { rewrite R1. rewrite firstn_app.
    replace (4 - length d)%nat with 0%nat by (unfold len in Hd; lia).
    rewrite firstn_O, app_nil_r. apply firstn_all2. unfold len in Hd. lia. }
  unfold bind at 1. unfold lift.
  unfold unpack. rewrite Hd. cbn [size]. rewrite Z.eqb_refl.
  unfold ret at 1. rewrite Hfd.
  assert (Hrest : len (rest f1) = len (rest f) - 4).
  { rewrite R1, len_app. lia. }
  assert (Hskip : skipn (Z.to_nat remaining) (rest f)
                  = skipn (Z.to_nat (remaining - 4)) (rest f1)).
  { rewrite R1. rewrite skipn_app.
    rewrite (skipn_all2 d) by (unfold len in Hd; lia). simpl. f_equal.
    unfold len in Hd. lia. }
  rewrite Hskip.
  destruct (Z.gtb_spec (remaining - 4) 0) as [Hp|Hp].
  - unfold bind, fread, ret.
    pose proof (read_length (remaining - 4) f1 ltac:(lia)) as (_ & Ht & Hr).
    destruct (read (remaining - 4) f1) as [d' [t r]].
    cbn [fst snd tell rest] in *.
    subst t r. do 3 f_equal. unfold remaining in *. lia.
  - assert (Hz : remaining - 4 = 0) by lia. rewrite Hz. simpl skipn.
    unfold bind, ret. destruct f1 as [t r]. cbn [tell rest] in *.
    do 3 f_equal. unfold remaining in *. lia.
Qed.

(** C9, as the code has it.  For an entry with a positive declared
    size, whose principal, timestamp, key-version byte and key block
    took no more than the declared size, and whose declared bytes are
    all in the file: a trailing u32 key version is read exactly when at
    least 4 of the declared bytes are not consumed yet, the declared
    bytes that still remain are read and dropped, and the position ends
    exactly [size] bytes past the size field. *)
Theorem C9_entry_tail (self : Keytab.t) (f f0 f1 f2 f3 f4 : file)
        (size ts v8 : Z) (p : principal) (k : keyblock) :
  Keytab.__get_entry_size f = Ok (size, f0) ->
  0 < size ->
  _read_principal self f0 = Ok (p, f1) ->
  _read_time f1 = Ok (ts, f2) ->
  Keytab._read_vno8 f2 = Ok (v8, f3) ->
  _read_keyblock self f3 = Ok (k, f4) ->
  let remaining := size - (tell f4 - tell f0) in
  0 <= remaining <= len (rest f4) ->
  Keytab._load_entry self f
  = Ok (mkentry p ts v8 k
                (if 4 <=? remaining
                 then Some (be_decode (firstn 4 (rest f4)))
                 else None),
        mkfile (tell f0 + size) (skipn (Z.to_nat remaining) (rest f4))).
Proof.
  intros G Hs P T V K remaining Hr.
  rewrite (load_entry_fields self f f0 f1 f2 f3 f4 size ts v8 p k)
    by (assumption || lia).
  destruct (Z.leb_spec 4 remaining) as [H4|H4].
  - rewrite read_vno_some by (fold remaining; lia). reflexivity.
  - rewrite read_vno_padding by (fold remaining; lia). reflexivity.
Qed.



Lemma C9_entry_tail_witness :
  Keytab._load_entry
    sample_keytab
    (open (enc int32 30 ++ sample_fields ++ enc uint32 5 ++ B "next"))
  = Ok (mkentry sample_principal 9 7 sample_key (Some 5),
        mkfile (4 + 30) (B "next")).
Proof.
  exact (C9_entry_tail
           sample_keytab
           (open (enc int32 30 ++ sample_fields ++ enc uint32 5 ++ B "next"))
           (mkfile 4 (sample_fields ++ enc uint32 5 ++ B "next"))
           (mkfile 19 (enc uint32 9 ++ enc char 7
                         ++ Wire.keyblock uint16 false sample_key
                         ++ enc uint32 5 ++ B "next"))
           (mkfile 23 (enc char 7 ++ Wire.keyblock uint16 false sample_key
                         ++ enc uint32 5 ++ B "next"))
           (mkfile 24 (Wire.keyblock uint16 false sample_key
                         ++ enc uint32 5 ++ B "next"))
           (mkfile 30 (enc uint32 5 ++ B "next"))
           30 9 7 sample_principal sample_key
           ltac:(vm_compute; reflexivity)
           ltac:(lia)
           ltac:(vm_compute; reflexivity)
           ltac:(vm_compute; reflexivity)
           ltac:(vm_compute; reflexivity)
           ltac:(vm_compute; reflexivity)
           ltac:(vm_compute; split; discriminate)).
Defined.

(** C9 as stated fails for an entry that is longer than its declared
    size: with a size field of 1 before the 26 bytes of the sample
    entry, the position ends 26 bytes past the size field, not 1. *)
Lemma C9_counterexample :
  Keytab._load_entry sample_keytab
                     (open (enc int32 1 ++ sample_fields ++ B "next"))
  = Ok (mkentry sample_principal 9 7 sample_key None,
        mkfile (4 + 26) (B "next"))
  /\ 4 + 26 <> 4 + 1.
Proof. split; [vm_compute; reflexivity | lia]. Qed.


(** ** Key blocks *)

Lemma reads_fread_ret {A} (g : bytes -> A) (d : bytes) (n : Z) :
  n = len d ->
  reads (bind (fread n) (fun data => ret (g data))) d (g d).
Proof.
  intros Hn. rewrite <- (app_nil_r d) at 1.
  apply reads_fread_bind; [exact Hn | apply reads_ret].
Qed.

Lemma reads_keyblock {E} (self : Krb5File E) (ty : Z) (et value : bytes) :
  0 <= ty < 2 ^ 16 -> len et = 2 -> len value < 2 ^ 16 ->
  let k := mkkeyblock ty (if has_etype (version self) then Some et else None)
                      value in
  reads (_read_keyblock self)
        (Wire.keyblock uint16 (has_etype (version self)) k) k.
Proof.
  intros Hty Het Hval k.
  unfold k, _read_keyblock, Wire.keyblock. unfold has_etype.
  cbn [type etype val].
  apply reads_unpack_bind; [reflexivity | cbv [lo hi]; lia |].
  destruct (version self >? 0x0502).
  - eapply reads_bind.
    + apply (reads_fread_ret Some). symmetry. exact Het.
    + apply reads_unpack_bind;
        [reflexivity | cbv [lo hi]; pose proof (len_nonneg value); lia |].
      apply (reads_fread_ret (mkkeyblock ty (Some et))). reflexivity.
  - change ([] ++ ?x) with x. apply reads_ret_bind.
    apply reads_unpack_bind;
      [reflexivity | cbv [lo hi]; pose proof (len_nonneg value); lia |].
    apply (reads_fread_ret (mkkeyblock ty None)). reflexivity.
Qed.

Lemma write_keyblock_wire (self : Keytab.t) (k : keyblock) :
  0 <= type k < 2 ^ 16 -> len (val k) < hi (array self) ->
  Keytab.write_keyblock self k = Ok (Wire.keyblock (array self) false k).
Proof.
  intros Hty Hval. unfold Keytab.write_keyblock, _make_array, rbind.
  rewrite pack_ok by (cbv [lo hi]; lia).
  rewrite pack_ok
    by (pose proof (lo_nonpos (array self)); pose proof (len_nonneg (val k));
        lia).
  reflexivity.
Qed.

(** C8, as the code has it.  Decoding a key block reads a u16 type,
    then, exactly when the version is greater than 0x0502, a 2-byte
    etype field, then a u16 key length and that many bytes of key
    material.  Encoding writes the u16 type, the key length in the
    width of the container's array lengths (2 bytes, and 4 bytes for
    version 0x0504) and the key material, and never an etype field. *)
Theorem C8_keyblock_layout (v ty : Z) (et value : bytes) :
  0 <= ty < 2 ^ 16 -> len et = 2 -> len value < 2 ^ 16 ->
  let self := set_version Keytab.fresh v in
  let k := mkkeyblock ty (if v >? 0x0502 then Some et else None) value in
  reads (_read_keyblock self) (Wire.keyblock uint16 (v >? 0x0502) k) k
  /\ Keytab.write_keyblock self k
     = Ok (Wire.keyblock (if v =? 0x0504 then uint32 else uint16) false k).
Proof.
  intros Hty Het Hval self k. split.
  - apply (reads_keyblock self ty et value Hty Het Hval).
  - apply write_keyblock_wire; [exact Hty|].
    unfold self, set_version. cbn [array Keytab.fresh val k].
    destruct (v =? 0x0504); cbv [hi]; lia.
Qed.

Lemma C8_keyblock_layout_witness :
  let self := set_version Keytab.fresh 0x0503 in
  let k := mkkeyblock 17 (Some (raw [0; 17])) (B "key") in
  reads (_read_keyblock self)
        (enc uint16 17 ++ raw [0; 17] ++ enc uint16 3 ++ B "key") k
  /\ Keytab.write_keyblock self k
     = Ok (enc uint16 17 ++ enc uint16 3 ++ B "key").
Proof.
  exact (C8_keyblock_layout 0x0503 17 (raw [0; 17]) (B "key")
           ltac:(lia) ltac:(reflexivity) ltac:(vm_compute; reflexivity)).
Defined.

(** C8 as stated fails for version 0x0504: the encoder writes the key
    length in four bytes, not as the u16 that the decoder reads. *)
Lemma C8_counterexample :
  let self := set_version Keytab.fresh 0x0504 in
  let k := mkkeyblock 1 None (B "k") in
  Keytab.write_keyblock self k = Ok (enc uint16 1 ++ enc uint32 1 ++ B "k")
  /\ Keytab.write_keyblock self k <> Ok (Wire.keyblock uint16 false k).
Proof. split; [vm_compute; reflexivity | vm_compute; discriminate]. Qed.

(** ** Splitting and joining *)

Lemma split_nonempty (c : byte) (s : bytes) : split c s <> [].
Proof.
  destruct s as [|x s]; simpl; [discriminate|].
  destruct (Ascii.eqb x c); [discriminate|].
  destruct (split c s); discriminate.
Qed.

Lemma split_cons_other (c x : byte) (s : bytes) :
  x <> c ->
  split c (x :: s) = (x :: hd [] (split c s)) :: tl (split c s).
Proof.
  intros Hx. simpl. destruct (Ascii.eqb_spec x c); [contradiction|].
  destruct (split c s) eqn:Hs; [|reflexivity].
  exfalso. exact (split_nonempty c s Hs).
Qed.

Lemma split_cons_sep (c : byte) (s : bytes) :
  split c (c :: s) = [] :: split c s.
Proof. simpl. rewrite Ascii.eqb_refl. reflexivity. Qed.

Lemma split_app (c : byte) (a b : bytes) :
  split c (a ++ c :: b)
  = removelast (split c a) ++ [last (split c a) []] ++ split c b.
Proof.
  induction a as [|x a IH].
  - simpl app. rewrite split_cons_sep. reflexivity.
  - change ((x :: a) ++ c :: b) with (x :: (a ++ c :: b)).
    destruct (Ascii.eqb_spec x c) as [->|Hx].
    + rewrite !split_cons_sep, IH.
      pose proof (split_nonempty c a) as Hne.
      destruct (split c a) as [|p ps]; [contradiction|]. reflexivity.
    + rewrite !split_cons_other by exact Hx. rewrite IH.
      pose proof (split_nonempty c a) as Hne.
      destruct (split c a) as [|p ps]; [contradiction|].
      destruct ps as [|q qs]; reflexivity.
Qed.

Lemma split_app_eq (c : byte) (a b : bytes) :
  split c (a ++ c :: b) = split c a ++ split c b.
Proof.
  rewrite split_app. rewrite app_assoc.
  rewrite <- app_removelast_last by apply split_nonempty. reflexivity.
Qed.

Lemma split_none (c : byte) (s : bytes) : ~ In c s -> split c s = [s].
Proof.
  induction s as [|x s IH]; intros Hn; [reflexivity|].
  rewrite split_cons_other by (intros ->; apply Hn; left; reflexivity).
  rewrite IH by (intros H; apply Hn; right; exact H). reflexivity.
Qed.

Lemma join_cons (sep p : bytes) (ps : list bytes) :
  ps <> [] -> join sep (p :: ps) = p ++ sep ++ join sep ps.
Proof. destruct ps; [contradiction | reflexivity]. Qed.

Lemma join_split (c : byte) (s : bytes) : join [c] (split c s) = s.
Proof.
  induction s as [|x s IH]; [reflexivity|].
  destruct (Ascii.eqb_spec x c) as [->|Hx].
  - rewrite split_cons_sep, join_cons by apply split_nonempty.
    rewrite IH. reflexivity.
  - rewrite split_cons_other by exact Hx.
    pose proof (split_nonempty c s) as Hne.
    destruct (split c s) as [|p ps]; [contradiction|].
    cbn [hd tl]. rewrite <- IH.
    destruct ps; reflexivity.
Qed.

Lemma split_piece_length (c : byte) (s p : bytes) :
  In p (split c s) -> (length p <= length s)%nat.
Proof.
  revert p. induction s as [|x s IH]; intros p Hp.
  - simpl in Hp. destruct Hp as [<-|[]]. simpl. lia.
  - destruct (Ascii.eqb_spec x c) as [->|Hx].
    + rewrite split_cons_sep in Hp. destruct Hp as [<-|Hp]; simpl; [lia|].
      apply IH in Hp. lia.
    + rewrite split_cons_other in Hp by exact Hx.
      pose proof (split_nonempty c s) as Hne.
      destruct (split c s) as [|q qs]; [contradiction|].
      cbn [hd tl] in Hp. destruct Hp as [<-|Hp].
      * specialize (IH q (or_introl eq_refl)). simpl. lia.
      * specialize (IH p (or_intror Hp)). simpl. lia.
Qed.

Lemma split_join_piece (c : byte) (l : list bytes) (p : bytes) :
  In p (split c (join [c] l)) ->
  p = [] \/ exists x, In x l /\ (length p <= length x)%nat.
Proof.
  induction l as [|x l IH]; intros Hp.
  - simpl in Hp. destruct Hp as [<-|[]]. left. reflexivity.
  - destruct l as [|y l].
    + simpl in Hp. right. exists x. split; [left; reflexivity|].
      apply (split_piece_length c). exact Hp.
    + rewrite join_cons in Hp by discriminate.
      change ([c] ++ ?t) with (c :: t) in Hp.
      rewrite split_app_eq in Hp. apply in_app_or in Hp.
      destruct Hp as [Hp|Hp].
      * right. exists x. split; [left; reflexivity|].
        apply (split_piece_length c). exact Hp.
      * destruct (IH Hp) as [->|(z & Hz & Hl)]; [left; reflexivity|].
        right. exists z. split; [right; exact Hz | exact Hl].
Qed.

Lemma count_occ_one_split (c : byte) (a b : bytes) :
  count_occ ascii_dec (a ++ c :: b) c = 1%nat ->
  split c (a ++ c :: b) = [a; b].
Proof.
  intros H. rewrite count_occ_app in H. simpl in H.
  destruct (ascii_dec c c) as [_|N]; [|contradiction].
  assert (Ha : count_occ ascii_dec a c = 0%nat) by lia.
  assert (Hb : count_occ ascii_dec b c = 0%nat) by lia.
  apply count_occ_not_In in Ha. apply count_occ_not_In in Hb.
  rewrite split_app_eq, (split_none c a Ha), (split_none c b Hb).
  reflexivity.
Qed.

Lemma length_split (c : byte) (s : bytes) :
  length (split c s) = S (count_occ ascii_dec s c).
Proof.
  induction s as [|x s IH]; [reflexivity|].
  destruct (Ascii.eqb_spec x c) as [->|Hx].
  - rewrite split_cons_sep. simpl.
    destruct (ascii_dec c c); [|contradiction]. rewrite IH. reflexivity.
  - rewrite split_cons_other by exact Hx.
    pose proof (split_nonempty c s) as Hne.
    destruct (split c s) as [|q qs]; [contradiction|].
    simpl in *. destruct (ascii_dec x c); [contradiction|]. exact IH.
Qed.

(** The bytes of a list of arrays: each piece and its length field. *)
Lemma len_arrays_split (s : Struct) (c : byte) (x : bytes) :
  len (Wire.arrays s (split c x))
  = len x + 1 + (size s - 1) * Z.of_nat (length (split c x)).
Proof.
  assert (G : forall l, l <> [] ->
              len (Wire.arrays s l)
              = len (join [c] l) + 1 + (size s - 1) * Z.of_nat (length l)).
  { induction l as [|p l IH]; intros Hne; [contradiction|].
    destruct l as [|q l].
    - unfold Wire.arrays, Wire.array. cbn [map concat join length].
      rewrite app_nil_r, len_app, len_enc. lia.
    - assert (Hq : q :: l <> []) by congruence.
      specialize (IH Hq). rewrite join_cons by exact Hq.
      change (Wire.arrays s (p :: q :: l))
        with (Wire.array s p ++ Wire.arrays s (q :: l)).
      rewrite len_app, IH. unfold Wire.array. rewrite !len_app, len_enc.
      change (len [c]) with 1.
      change (length (p :: q :: l)) with (S (length (q :: l))).
      rewrite Nat2Z.inj_succ. lia. }
  rewrite G by apply split_nonempty. rewrite join_split. reflexivity.
Qed.

(** ** What a successful decode tells about the values *)

Lemma bind_inv {A C} (m : M A) (k : A -> M C) (f : file) (r : C * file) :
  bind m k f = Ok r -> exists a f1, m f = Ok (a, f1) /\ k a f1 = Ok r.
Proof.
  unfold bind. destruct (m f) as [[a f1]|x]; [|discriminate].
  intros H. exists a, f1. split; [reflexivity | exact H].
Qed.

Lemma lift_inv {A} (r : result A) (f f' : file) (a : A) :
  lift r f = Ok (a, f') -> r = Ok a /\ f' = f.
Proof.
  unfold lift. destruct r; [|discriminate].
  intros [= -> ->]. split; reflexivity.
Qed.

Lemma fread_inv (n : Z) (f f' : file) (d : bytes) :
  0 <= n -> fread n f = Ok (d, f') -> len d <= n.
Proof.
  intros Hn H. unfold fread in H.
  destruct (read n f) as [d0 f0] eqn:R. injection H as -> ->.
  apply read_split in R; [|exact Hn]. lia.
Qed.

Lemma read_unpack_inv (s : Struct) (n v : Z) (f f' : file) :
  bind (fread n) (fun data => lift (unpack s data)) f = Ok (v, f') ->
  lo s <= v < hi s.
Proof.
  intros H. apply bind_inv in H. destruct H as (d & f1 & _ & H).
  apply lift_inv in H. destruct H as [H _].
  apply unpack_range in H. apply H.
Qed.

Lemma for_range_inv {A} (P : A -> Prop) (body : M A) (n : nat) :
  (forall f a f', body f = Ok (a, f') -> P a) ->
  forall f l f', for_range n body f = Ok (l, f') -> Forall P l.
Proof.
  intros Hb. induction n as [|n IH]; intros f l f' H; simpl in H.
  - injection H as <- _. constructor.
  - apply bind_inv in H. destruct H as (x & f1 & Hx & H).
    apply bind_inv in H. destruct H as (xs & f2 & Hxs & H).
    injection H as <- _. constructor; [eapply Hb | eapply IH]; eassumption.
Qed.

Lemma read_array_inv {E} (self : Krb5File E) (f f' : file) (d : bytes) :
  lo (array self) = 0 ->
  _read_array self f = Ok (d, f') -> len d < hi (array self).
Proof.
  intros Hlo H. unfold _read_array in H.
  apply bind_inv in H. destruct H as (d0 & f1 & _ & H).
  apply bind_inv in H. destruct H as (n & f2 & Hn & H).
  apply lift_inv in Hn. destruct Hn as [Hn _].
  apply unpack_range in Hn. destruct Hn as [Hn _].
  apply fread_inv in H; lia.
Qed.

Lemma read_principal_inv (self : Keytab.t) (f f' : file) (p : principal) :
  version self = 0x0502 -> array self = uint16 ->
  _read_principal self f = Ok (p, f') ->
  exists nt realm components,
    p = mkprincipal (Some nt) (Wire.joined realm components)
    /\ 0 <= nt < 2 ^ 32
    /\ len realm < 2 ^ 16
    /\ Forall (fun c => len c < 2 ^ 16) components.
Proof.
  intros Hv Ha H. unfold _read_principal in H. rewrite Hv in H.
  change (0x0502 =? 0x0504) with false in H.
  change (0x0502 =? 0x0502) with true in H. cbv iota in H.
  apply bind_inv in H. destruct H as ([nt0 n] & f1 & _ & H).
  apply bind_inv in H. destruct H as (realm & f2 & Hr & H).
  apply bind_inv in H. destruct H as (comps & f3 & Hc & H).
  apply bind_inv in H. destruct H as (nt & f4 & Hnt & H).
  injection H as <- _.
  apply bind_inv in Hnt. destruct Hnt as (d & f5 & _ & Hnt).
  apply bind_inv in Hnt. destruct Hnt as (v & f6 & Hu & Hnt).
  injection Hnt as <- _.
  apply lift_inv in Hu. destruct Hu as [Hu _].
  apply unpack_range in Hu. destruct Hu as [Hu _].
  assert (Hlo : lo (array self) = 0) by (rewrite Ha; reflexivity).
  assert (Hhi : hi (array self) = 2 ^ 16) by (rewrite Ha; reflexivity).
  exists v, realm, comps. repeat split; try apply Hu.
  - apply read_array_inv in Hr; [lia | exact Hlo].
  - apply (for_range_inv (fun c => len c < 2 ^ 16)) in Hc; [exact Hc|].
    intros g a g' Hg. apply read_array_inv in Hg; [lia | exact Hlo].
Qed.

Lemma read_keyblock_inv (self : Keytab.t) (f f' : file) (k : keyblock) :
  version self = 0x0502 ->
  _read_keyblock self f = Ok (k, f') ->
  0 <= type k < 2 ^ 16 /\ etype k = None /\ len (val k) < 2 ^ 16.
Proof.
  intros Hv H. unfold _read_keyblock in H. rewrite Hv in H.
  change (0x0502 >? 0x0502) with false in H. cbv iota in H.
  apply bind_inv in H. destruct H as (d & f1 & _ & H).
  apply bind_inv in H. destruct H as (ty & f2 & Hty & H).
  apply bind_inv in H. destruct H as (et & f3 & Het & H).
  apply bind_inv in H. destruct H as (d' & f4 & _ & H).
  apply bind_inv in H. destruct H as (n & f5 & Hn & H).
  apply bind_inv in H. destruct H as (v & f6 & Hval & H).
  injection H as <- _. injection Het as <- _.
  apply lift_inv in Hty. destruct Hty as [Hty _].
  apply unpack_range in Hty. destruct Hty as [Hty _].
  apply lift_inv in Hn. destruct Hn as [Hn _].
  apply unpack_range in Hn. destruct Hn as [Hn _].
  cbv [lo hi] in *. cbn [type etype val].
  apply fread_inv in Hval; [|lia].
  repeat split; try lia.
Qed.

Lemma read_vno_inv (sz start : Z) (f f' : file) (v : option Z) :
  Keytab._read_vno sz start f = Ok (v, f') ->
  match v with Some x => 0 <= x < 2 ^ 32 | None => True end.
Proof.
  intros H. unfold Keytab._read_vno in H.
  apply bind_inv in H. destruct H as (finish & f1 & _ & H).
  apply bind_inv in H. destruct H as ([v0 r] & f2 & Hv & H).
  apply bind_inv in H. destruct H as (x & f3 & _ & H).
  injection H as <- _.
  destruct (sz - (finish - start) >=? 4).
  - apply bind_inv in Hv. destruct Hv as (d & f4 & _ & Hv).
    apply bind_inv in Hv. destruct Hv as (y & f5 & Hy & Hv).
    injection Hv as <- _ _.
    apply lift_inv in Hy. destruct Hy as [Hy _].
    apply unpack_range in Hy. destruct Hy as [Hy _]. exact Hy.
  - injection Hv as <- _ _. exact I.
Qed.

Lemma load_entry_inv (self : Keytab.t) (f f' : file) (e : entry) :
  version self = 0x0502 -> array self = uint16 ->
  Keytab._load_entry self f = Ok (e, f') -> in_range_0502 e.
Proof.
  intros Hv Ha H. unfold Keytab._load_entry in H.
  apply bind_inv in H. destruct H as (s0 & f1 & _ & H).
  apply bind_inv in H. destruct H as (s1 & f2 & _ & H).
  apply bind_inv in H. destruct H as (start & f3 & _ & H).
  apply bind_inv in H. destruct H as (p & f4 & Hp & H).
  apply bind_inv in H. destruct H as (ts & f5 & Hts & H).
  apply bind_inv in H. destruct H as (v8 & f6 & Hv8 & H).
  apply bind_inv in H. destruct H as (k & f7 & Hk & H).
  apply bind_inv in H. destruct H as (v & f8 & Hvno & H).
  injection H as <- _.
  apply read_principal_inv in Hp; [|assumption|assumption].
  apply read_unpack_inv in Hts. apply read_unpack_inv in Hv8.
  apply read_keyblock_inv in Hk; [|assumption].
  apply read_vno_inv in Hvno.
  unfold in_range_0502. cbn [entry_principal timestamp vno8 key vno].
  destruct Hk as (K1 & K2 & K3).
  repeat split; try assumption; try apply Hts; try apply Hv8; try apply K1.
Qed.

(** ** Decoding a whole record *)

Lemma reads_read_time (ts : Z) :
  0 <= ts < 2 ^ 32 -> reads _read_time (enc uint32 ts) ts.
Proof. intros H. apply reads_unpack; [reflexivity | cbv [lo hi]; lia]. Qed.

Lemma reads_read_vno8 (v8 : Z) :
  0 <= v8 < 2 ^ 8 -> reads Keytab._read_vno8 (enc char v8) v8.
Proof. intros H. apply reads_unpack; [reflexivity | cbv [lo hi]; lia]. Qed.

Lemma firstn_app_le {A} (n : nat) (a b : list A) :
  (n <= length a)%nat -> firstn n (a ++ b) = firstn n a.
Proof.
  intros H. rewrite firstn_app.
  replace (n - length a)%nat with 0%nat by lia.
  rewrite firstn_O, app_nil_r. reflexivity.
Qed.

Lemma skipn_app_exact {A} (a b : list A) : skipn (length a) (a ++ b) = b.
Proof.
  rewrite skipn_app, Nat.sub_diag, skipn_all. reflexivity.
Qed.

Lemma load_entry_wire (self : Keytab.t) (nt ts v8 ty : Z)
      (realm et value trailer : bytes) (components : list bytes) :
  0 <= nt < 2 ^ 32 ->
  fits (array self) realm components ->
  0 <= ts < 2 ^ 32 -> 0 <= v8 < 2 ^ 8 -> 0 <= ty < 2 ^ 16 ->
  len et = 2 -> len value < 2 ^ 16 ->
  let p := mkprincipal
             (match name_type_place (version self) with
              | Wire.Absent => None
              | _ => Some nt
              end)
             (Wire.joined realm components) in
  let k := mkkeyblock ty (if has_etype (version self) then Some et else None)
                      value in
  let body :=
    Wire.principal (array self) (name_type_place (version self))
                   nt realm components
      ++ enc uint32 ts ++ enc char v8
      ++ Wire.keyblock uint16 (has_etype (version self)) k
      ++ trailer in
  len body < 2 ^ 31 ->
  reads (Keytab._load_entry self) (enc int32 (len body) ++ body)
        (mkentry p ts v8 k
                 (if 4 <=? len trailer
                  then Some (be_decode (firstn 4 trailer))
                  else None)).
Proof.
  intros Hnt (Hn & Hr & Hc) Hts Hv8 Hty Het Hval p k body Hlen pos tail.
  set (pw := Wire.principal (array self) (name_type_place (version self))
                            nt realm components) in *.
  set (kw := Wire.keyblock uint16 (has_etype (version self)) k) in *.
  set (f0 := mkfile (pos + 4) (body ++ tail)).
  set (f1 := mkfile (pos + 4 + len pw)
                    (enc uint32 ts ++ enc char v8 ++ kw ++ trailer ++ tail)).
  set (f2 := mkfile (pos + 4 + len pw + len (enc uint32 ts))
                    (enc char v8 ++ kw ++ trailer ++ tail)).
  set (f3 := mkfile (pos + 4 + len pw + len (enc uint32 ts)
                     + len (enc char v8))
                    (kw ++ trailer ++ tail)).
  set (f4 := mkfile (pos + 4 + len pw + len (enc uint32 ts)
                     + len (enc char v8) + len kw)
                    (trailer ++ tail)).
  assert (Hbody : len body = len pw + 4 + 1 + len kw + len trailer).
  { unfold body. rewrite !len_app, !len_enc. cbv [size]. lia. }
  pose proof (len_nonneg pw). pose proof (len_nonneg kw).
  pose proof (len_nonneg trailer).
  rewrite (load_entry_fields self _ f0 f1 f2 f3 f4 (len body) ts v8 p k).
  - assert (Hrem : len body - (tell f4 - tell f0) = len trailer).
    { unfold f4, f0. cbn [tell]. rewrite !len_enc. cbv [size]. lia. }
    assert (Hend : tell f0 + len body = pos + len (enc int32 (len body) ++ body)).
    { unfold f0. cbn [tell]. rewrite len_app, len_enc. cbv [size]. lia. }
    assert (Hskip : skipn (Z.to_nat (len trailer)) (rest f4) = tail).
    { unfold f4. cbn [rest]. unfold len. rewrite Nat2Z.id.
      apply skipn_app_exact. }
    destruct (Z.leb_spec 4 (len trailer)) as [H4|H4].
    + rewrite read_vno_some
        by (rewrite Hrem; unfold f4; cbn [rest]; rewrite ?len_app;
            pose proof (len_nonneg tail); lia).
      rewrite Hrem, Hskip, Hend. unfold f4. cbn [rest].
      rewrite firstn_app_le by (unfold len in H4; lia). reflexivity.
    + rewrite read_vno_padding
        by (rewrite Hrem; unfold f4; cbn [rest]; rewrite ?len_app;
            pose proof (len_nonneg tail); lia).
      rewrite Hrem, Hskip, Hend. reflexivity.
  - rewrite <- app_assoc. apply get_entry_size_enc. lia.
  - lia.
  - unfold f0, f1, body. rewrite <- !app_assoc.
    apply (reads_principal self nt realm components Hnt Hn Hr Hc).
  - unfold f1, f2. apply (reads_read_time ts Hts).
  - unfold f2, f3. apply (reads_read_vno8 v8 Hv8).
  - unfold f3, f4. apply (reads_keyblock self ty et value Hty Het Hval).
Qed.

(** ** Encoding an entry *)

Lemma make_array_wire {E} (self : Krb5File E) (x : bytes) :
  len x < hi (array self) ->
  _make_array self x = Ok (Wire.array (array self) x).
Proof.
  intros H. unfold _make_array, Wire.array.
  rewrite pack_ok
    by (pose proof (lo_nonpos (array self)); pose proof (len_nonneg x); lia).
  reflexivity.
Qed.

Lemma for_each_make_array {E} (self : Krb5File E) (l : list bytes) :
  Forall (fun c => len c < hi (array self)) l ->
  for_each l (_make_array self) = Ok (Wire.arrays (array self) l).
Proof.
  induction 1 as [|c l Hc Hl IH]; [reflexivity|].
  simpl. rewrite make_array_wire by exact Hc. simpl. rewrite IH. reflexivity.
Qed.

Lemma be_decode_enc_uint32 (v : Z) :
  0 <= v < 2 ^ 32 -> be_decode (firstn 4 (enc uint32 v)) = v.
Proof.
  intros Hv. rewrite firstn_all2
    by (pose proof (len_enc uint32 v) as L; unfold len in L; cbv [size] in L;
        lia).
  pose proof (unpack_enc uint32 v ltac:(cbv [lo hi]; lia)) as U.
  unfold unpack in U. rewrite len_enc, Z.eqb_refl in U.
  injection U as U. exact U.
Qed.

Lemma write_entry_wire (self : Keytab.t) (e : entry) (nt : Z)
      (princ realm : bytes) :
  array self = uint16 ->
  split "@"%char (value (entry_principal e)) = [princ; realm] ->
  name_type (entry_principal e) = Some nt ->
  0 <= nt < 2 ^ 32 ->
  fits uint16 realm (split "/"%char princ) ->
  0 <= timestamp e < 2 ^ 32 -> 0 <= vno8 e < 2 ^ 8 ->
  0 <= type (key e) < 2 ^ 16 -> len (val (key e)) < 2 ^ 16 ->
  match vno e with Some v => 0 <= v < 2 ^ 32 | None => True end ->
  let body :=
    Wire.principal uint16 Wire.Last nt realm (split "/"%char princ)
      ++ enc uint32 (timestamp e) ++ enc char (vno8 e)
      ++ Wire.keyblock uint16 false (key e)
      ++ match vno e with
         | Some v => if v =? 0 then [] else enc uint32 v
         | None => []
         end in
  len body < 2 ^ 31 ->
  Keytab.__write_entry self e = Ok (enc int32 (len body) ++ body).
Proof.
  intros Ha Hsplit Hnt Rnt (Hn & Hr & Hc) Rts Rv8 Rty Rval Rvno body Hlen.
  unfold Keytab.__write_entry. rewrite Hsplit, Hnt.
  cbv [hi] in Hn.
  rewrite pack_ok by (cbv [lo hi]; lia). cbn [rbind].
  rewrite make_array_wire by (rewrite Ha; exact Hr). cbn [rbind].
  rewrite for_each_make_array by (rewrite Ha; exact Hc). cbn [rbind].
  rewrite pack_ok by (cbv [lo hi]; lia). cbn [rbind].
  rewrite pack_ok by (cbv [lo hi]; lia). cbn [rbind].
  rewrite pack_ok by (cbv [lo hi]; lia). cbn [rbind].
  rewrite write_keyblock_wire by (rewrite ?Ha; cbv [hi]; lia). cbn [rbind].
  rewrite Ha.
  assert (Hv : match vno e with
               | Some v => if v =? 0 then Ok [] else pack uint32 v
               | None => Ok []
               end
               = Ok match vno e with
                    | Some v => if v =? 0 then [] else enc uint32 v
                    | None => []
                    end).
  { destruct (vno e) as [v|]; [|reflexivity].
    destruct (v =? 0); [reflexivity|].
    apply pack_ok. cbv [lo hi]. lia. }
  rewrite Hv. cbn [rbind].
  assert (Hb : enc uint16 (Z.of_nat (length (split "/"%char princ)))
                 ++ Wire.array uint16 realm
                 ++ Wire.arrays uint16 (split "/"%char princ)
                 ++ enc uint32 nt ++ enc uint32 (timestamp e)
                 ++ enc char (vno8 e)
                 ++ Wire.keyblock uint16 false (key e)
                 ++ match vno e with
                    | Some v => if v =? 0 then [] else enc uint32 v
                    | None => []
                    end
               = body).
  { unfold body, Wire.principal. change ([] ++ ?x) with x.
    rewrite <- !app_assoc. reflexivity. }
  rewrite Hb.
  rewrite pack_ok by (cbv [lo hi]; pose proof (len_nonneg body); lia).
  reflexivity.
Qed.

Lemma count_occ_app_le (c : byte) (a b : bytes) :
  (count_occ ascii_dec a c <= count_occ ascii_dec (a ++ b) c)%nat.
Proof. rewrite count_occ_app. lia. Qed.

(** C3, as the code has it.  For an entry decoded from a file with
    version tag 0x0502 whose principal name contains exactly one [@],
    fewer than 65535 [/] and fewer than 2^31 - 2^18 bytes: encoding the
    entry succeeds, and decoding the encoded bytes again yields the
    same entry in every field, except that a trailing key version that
    was present but zero is gone. *)
Theorem C3_roundtrip (self : Keytab.t) (f f' : file) (e : entry) :
  version self = 0x0502 -> array self = uint16 ->
  Keytab._load_entry self f = Ok (e, f') ->
  count_occ ascii_dec (value (entry_principal e)) "@"%char = 1%nat ->
  Z.of_nat (count_occ ascii_dec (value (entry_principal e)) "/"%char)
  < 2 ^ 16 - 1 ->
  len (value (entry_principal e)) < 2 ^ 31 - 2 ^ 18 ->
  exists data,
    Keytab.__write_entry self e = Ok data
    /\ reads (Keytab._load_entry self) data (drop_zero_vno e).
Proof.
  intros Hv Ha L Hat Hslash Hlen.
  destruct (load_entry_inv self f f' e Hv Ha L)
    as ((nt & realm & comps & Hp & Rnt & Rrealm & Rcomps)
        & Rts & Rv8 & Rty & Ret & Rval & Rvno).
  destruct e as [p ts v8 k v]. cbn [entry_principal timestamp vno8 key vno] in *.
  subst p. cbn [value name_type] in *.
  destruct k as [ty et kv]. cbn [type etype val] in *. subst et.
  set (princ := join (B "/") comps) in *.
  assert (Hval : Wire.joined realm comps = princ ++ "@"%char :: realm)
    by reflexivity.
  rewrite Hval in *.
  pose proof (count_occ_one_split _ _ _ Hat) as Hsplit.
  set (comps' := split "/"%char princ).
  assert (Hjoin : Wire.joined realm comps' = princ ++ "@"%char :: realm).
  { unfold Wire.joined, comps'. change (B "/") with ["/"%char].
    rewrite join_split. reflexivity. }
  assert (Hfits : fits uint16 realm comps').
  { unfold fits. cbv [hi]. repeat split.
    - unfold comps'. rewrite length_split.
      pose proof (count_occ_app_le "/"%char princ ("@"%char :: realm)). lia.
    - exact Rrealm.
    - apply Forall_forall. intros q Hq.
      apply split_join_piece in Hq. destruct Hq as [->|(x & Hx & Hl)].
      + unfold len. simpl. lia.
      + rewrite Forall_forall in Rcomps. specialize (Rcomps x Hx).
        unfold len in *. lia. }
  set (vb := match v with
             | Some x => if x =? 0 then [] else enc uint32 x
             | None => []
             end).
  set (body := Wire.principal uint16 Wire.Last nt realm comps'
                 ++ enc uint32 ts ++ enc char v8
                 ++ Wire.keyblock uint16 false (mkkeyblock ty None kv)
                 ++ vb).
  assert (Hvb : len vb <= 4).
  { unfold vb. destruct v as [x|]; [destruct (x =? 0)|];
      rewrite ?len_enc; cbv [size]; unfold len; simpl; lia. }
  assert (Hbody : len body < 2 ^ 31).
  { unfold body, Wire.principal, Wire.keyblock, Wire.array.
    cbn [type etype val]. change ([] ++ ?x) with x.
    rewrite !len_app, !len_enc. unfold comps'.
    rewrite len_arrays_split. fold comps'. cbv [size].
    destruct Hfits as (Hn & _ & _). cbv [hi] in Hn.
    rewrite len_app in Hlen. pose proof (len_nonneg ("@"%char :: realm)).
    lia. }
  exists (enc int32 (len body) ++ body). split.
  - exact (write_entry_wire
             self
             (mkentry (mkprincipal (Some nt) (princ ++ "@"%char :: realm))
                      ts v8 (mkkeyblock ty None kv) v)
             nt princ realm Ha Hsplit eq_refl Rnt Hfits Rts Rv8 Rty Rval
             Rvno Hbody).
  - pose proof (load_entry_wire self nt ts v8 ty realm (raw [0; 0]) kv vb
                                comps' Rnt) as W.
    rewrite Hv, Ha in W. cbv beta zeta in W.
    change (name_type_place 0x0502) with Wire.Last in W.
    change (has_etype 0x0502) with false in W. cbv iota in W.
    specialize (W Hfits Rts Rv8 Rty eq_refl Rval Hbody).
    rewrite Hjoin in W.
    replace (drop_zero_vno _)
      with (mkentry (mkprincipal (Some nt) (princ ++ "@"%char :: realm))
                    ts v8 (mkkeyblock ty None kv)
                    (if 4 <=? len vb
                     then Some (be_decode (firstn 4 vb)) else None));
      [exact W|].
    unfold drop_zero_vno, vb. cbn [vno entry_principal timestamp vno8 key].
    destruct v as [x|]; [|reflexivity].
    destruct (Z.eqb_spec x 0); [reflexivity|].
    rewrite len_enc. cbv [size]. change (4 <=? 4) with true. cbv iota.
    rewrite be_decode_enc_uint32 by exact Rvno. reflexivity.
Qed.

Lemma C3_roundtrip_witness :
  let e := mkentry sample_principal 9 7 sample_key (Some 0) in
  exists data,
    Keytab.__write_entry sample_keytab e = Ok data
    /\ reads (Keytab._load_entry sample_keytab) data
             (mkentry sample_principal 9 7 sample_key None).
Proof.
  exact (C3_roundtrip
           sample_keytab
           (open (enc int32 30 ++ sample_fields ++ enc uint32 0))
           (mkfile 34 [])
           (mkentry sample_principal 9 7 sample_key (Some 0))
           eq_refl eq_refl
           ltac:(vm_compute; reflexivity)
           ltac:(vm_compute; reflexivity)
           ltac:(vm_compute; reflexivity)
           ltac:(vm_compute; reflexivity)).
Defined.

(** C3 as stated fails outside version 0x0502 and for names with a
    second [@].  An entry decoded from a file with tag 0x0503 has no
    name type, and encoding it raises [KeyError]; an entry decoded from
    a file with tag 0x0502 whose only component is [a@b] has the name
    [a@b@R], and encoding it raises [ValueError]. *)
Lemma C3_counterexample :
  (let self := set_version Keytab.fresh 0x0503 in
   let k := mkkeyblock 17 (Some (raw [0; 17])) (B "key") in
   let e := mkentry (mkprincipal None (B "host@R")) 9 7 k None in
   Keytab._load_entry
     self
     (open (enc int32 25
              ++ Wire.principal uint16 Wire.Absent 0 (B "R") [B "host"]
              ++ enc uint32 9 ++ enc char 7 ++ Wire.keyblock uint16 true k))
   = Ok (e, mkfile 29 [])
   /\ Keytab.__write_entry self e = Raise KeyError)
  /\ (let e := mkentry (mkprincipal (Some 1) (B "a@b@R")) 9 7 sample_key None in
      Keytab._load_entry
        sample_keytab
        (open (enc int32 25
                 ++ Wire.principal uint16 Wire.Last 1 (B "R") [B "a@b"]
                 ++ enc uint32 9 ++ enc char 7
                 ++ Wire.keyblock uint16 false sample_key))
      = Ok (e, mkfile 29 [])
      /\ Keytab.__write_entry sample_keytab e = Raise ValueError).
Proof. vm_compute. repeat split; reflexivity. Qed.

(** ** Files that end inside a record *)

Lemma read_principal_parts {E} (self : Krb5File E) :
  _read_principal self
  = bind (except_struct_error (principal_lead self))
         (fun a => let '(nt, n) := a in principal_after_lead self nt n).
Proof. reflexivity. Qed.


Lemma firstn_app_ge {A} (j : nat) (a b : list A) :
  (length a <= j)%nat -> firstn j (a ++ b) = a ++ firstn (j - length a) b.
Proof.
  intros H. rewrite firstn_app, firstn_all2 by lia. reflexivity.
Qed.

Lemma strict_cut {A} (m : M A) (w : bytes) : strict m w -> cut m w.
Proof. intros H pos j Hj. left. apply H. exact Hj. Qed.



Lemma strict_ret_bind {A C} (a : A) (k : A -> M C) (w : bytes) :
  strict (k a) w -> strict (bind (ret a) k) w.
Proof. intros H pos j Hj. unfold bind, ret. apply H. exact Hj. Qed.

Lemma strict_bind {A C} (m : M A) (k : A -> M C) (w1 w2 : bytes) (a : A) :
  reads m w1 a -> cut m w1 -> (forall a', strict (k a') w2) ->
  strict (bind m k) (w1 ++ w2).
Proof.
  intros Hr Hc Hk pos j Hj. rewrite length_app in Hj.
  destruct (Nat.lt_ge_cases j (length w1)) as [Hlt|Hge].
  - rewrite firstn_app_le by lia.
    destruct (Hc pos j (or_introl Hlt)) as [R|(a' & pos' & R)];
      unfold bind; rewrite R; [reflexivity|].
    apply (Hk a' pos' 0%nat). right. reflexivity.
  - rewrite firstn_app_ge by exact Hge.
    unfold bind. rewrite Hr. apply Hk. lia.
Qed.

Lemma bind_ok {A C} (m : M A) (k : A -> M C) (f f1 : file) (a : A) :
  m f = Ok (a, f1) -> bind m k f = k a f1.
Proof. intros H. unfold bind. rewrite H. reflexivity. Qed.

Lemma bind_raise {A C} (m : M A) (k : A -> M C) (f : file) (x : exn) :
  m f = Raise x -> bind m k f = Raise x.
Proof. intros H. unfold bind. rewrite H. reflexivity. Qed.



Lemma len_firstn_lt (j : nat) (w : bytes) :
  (j < length w)%nat \/ j = 0%nat -> w <> [] -> len (firstn j w) < len w.
Proof.
  intros Hj Hw. unfold len. rewrite length_firstn.
  destruct w; [contradiction|]. simpl length in *. lia.
Qed.

Lemma strict_unpack_bind_last {C} (s : Struct) (n x : Z) (k : Z -> M C) :
  n = size s ->
  strict (bind (fread n) (fun data => bind (lift (unpack s data)) k))
         (enc s x).
Proof.
  intros -> pos j Hj.
  assert (Hl : len (firstn j (enc s x)) < size s).
  { rewrite <- (len_enc s x). apply len_firstn_lt; [exact Hj|].
    intros E. pose proof (len_enc s x) as L. rewrite E in L.
    pose proof (size_pos s). unfold len in L. simpl in L. lia. }
  unfold bind at 1. unfold fread.
  rewrite read_short by (cbn [rest]; lia). cbn [rest].
  unfold bind, lift. rewrite unpack_short by lia. reflexivity.
Qed.





Section CutFacts.
Context {E : Type}.
Variable self : Krb5File E.





Lemma strict_lead (nt n : Z) :
  0 <= nt < 2 ^ 32 ->
  strict (principal_lead self)
         (Wire.lead (array self) (name_type_place (version self)) nt n).
Proof.
  intros Hnt. unfold principal_lead, Wire.lead, name_type_place.
  destruct (Z.eqb_spec (version self) 0x0504) as [E4|E4].
  - apply strict_bind with (a := Some nt).
    + apply reads_unpack_some; [reflexivity | cbv [lo hi]; lia].
    + apply strict_cut. apply strict_unpack_bind_last. reflexivity.
    + intros nt'. apply strict_unpack_bind_last. reflexivity.
  - destruct (version self =? 0x0502); cbv iota;
      change ([] ++ ?x) with x; apply strict_ret_bind;
      apply strict_unpack_bind_last; reflexivity.
Qed.


End CutFacts.



(** ** Holes before the end of the file *)

Lemma load_entry_hole (self : Keytab.t) (f f1 : file) (n : Z) :
  Keytab.__get_entry_size f = Ok (n, f1) ->
  n < 0 ->
  Keytab._load_entry self f
  = Keytab._load_entry self
      (mkfile (tell f1 + Z.min (- n) (len (rest f1)))
              (skipn (Z.to_nat (- n)) (rest f1))).
Proof.
  intros G Hn.
  set (f2 := mkfile (tell f1 + Z.min (- n) (len (rest f1)))
                    (skipn (Z.to_nat (- n)) (rest f1))).
  unfold Keytab._load_entry. unfold bind at 1. rewrite G.
  unfold bind at 1. rewrite while_size_neg by exact Hn.
  unfold bind at 1. unfold fread.
  assert (R : read (- n) f1 = (fst (read (- n) f1), f2)).
  { pose proof (read_length (- n) f1 ltac:(lia)) as (_ & Ht & Hr).
    destruct (read (- n) f1) as [d g] eqn:R. cbn [fst snd] in *.
    destruct g as [t r]. cbn [tell rest] in *. subst. reflexivity. }
  rewrite R. unfold bind.
  destruct (Keytab.__get_entry_size f2) as [[m f3]|x]; reflexivity.
Qed.

Lemma load_entry_holes (self : Keytab.t) (f f' : file) :
  holes f f' -> Keytab._load_entry self f = Keytab._load_entry self f'.
Proof.
  induction 1 as [f|f n f1 f' G Hn _ IH]; [reflexivity|].
  rewrite (load_entry_hole self f f1 n G Hn). exact IH.
Qed.

Lemma get_entry_size_raise (f : file) (x : exn) :
  Keytab.__get_entry_size f = Raise x -> len (rest f) < 4.
Proof.
  intros H. destruct (Z.lt_ge_cases (len (rest f)) 4) as [Hl|Hl];
    [exact Hl | exfalso].
  assert (Hs : rest f = firstn 4 (rest f) ++ skipn 4 (rest f))
    by (symmetry; apply firstn_skipn).
  assert (H4 : len (firstn 4 (rest f)) = 4).
  { unfold len in *. rewrite length_firstn. lia. }
  destruct (unpack int32 (firstn 4 (rest f))) as [n|y] eqn:U.
  - pose proof (unpack_range _ _ _ U) as [R _].
    pose proof (enc_unpack _ _ _ U) as En.
    destruct f as [p r]. cbn [rest tell] in *.
    rewrite Hs, <- En, get_entry_size_enc in H by exact R. discriminate H.
  - unfold unpack in U. rewrite H4 in U. discriminate U.
Qed.

(** Where the entry reader raises, it stands, behind any holes, before
    fewer than four bytes or behind a size field that is not
    negative. *)
Lemma load_entry_raise_place (self : Keytab.t) (x : exn) (m : nat) :
  forall f,
    (length (rest f) <= m)%nat ->
    Keytab._load_entry self f = Raise x ->
    exists fh,
      holes f fh
      /\ (len (rest fh) < 4
          \/ exists sz f0,
               Keytab.__get_entry_size fh = Ok (sz, f0) /\ 0 <= sz).
Proof.
  induction m as [|m IH]; intros f Hm L.
  - exists f. split; [constructor|]. left. unfold len. lia.
  - destruct (Keytab.__get_entry_size f) as [[n f1]|y] eqn:G.
    + destruct (Z.lt_ge_cases n 0) as [Hn|Hn].
      * pose proof (get_entry_size_length _ _ _ G) as Hl.
        rewrite (load_entry_hole self f f1 n G Hn) in L.
        apply IH in L.
        -- destruct L as (fh & Hh & Hend). exists fh.
           split; [exact (holes_cons f n f1 fh G Hn Hh) | exact Hend].
        -- cbn [rest]. rewrite length_skipn. lia.
      * exists f. split; [constructor|]. right. exists n, f1.
        split; [exact G | exact Hn].
    + exists f. split; [constructor|]. left.
      exact (get_entry_size_raise f y G).
Qed.

(** Every load of a keytab stops in this way: behind the entries that
    were decoded and any holes that follow them, the file has fewer than
    four bytes left, or a size field that is not negative opens a record
    that cannot be read to its end. *)
Lemma load_stops (self : Keytab.t) (m : nat) :
  forall f,
    (length (rest f) <= m)%nat ->
    exists es fb fh,
      decodes self f es fb /\ holes fb fh
      /\ (len (rest fh) < 4
          \/ exists sz f0 x,
               Keytab.__get_entry_size fh = Ok (sz, f0) /\ 0 <= sz
               /\ Keytab._load_entry self fh = Raise x).
Proof.
  induction m as [|m IH]; intros f Hm.
  - exists [], f, f. split; [constructor|]. split; [constructor|].
    left. unfold len. lia.
  - destruct (Keytab._load_entry self f) as [[e f1]|x] eqn:L.
    + pose proof (load_entry_length _ _ _ _ L) as Hl.
      destruct (IH f1 ltac:(lia)) as (es & fb & fh & D & H & Hend).
      exists (e :: es), fb, fh.
      split; [exact (decodes_cons self f e f1 es fb L D)|].
      split; [exact H | exact Hend].
    + destruct (load_entry_raise_place self x _ f Hm L) as (fh & H & Hend).
      exists [], f, fh. split; [constructor|]. split; [exact H|].
      destruct Hend as [Hs|(sz & f0 & G & Hsz)]; [left; exact Hs|].
      right. exists sz, f0, x. split; [exact G|]. split; [exact Hsz|].
      rewrite <- (load_entry_holes self f fh H). exact L.
Qed.




(** * Further properties of the code *)

(** ** Arrays *)

(** An array written by [_make_array] is read back by [_read_array],
    which takes exactly the written bytes; [_make_array] raises
    [struct.error] exactly when the payload is too long for the length
    field of the container. *)
Theorem make_array_read_array {E} (self : Krb5File E) (arr : bytes) :
  match _make_array self arr with
  | Ok data => len arr < hi (array self)
               /\ reads (_read_array self) data arr
  | Raise x => x = StructError /\ hi (array self) <= len arr
  end.
Proof.
  destruct (Z.lt_ge_cases (len arr) (hi (array self))) as [H|H].
  - rewrite make_array_wire by exact H.
    split; [exact H | apply reads_array; exact H].
  - unfold _make_array, pack.
    destruct (Z.ltb_spec (len arr) (hi (array self))); [lia|].
    rewrite andb_false_r. split; [reflexivity | exact H].
Qed.

(** ** The size field of a record *)

(** [__get_entry_size] raises [EOFError] exactly when fewer than four
    bytes are left, and nothing else: with four bytes or more it returns
    their value as a signed big-endian number and moves four bytes
    on. *)
Theorem get_entry_size_cases (f : file) :
  (len (rest f) < 4 /\ Keytab.__get_entry_size f = Raise EOFError)
  \/ (exists n t,
         rest f = enc int32 n ++ t
         /\ - 2 ^ 31 <= n < 2 ^ 31
         /\ Keytab.__get_entry_size f = Ok (n, mkfile (tell f + 4) t)).
Proof.
  destruct (Z.lt_ge_cases (len (rest f)) 4) as [H|H].
  - left. split; [exact H | apply get_entry_size_short; exact H].
  - right.
    assert (Hs : rest f = firstn 4 (rest f) ++ skipn 4 (rest f))
      by (symmetry; apply firstn_skipn).
    assert (Hl : len (firstn 4 (rest f)) = 4).
    { unfold len in *. rewrite length_firstn. lia. }
    destruct (unpack int32 (firstn 4 (rest f))) as [n|x] eqn:U.
    + pose proof (unpack_range _ _ _ U) as [R _].
      pose proof (enc_unpack _ _ _ U) as En.
      exists n, (skipn 4 (rest f)). rewrite En. split; [exact Hs|].
      split; [exact R|].
      destruct f as [p r]. cbn [rest tell] in *.
      rewrite Hs at 1. rewrite <- En. apply get_entry_size_enc. exact R.
    + unfold unpack in U. rewrite Hl in U. discriminate U.
Qed.

(** ** Key blocks written and read back *)

Lemma enc_uint32_small (n : Z) :
  0 <= n < 2 ^ 16 -> enc uint32 n = raw [0; 0] ++ enc uint16 n.
Proof.
  intros Hn. unfold enc. cbv [size].
  change (Z.to_nat 4) with 4%nat. change (Z.to_nat 2) with 2%nat.
  rewrite !Z.mod_small by lia.
  cbn [be_encode app raw map].
  assert (H1 : n / 256 / 256 = 0)
    by (apply Z.div_small; split;
        [apply Z.div_pos; lia | apply Z.div_lt_upper_bound; lia]).
  rewrite H1. change (0 / 256) with 0. change (0 mod 256) with 0.
  reflexivity.
Qed.

(** The key block that [__write_entry] writes is read back by
    [_read_keyblock] as the same key when the version is at most 0x0502;
    for version 0x0504 it is read back too, the upper half of the
    four-byte length taken for an etype of two zero bytes. *)
Theorem keyblock_write_read (v : Z) (k : keyblock) :
  0 <= type k < 2 ^ 16 -> len (val k) < 2 ^ 16 ->
  let self := set_version Keytab.fresh v in
  exists data,
    Keytab.write_keyblock self k = Ok data
    /\ (v <= 0x0502 ->
        reads (_read_keyblock self) data
              (mkkeyblock (type k) None (val k)))
    /\ (v = 0x0504 ->
        reads (_read_keyblock self) data
              (mkkeyblock (type k) (Some (raw [0; 0])) (val k))).
Proof.
  intros Hty Hval self.
  pose proof (reads_keyblock self (type k) (raw [0; 0]) (val k)
                             Hty eq_refl Hval) as R.
  cbv zeta in R. change (version self) with v in R. unfold has_etype in R.
  exists (Wire.keyblock (array self) false k). split; [|split].
  - apply write_keyblock_wire; [exact Hty|].
    unfold self, set_version. cbn [array Keytab.fresh].
    destruct (v =? 0x0504); cbv [hi]; lia.
  - intros Hv.
    assert (Ha : array self = uint16).
    { unfold self, set_version. cbn [array Keytab.fresh].
      destruct (Z.eqb_spec v 0x0504); [lia | reflexivity]. }
    destruct (Z.gtb_spec v 0x0502) as [G|G]; [lia|].
    rewrite Ha. exact R.
  - intros Hv.
    assert (Ha : array self = uint32) by (subst v; reflexivity).
    destruct (Z.gtb_spec v 0x0502) as [G|G]; [|lia].
    rewrite Ha. unfold Wire.keyblock in *. cbn [type etype val] in *.
    pose proof (len_nonneg (val k)).
    rewrite enc_uint32_small by lia.
    rewrite <- app_assoc. exact R.
Qed.

Lemma keyblock_write_read_witness :
  exists data,
    Keytab.write_keyblock (set_version Keytab.fresh 0x0504) sample_key
    = Ok data
    /\ (0x0504 <= 0x0502 ->
        reads (_read_keyblock (set_version Keytab.fresh 0x0504)) data
              (mkkeyblock 17 None (raw [170; 187])))
    /\ (0x0504 = 0x0504 ->
        reads (_read_keyblock (set_version Keytab.fresh 0x0504)) data
              (mkkeyblock 17 (Some (raw [0; 0])) (raw [170; 187]))).
Proof.
  exact (keyblock_write_read 0x0504 sample_key
                             ltac:(cbn; lia) ltac:(vm_compute; reflexivity)).
Defined.

(** ** What loading a keytab raises *)

Lemma raises_only_ret {A} (a : A) : raises_only (ret a).
Proof. intros f x H. discriminate H. Qed.

Lemma raises_only_fread (n : Z) : raises_only (fread n).
Proof. intros f x H. discriminate H. Qed.

Lemma raises_only_ftell : raises_only ftell.
Proof. intros f x H. discriminate H. Qed.

Lemma raises_only_raise_eof {A} : raises_only (@raise A EOFError).
Proof. intros f x [= <-]. right. reflexivity. Qed.

Lemma raises_only_unpack (s : Struct) (d : bytes) :
  raises_only (lift (unpack s d)).
Proof.
  intros f x H. unfold lift, unpack in H.
  destruct (len d =? size s); [discriminate H|].
  injection H as <-. left. reflexivity.
Qed.

Lemma raises_only_bind {A C} (m : M A) (k : A -> M C) :
  raises_only m -> (forall a, raises_only (k a)) -> raises_only (bind m k).
Proof.
  intros Hm Hk f x H. unfold bind in H.
  destruct (m f) as [[a f1]|y] eqn:R.
  - exact (Hk a f1 x H).
  - injection H as <-. exact (Hm f y R).
Qed.

Lemma raises_only_except {A} (m : M A) :
  raises_only m -> raises_only (except_struct_error m).
Proof.
  intros Hm f x H. unfold except_struct_error in H.
  destruct (m f) as [[a f1]|y] eqn:R; [discriminate H|].
  destruct (Hm f y R) as [-> | ->]; injection H as <-; right; reflexivity.
Qed.

Lemma raises_only_for_range {A} (n : nat) (body : M A) :
  raises_only body -> raises_only (for_range n body).
Proof.
  intros Hb. induction n as [|n IH]; simpl.
  - apply raises_only_ret.
  - apply raises_only_bind; [exact Hb|]. intros a.
    apply raises_only_bind; [exact IH|]. intros l. apply raises_only_ret.
Qed.

Create HintDb raises.

#[local] Hint Resolve raises_only_ret raises_only_fread raises_only_ftell
  raises_only_raise_eof raises_only_unpack raises_only_except
  raises_only_for_range : raises.

Ltac raises_step :=
  match goal with
  | |- raises_only (bind _ _) => apply raises_only_bind; [|intros ?]
  | |- raises_only (if ?b then _ else _) => destruct b
  | |- raises_only (let '(_, _) := ?p in _) => destruct p
  | |- raises_only _ => solve [auto with raises]
  end.

Lemma raises_only_read_array {E} (self : Krb5File E) :
  raises_only (_read_array self).
Proof. unfold _read_array. repeat raises_step. Qed.

#[local] Hint Resolve raises_only_read_array : raises.

Lemma raises_only_read_principal {E} (self : Krb5File E) :
  raises_only (_read_principal self).
Proof.
  unfold _read_principal. apply raises_only_bind.
  - apply raises_only_except. repeat raises_step.
  - intros [nt n]. repeat raises_step.
Qed.

Lemma raises_only_read_keyblock {E} (self : Krb5File E) :
  raises_only (_read_keyblock self).
Proof. unfold _read_keyblock. repeat raises_step. Qed.

Lemma raises_only_read_time : raises_only _read_time.
Proof. unfold _read_time. repeat raises_step. Qed.

Lemma raises_only_read_vno8 : raises_only Keytab._read_vno8.
Proof. unfold Keytab._read_vno8. repeat raises_step. Qed.

Lemma raises_only_read_vno (sz start : Z) :
  raises_only (Keytab._read_vno sz start).
Proof.
  unfold Keytab._read_vno. apply raises_only_bind; [auto with raises|].
  intros finish. apply raises_only_bind.
  - repeat raises_step.
  - intros [v r]. repeat raises_step.
Qed.

Lemma raises_only_get_entry_size : raises_only Keytab.__get_entry_size.
Proof. unfold Keytab.__get_entry_size. repeat raises_step. Qed.

#[local] Hint Resolve raises_only_read_principal raises_only_read_keyblock
  raises_only_read_time raises_only_read_vno8 raises_only_read_vno
  raises_only_get_entry_size : raises.

Lemma raises_only_while_negative (fuel : nat) (sz : Z) :
  raises_only (Keytab.while_negative fuel sz).
Proof.
  revert sz. induction fuel as [|fuel IH]; intros sz; simpl;
    destruct (sz <? 0); auto with raises.
  apply raises_only_bind; [auto with raises|]. intros _.
  apply raises_only_bind; [auto with raises|]. intros n. apply IH.
Qed.

Lemma raises_only_load_entry (self : Keytab.t) :
  raises_only (Keytab._load_entry self).
Proof.
  unfold Keytab._load_entry.
  apply raises_only_bind; [auto with raises|]. intros sz.
  apply raises_only_bind.
  - intros f x H. unfold Keytab.while_size_negative in H.
    exact (raises_only_while_negative _ _ f x H).
  - intros sz'. repeat raises_step.
Qed.

Lemma load_loop_raises (self : Keytab.t) (fuel : nat) (acc : list entry)
      (f : file) (x : exn) :
  Keytab.load_loop self fuel acc f = Raise x -> x = StructError.
Proof.
  revert acc f. induction fuel as [|fuel IH]; intros acc f H; simpl in H;
    destruct (Keytab._load_entry self f) as [[e f1]|y] eqn:L;
    try discriminate H.
  - destruct (raises_only_load_entry self f y L) as [-> | ->];
      [injection H as <-; reflexivity | discriminate H].
  - exact (IH _ _ H).
  - destruct (raises_only_load_entry self f y L) as [-> | ->];
      [injection H as <-; reflexivity | discriminate H].
Qed.

(** Whatever the file holds, of the two exceptions that the readers
    raise only [struct.error] leaves the load of a keytab: every
    [EOFError] ends the loop over the entries instead. *)
Theorem load_raises_struct_error (self : Keytab.t) (contents : bytes)
        (x : exn) :
  Keytab.load self contents = Raise x -> x = StructError.
Proof.
  unfold Keytab.load. intros H.
  destruct (_read_version (open contents)) as [[v f]|y] eqn:V.
  - unfold Keytab.load_entries in H.
    destruct (Keytab.load_loop (set_version self v) (length (rest f))
                               (entries (set_version self v)) f)
      as [l|z] eqn:L; [discriminate H|].
    injection H as <-. exact (load_loop_raises _ _ _ _ _ L).
  - injection H as <-. unfold _read_version, bind, fread in V.
    destruct (read 2 (open contents)) as [d f1].
    unfold lift, unpack in V.
    destruct (len d =? size uint16); [discriminate V|].
    injection V as <-. reflexivity.
Qed.

Lemma load_raises_struct_error_witness : StructError = StructError.
Proof.
  exact (load_raises_struct_error
           Keytab.fresh
           (enc uint16 0x0502 ++ enc int32 26 ++ raw [0; 1; 0])
           StructError ltac:(vm_compute; reflexivity)).
Defined.

(** A file shorter than the two bytes of the version tag, the empty
    file included, is not an empty keytab: loading it raises
    [struct.error]. *)
Theorem load_short_file (self : Keytab.t) (contents : bytes) :
  len contents < 2 -> Keytab.load self contents = Raise StructError.
Proof.
  intros H. unfold Keytab.load, _read_version, open, bind, fread.
  rewrite read_short by (cbn [rest]; lia). cbn [rest].
  unfold lift. rewrite unpack_short by (cbv [size]; lia). reflexivity.
Qed.

Lemma load_short_file_witness :
  Keytab.load Keytab.fresh [] = Raise StructError.
Proof.
  exact (load_short_file Keytab.fresh [] ltac:(vm_compute; reflexivity)).
Defined.

(** ** Filtering twice, and the grace period *)

(** Filtering a keytab a second time with the same pattern changes
    nothing. *)
Theorem filter_idempotent
        (Pattern : Type) (re_compile : bytes -> result Pattern)
        (re_match : Pattern -> bytes -> bool)
        (self : list entry) (pattern : bytes) :
  (l <~ filter Pattern re_compile re_match self pattern;;
   filter Pattern re_compile re_match l pattern)
  = filter Pattern re_compile re_match self pattern.
Proof.
  rewrite (filter_keeps_matching Pattern re_compile re_match self pattern).
  destruct (re_compile pattern) as [princs|x] eqn:C; [|reflexivity].
  cbn [rbind]. rewrite filter_keeps_matching, C. cbn [rbind].
  f_equal. induction self as [|k self IH]; [reflexivity|].
  cbn [List.filter].
  destruct (re_match princs (value (entry_principal k))) eqn:Hk;
    [|exact IH].
  cbn [List.filter]. rewrite Hk, IH. reflexivity.
Qed.

(** A ticket-granting ticket that is reported expired stays reported
    expired when the clock or the grace period grows. *)
Theorem is_tgt_expired_monotone (self : list cred) (now secs now' secs' : Z) :
  CredentialCache.is_tgt_expired self now secs = Some true ->
  now + secs <= now' + secs' ->
  CredentialCache.is_tgt_expired self now' secs' = Some true.
Proof.
  intros H Hle. induction self as [|k self IH]; [discriminate H|].
  cbn [CredentialCache.is_tgt_expired] in *.
  destruct (bytes_eq_dec (hd [] (split "/"%char (value (server k))))
                         (B "krbtgt")); [|exact (IH H)].
  destruct (Z.leb_spec (endtime (cred_times k)) (now + secs));
    [|discriminate H].
  destruct (Z.leb_spec (endtime (cred_times k)) (now' + secs'));
    [reflexivity | lia].
Qed.

Lemma is_tgt_expired_monotone_witness :
  let k := mkcred (mkprincipal None (B "user@R"))
                  (mkprincipal None (B "krbtgt/R@R"))
                  sample_key (mktimes 0 0 100 0) 0 0 [] [] [] [] in
  CredentialCache.is_tgt_expired [k] 90 60 = Some true.
Proof.
  exact (is_tgt_expired_monotone
           [mkcred (mkprincipal None (B "user@R"))
                   (mkprincipal None (B "krbtgt/R@R"))
                   sample_key (mktimes 0 0 100 0) 0 0 [] [] [] []]
           90 10 90 60 ltac:(vm_compute; reflexivity) ltac:(lia)).
Defined.

(** ** Saving a keytab and loading it again *)

Lemma entry_write_read (w r : Keytab.t) (e : entry) :
  array w = uint16 -> version r = 0x0502 -> array r = uint16 ->
  in_range_0502 e -> name_fits e ->
  exists data,
    Keytab.__write_entry w e = Ok data
    /\ reads (Keytab._load_entry r) data (drop_zero_vno e).
Proof.
  intros Haw Hv Ha
         ((nt & realm & comps & Hp & Rnt & Rrealm & Rcomps)
          & Rts & Rv8 & Rty & Ret & Rval & Rvno)
         (Hat & Hslash & Hlen).
  destruct e as [p ts v8 k v].
  cbn [entry_principal timestamp vno8 key vno] in *.
  subst p. cbn [value name_type] in *.
  destruct k as [ty et kv]. cbn [type etype val] in *. subst et.
  set (princ := join (B "/") comps) in *.
  assert (Hval : Wire.joined realm comps = princ ++ "@"%char :: realm)
    by reflexivity.
  rewrite Hval in *.
  pose proof (count_occ_one_split _ _ _ Hat) as Hsplit.
  set (comps' := split "/"%char princ).
  assert (Hjoin : Wire.joined realm comps' = princ ++ "@"%char :: realm).
  { unfold Wire.joined, comps'. change (B "/") with ["/"%char].
    rewrite join_split. reflexivity. }
  assert (Hfits : fits uint16 realm comps').
  { unfold fits. cbv [hi]. repeat split.
    - unfold comps'. rewrite length_split.
      pose proof (count_occ_app_le "/"%char princ ("@"%char :: realm)). lia.
    - exact Rrealm.
    - apply Forall_forall. intros q Hq.
      apply split_join_piece in Hq. destruct Hq as [->|(x & Hx & Hl)].
      + unfold len. simpl. lia.
      + rewrite Forall_forall in Rcomps. specialize (Rcomps x Hx).
        unfold len in *. lia. }
  set (vb := match v with
             | Some x => if x =? 0 then [] else enc uint32 x
             | None => []
             end).
  set (body := Wire.principal uint16 Wire.Last nt realm comps'
                 ++ enc uint32 ts ++ enc char v8
                 ++ Wire.keyblock uint16 false (mkkeyblock ty None kv)
                 ++ vb).
  assert (Hvb : len vb <= 4).
  { unfold vb. destruct v as [x|]; [destruct (x =? 0)|];
      rewrite ?len_enc; cbv [size]; unfold len; simpl; lia. }
  assert (Hbody : len body < 2 ^ 31).
  { unfold body, Wire.principal, Wire.keyblock, Wire.array.
    cbn [type etype val]. change ([] ++ ?x) with x.
    rewrite !len_app, !len_enc. unfold comps'.
    rewrite len_arrays_split. fold comps'. cbv [size].
    destruct Hfits as (Hn & _ & _). cbv [hi] in Hn.
    rewrite len_app in Hlen. pose proof (len_nonneg ("@"%char :: realm)).
    lia. }
  exists (enc int32 (len body) ++ body). split.
  - exact (write_entry_wire
             w
             (mkentry (mkprincipal (Some nt) (princ ++ "@"%char :: realm))
                      ts v8 (mkkeyblock ty None kv) v)
             nt princ realm Haw Hsplit eq_refl Rnt Hfits Rts Rv8 Rty Rval
             Rvno Hbody).
  - pose proof (load_entry_wire r nt ts v8 ty realm (raw [0; 0]) kv vb
                                comps' Rnt) as W.
    rewrite Hv, Ha in W. cbv beta zeta in W.
    change (name_type_place 0x0502) with Wire.Last in W.
    change (has_etype 0x0502) with false in W. cbv iota in W.
    specialize (W Hfits Rts Rv8 Rty eq_refl Rval Hbody).
    rewrite Hjoin in W.
    replace (drop_zero_vno _)
      with (mkentry (mkprincipal (Some nt) (princ ++ "@"%char :: realm))
                    ts v8 (mkkeyblock ty None kv)
                    (if 4 <=? len vb
                     then Some (be_decode (firstn 4 vb)) else None));
      [exact W|].
    unfold drop_zero_vno, vb. cbn [vno entry_principal timestamp vno8 key].
    destruct v as [x|]; [|reflexivity].
    destruct (Z.eqb_spec x 0); [reflexivity|].
    rewrite len_enc. cbv [size]. change (4 <=? 4) with true. cbv iota.
    rewrite be_decode_enc_uint32 by exact Rvno. reflexivity.
Qed.

Lemma load_loop_inv (self : Keytab.t) (fuel : nat) (acc l : list entry)
      (f : file) :
  Keytab.load_loop self fuel acc f = Ok l ->
  exists es,
    l = acc ++ es
    /\ Forall (fun e => exists g g', Keytab._load_entry self g = Ok (e, g'))
              es.
Proof.
  revert acc f. induction fuel as [|fuel IH]; intros acc f H; simpl in H;
    destruct (Keytab._load_entry self f) as [[e f1]|y] eqn:L.
  - injection H as <-. exists [e]. split; [reflexivity|].
    constructor; [exists f, f1; exact L | constructor].
  - destruct y; try discriminate H. injection H as <-.
    exists []. rewrite app_nil_r. split; [reflexivity | constructor].
  - destruct (IH _ _ H) as (es & -> & Hes).
    exists (e :: es). rewrite <- app_assoc. split; [reflexivity|].
    constructor; [exists f, f1; exact L | exact Hes].
  - destruct y; try discriminate H. injection H as <-.
    exists []. rewrite app_nil_r. split; [reflexivity | constructor].
Qed.

Lemma decodes_of_reads (self : Keytab.t) (datas : list bytes)
      (es : list entry) :
  Forall2 (fun d e => reads (Keytab._load_entry self) d e) datas es ->
  forall pos tail,
    decodes self (mkfile pos (concat datas ++ tail)) es
            (mkfile (pos + len (concat datas)) tail).
Proof.
  induction 1 as [|d e datas es Hd Hall IH]; intros pos tail.
  - simpl. rewrite len_nil, Z.add_0_r. constructor.
  - cbn [concat]. rewrite <- app_assoc.
    apply decodes_cons with (f' := mkfile (pos + len d)
                                          (concat datas ++ tail)).
    + apply Hd.
    + rewrite len_app, Z.add_assoc. apply IH.
Qed.

Lemma save_entries_wire (w r : Keytab.t) (es : list entry) :
  array w = uint16 -> version r = 0x0502 -> array r = uint16 ->
  Forall (fun e => in_range_0502 e /\ name_fits e) es ->
  exists datas,
    (fix go (l : list entry) : result bytes :=
       match l with
       | [] => Ok []
       | e :: l' =>
           d <~ Keytab.__write_entry w e;; ds <~ go l';; Ok (d ++ ds)
       end) es = Ok (concat datas)
    /\ Forall2 (fun d e => reads (Keytab._load_entry r) d e)
               datas (map drop_zero_vno es).
Proof.
  intros Haw Hv Ha. induction 1 as [|e es [He1 He2] Hes IH].
  - exists []. split; [reflexivity | constructor].
  - destruct IH as (datas & Hgo & Hall).
    destruct (entry_write_read w r e Haw Hv Ha He1 He2) as (d & Hw & Hr).
    exists (d :: datas). split.
    + rewrite Hw. cbn [rbind]. rewrite Hgo. reflexivity.
    + constructor; assumption.
Qed.

(** A keytab loaded from a file with version tag 0x0502, all of whose
    principal names have exactly one [@] (and fewer than 65535 [/] and
    2^31 - 2^18 bytes), can be saved, and loading the saved file gives
    the same keytab, entry by entry and in the same order, except that
    key versions that were present but zero are gone. *)
Theorem save_then_load (contents : bytes) (kt : Keytab.t) :
  Keytab.__init__ contents = Ok kt ->
  version kt = 0x0502 ->
  Forall name_fits (entries kt) ->
  exists data,
    Keytab.save kt = Ok data
    /\ Keytab.__init__ data
       = Ok (mkKrb5File 0x0502 uint16 (map drop_zero_vno (entries kt))).
Proof.
  intros L Hv Hnames.
  unfold Keytab.__init__, Keytab.load in L.
  destruct (_read_version (open contents)) as [[v f]|y] eqn:V;
    [|discriminate L].
  unfold Keytab.load_entries in L.
  destruct (Keytab.load_loop (set_version Keytab.fresh v) (length (rest f))
                             (entries (set_version Keytab.fresh v)) f)
    as [l|z] eqn:LL; [|discriminate L].
  injection L as <-. cbn [version entries array] in *. subst v.
  change (array (set_version Keytab.fresh 0x0502)) with uint16.
  set (r := set_version Keytab.fresh 0x0502) in *.
  destruct (load_loop_inv _ _ _ _ _ LL) as (es & -> & Hes).
  change (entries r) with (@nil entry) in *. cbn [app] in *.
  assert (Hall : Forall (fun e => in_range_0502 e /\ name_fits e) es).
  { rewrite Forall_forall in *. intros e He. split; [|apply Hnames; exact He].
    destruct (Hes e He) as (g & g' & Lg).
    exact (load_entry_inv r g g' e eq_refl eq_refl Lg). }
  set (w := mkKrb5File 0x0502 uint16 es).
  destruct (save_entries_wire w r es eq_refl eq_refl eq_refl Hall)
    as (datas & Hgo & Hreads).
  change (exists data,
             Keytab.save w = Ok data
             /\ Keytab.__init__ data
                = Ok (mkKrb5File 0x0502 uint16 (map drop_zero_vno es))).
  exists (enc uint16 0x0502 ++ concat datas). split.
  - unfold Keytab.save.
    change (version w) with 0x0502. change (entries w) with es.
    rewrite pack_ok by (cbv [lo hi]; lia). cbn [rbind].
    rewrite Hgo. reflexivity.
  - unfold Keytab.__init__, Keytab.load.
    assert (V' : _read_version (open (enc uint16 0x0502 ++ concat datas))
                 = Ok (0x0502, mkfile 2 (concat datas))).
    { unfold _read_version, open.
      rewrite (reads_unpack uint16 2 0x0502 eq_refl
                            ltac:(cbv [lo hi]; lia) 0 (concat datas)).
      rewrite len_enc. reflexivity. }
    rewrite V'. fold r. change (entries r) with (@nil entry).
    pose proof (decodes_of_reads r datas _ Hreads 2 []) as D.
    rewrite app_nil_r in D.
    rewrite (load_entries_decodes r _ _ _ [] D). cbn [app].
    rewrite (load_entries_raise r _ _ EOFError); [reflexivity|].
    unfold Keytab._load_entry. apply bind_raise.
    apply get_entry_size_short. cbn [rest]. unfold len. simpl. lia.
Qed.

Lemma save_then_load_witness :
  let kt := mkKrb5File 0x0502 uint16
                       [mkentry sample_principal 9 7 sample_key (Some 0);
                        mkentry sample_principal 9 7 sample_key (Some 5)] in
  exists data,
    Keytab.save kt = Ok data
    /\ Keytab.__init__ data
       = Ok (mkKrb5File 0x0502 uint16
                        [mkentry sample_principal 9 7 sample_key None;
                         mkentry sample_principal 9 7 sample_key (Some 5)]).
Proof.
  assert (F : Forall name_fits
                     [mkentry sample_principal 9 7 sample_key (Some 0);
                      mkentry sample_principal 9 7 sample_key (Some 5)]).
  { repeat (constructor; [split; [|split]; vm_compute; reflexivity|]).
    constructor. }
  exact (save_then_load
           (enc uint16 0x0502
              ++ (enc int32 30 ++ sample_fields ++ enc uint32 0)
              ++ enc int32 (-3) ++ raw [1; 2; 3]
              ++ (enc int32 30 ++ sample_fields ++ enc uint32 5))
           (mkKrb5File 0x0502 uint16
                       [mkentry sample_principal 9 7 sample_key (Some 0);
                        mkentry sample_principal 9 7 sample_key (Some 5)])
           ltac:(vm_compute; reflexivity)
           eq_refl F).
Defined.

(** ** Credential caches: the readers on well-formed bytes *)

Lemma unpack_le_enc (x : Z) :
  0 <= x < 2 ^ 32 -> CCache.unpack_le_uint32 (rev (enc uint32 x)) = Ok x.
Proof.
  intros Hx. unfold CCache.unpack_le_uint32.
  assert (L : len (rev (enc uint32 x)) = 4).
  { unfold len. rewrite length_rev. apply (len_enc uint32 x). }
  rewrite L, Z.eqb_refl, rev_involutive.
  pose proof (unpack_enc uint32 x ltac:(cbv [lo hi]; lia)) as U.
  unfold unpack in U. rewrite len_enc, Z.eqb_refl in U.
  exact U.
Qed.

Lemma reads_unpack_le_bind {C} (x : Z) (k : Z -> M C) (w : bytes) (c : C) :
  0 <= x < 2 ^ 32 -> reads (k x) w c ->
  reads (bind (fread 4)
              (fun data => bind (lift (CCache.unpack_le_uint32 data)) k))
        (rev (enc uint32 x) ++ w) c.
Proof.
  intros Hx H. apply reads_fread_bind.
  - unfold len. rewrite length_rev. symmetry. apply (len_enc uint32 x).
  - apply reads_lift_bind with (a := x); [apply unpack_le_enc; exact Hx|].
    exact H.
Qed.

Lemma reads_read_times (t : times) :
  0 <= authtime t < 2 ^ 32 -> 0 <= starttime t < 2 ^ 32 ->
  0 <= endtime t < 2 ^ 32 -> 0 <= renew_till t < 2 ^ 32 ->
  reads CCache._read_times
        (enc uint32 (authtime t) ++ enc uint32 (starttime t)
           ++ enc uint32 (endtime t) ++ enc uint32 (renew_till t))
        t.
Proof.
  intros Ha Hs He Hr. unfold CCache._read_times.
  eapply reads_bind; [apply reads_read_time; exact Ha|].
  eapply reads_bind; [apply reads_read_time; exact Hs|].
  eapply reads_bind; [apply reads_read_time; exact He|].
  rewrite <- (app_nil_r (enc uint32 (renew_till t))).
  eapply reads_bind; [apply reads_read_time; exact Hr|].
  destruct t. apply reads_ret.
Qed.

Lemma reads_read_segments (self : Krb5File cred) (l : list bytes) :
  segments_fit (array self) l ->
  reads (CCache._read_segments self) (wire_segments (array self) l) l.
Proof.
  intros (Hn & Hl). unfold CCache._read_segments, wire_segments.
  apply reads_unpack_bind; [reflexivity | cbv [lo hi]; lia|].
  rewrite Nat2Z.id. apply reads_arrays. exact Hl.
Qed.

Lemma reads_wire_principal {E} (self : Krb5File E) (p : wprincipal) :
  wprincipal_fits (array self) p ->
  reads (_read_principal self)
        (wire_principal (array self) (name_type_place (version self)) p)
        (decoded_principal (name_type_place (version self)) p).
Proof.
  intros (Hnt & Hn & Hr & Hc).
  apply (reads_principal self _ _ _ Hnt Hn Hr Hc).
Qed.

Lemma reads_ccache_load_entry (self : Krb5File cred) (c : wcred) :
  wcred_fits (array self) c ->
  reads (CCache._load_entry self)
        (wire_cred (array self) (name_type_place (version self))
                   (has_etype (version self)) c)
        (decoded_cred (name_type_place (version self))
                      (has_etype (version self)) c).
Proof.
  intros (Hcl & Hsv & Hkt & Het & Hkv & Ha & Hs & He & Hr & Hsk & Hfl
          & Had & Hau & Htk & Htk2).
  unfold CCache._load_entry, wire_cred, decoded_cred.
  eapply reads_bind; [apply reads_wire_principal; exact Hcl|].
  eapply reads_bind; [apply reads_wire_principal; exact Hsv|].
  eapply reads_bind;
    [apply (reads_keyblock self _ _ _ Hkt Het Hkv)|].
  eapply reads_bind; [apply reads_read_times; assumption|].
  apply reads_unpack_bind; [reflexivity | cbv [lo hi]; lia|].
  apply reads_unpack_le_bind; [exact Hfl|].
  eapply reads_bind; [apply reads_read_segments; exact Had|].
  eapply reads_bind; [apply reads_read_segments; exact Hau|].
  eapply reads_bind; [apply reads_array; exact Htk|].
  rewrite <- (app_nil_r (Wire.array _ (w_ticket2 c))).
  eapply reads_bind; [apply reads_array; exact Htk2|].
  apply reads_ret.
Qed.

(** A credential laid out field by field, the ticket flags with their
    low byte first, is read by [_load_entry] as the credential with
    these field values, and the reader takes exactly these bytes. *)
Theorem ccache_load_entry_wire (self : Krb5File cred) (c : wcred) :
  wcred_fits (array self) c ->
  reads (CCache._load_entry self)
        (wire_cred (array self) (name_type_place (version self))
                   (has_etype (version self)) c)
        (decoded_cred (name_type_place (version self))
                      (has_etype (version self)) c).
Proof.
  intros (Hcl & Hsv & Hkt & Het & Hkv & Ha & Hs & He & Hr & Hsk & Hfl
          & Had & Hau & Htk & Htk2).
  unfold CCache._load_entry, wire_cred, decoded_cred.
  eapply reads_bind; [apply reads_wire_principal; exact Hcl|].
  eapply reads_bind; [apply reads_wire_principal; exact Hsv|].
  eapply reads_bind;
    [apply (reads_keyblock self _ _ _ Hkt Het Hkv)|].
  eapply reads_bind; [apply reads_read_times; assumption|].
  apply reads_unpack_bind; [reflexivity | cbv [lo hi]; lia|].
  apply reads_unpack_le_bind; [exact Hfl|].
  eapply reads_bind; [apply reads_read_segments; exact Had|].
  eapply reads_bind; [apply reads_read_segments; exact Hau|].
  eapply reads_bind; [apply reads_array; exact Htk|].
  rewrite <- (app_nil_r (Wire.array _ (w_ticket2 c))).
  eapply reads_bind; [apply reads_array; exact Htk2|].
  apply reads_ret.
Qed.

Lemma sample_wcred_fits (s : Struct) :
  s = uint16 \/ s = uint32 -> wcred_fits s sample_wcred.
Proof.
  intros [-> | ->];
    unfold wcred_fits, wprincipal_fits, fits, segments_fit;
    cbn [sample_wcred w_client w_server w_keytype w_etype w_keyval w_times
         w_is_skey w_tktflags w_addrs w_authdata w_ticket w_ticket2
         sample_user sample_tgs w_name_type w_realm w_components
         authtime starttime endtime renew_till];
    repeat match goal with
           | |- _ /\ _ => split
           | |- Forall _ _ => repeat constructor
           | |- _ => vm_compute; first [reflexivity | discriminate]
           end.
Qed.

Lemma ccache_load_entry_wire_witness :
  reads (CCache._load_entry (set_version CCache.fresh 0x0504))
        (wire_cred uint32 Wire.First true sample_wcred)
        (decoded_cred Wire.First true sample_wcred).
Proof.
  exact (ccache_load_entry_wire (set_version CCache.fresh 0x0504)
                                sample_wcred
                                (sample_wcred_fits uint32
                                                   (or_intror eq_refl))).
Defined.

(** ** Credential caches: the header block *)

Lemma wire_header_len (h : Z * bytes) :
  len (wire_header h) = 4 + len (snd h).
Proof.
  unfold wire_header. rewrite !len_app, !len_enc. cbv [size]. lia.
Qed.

Lemma headers_loop_wire (hs : list (Z * bytes)) :
  Forall header_fits hs ->
  forall (fuel : nat) (acc : list (Z * bytes)) (pos : Z) (tail : bytes),
    (length (concat (map wire_header hs) ++ tail) <= fuel)%nat ->
    CCache.headers_loop fuel (pos + len (concat (map wire_header hs))) acc
                        (mkfile pos (concat (map wire_header hs) ++ tail))
    = Ok (acc ++ hs, mkfile (pos + len (concat (map wire_header hs))) tail).
Proof.
  induction 1 as [|h hs [Ht Hd] Hhs IH]; intros fuel acc pos tail Hfuel.
  - cbn [map concat]. rewrite len_nil, Z.add_0_r, app_nil_r.
    destruct fuel; simpl; rewrite Z.ltb_irrefl; reflexivity.
  - cbn [map concat] in *. rewrite len_app.
    pose proof (wire_header_len h) as Hl.
    pose proof (len_nonneg (snd h)).
    pose proof (len_nonneg (concat (map wire_header hs))).
    destruct fuel as [|fuel].
    { rewrite !length_app in Hfuel. unfold len in Hl. lia. }
    assert (Hfuel' : (length (concat (map wire_header hs) ++ tail) <= fuel)%nat).
    { rewrite !length_app in *. unfold len in Hl. lia. }
    cbn [CCache.headers_loop tell]. rewrite Hl.
    destruct (Z.ltb_spec pos (pos + (4 + len (snd h)
                                     + len (concat (map wire_header hs)))));
      [|lia].
    change (wire_header h)
      with (enc uint16 (fst h) ++ enc uint16 (len (snd h)) ++ snd h).
    rewrite <- !app_assoc.
    rewrite reads_unpack_bind_step by (reflexivity || (cbv [lo hi]; lia)).
    rewrite reads_unpack_bind_step by (reflexivity || (cbv [lo hi]; lia)).
    unfold bind at 1. unfold fread. rewrite read_app by reflexivity.
    replace (pos + (4 + len (snd h) + len (concat (map wire_header hs))))
      with (pos + size uint16 + size uint16 + len (snd h)
            + len (concat (map wire_header hs)))
      by (cbv [size]; lia).
    rewrite IH by exact Hfuel'.
    rewrite <- app_assoc. destruct h as [tag data]. cbn [fst snd].
    reflexivity.
Qed.

Lemma reads_read_headers (hs : list (Z * bytes)) :
  Forall header_fits hs ->
  len (concat (map wire_header hs)) < 2 ^ 16 ->
  reads CCache._read_headers (wire_headers hs) hs.
Proof.
  intros Hhs Htotal pos tail. unfold CCache._read_headers, wire_headers.
  rewrite <- app_assoc.
  pose proof (len_nonneg (concat (map wire_header hs))).
  rewrite reads_unpack_bind_step by (reflexivity || (cbv [lo hi]; lia)).
  unfold bind, ftell. cbn [tell rest].
  rewrite (headers_loop_wire hs Hhs _ [] (pos + size uint16) tail (le_n _)).
  rewrite len_app, len_enc. cbn [app]. do 3 f_equal. lia.
Qed.

(** A header block laid out as its total length and then, header by
    header, tag, data length and data, is read by [_read_headers] as the
    list of the tags with their data, in order; an empty block gives the
    empty list. *)
Theorem read_headers_wire (hs : list (Z * bytes)) :
  Forall header_fits hs ->
  len (concat (map wire_header hs)) < 2 ^ 16 ->
  reads CCache._read_headers (wire_headers hs) hs.
Proof.
  intros Hhs Htotal pos tail. unfold CCache._read_headers, wire_headers.
  rewrite <- app_assoc.
  pose proof (len_nonneg (concat (map wire_header hs))).
  rewrite reads_unpack_bind_step by (reflexivity || (cbv [lo hi]; lia)).
  unfold bind, ftell. cbn [tell rest].
  rewrite (headers_loop_wire hs Hhs _ [] (pos + size uint16) tail (le_n _)).
  rewrite len_app, len_enc. cbn [app]. do 3 f_equal. lia.
Qed.

Lemma read_headers_wire_witness :
  reads CCache._read_headers
        (wire_headers [(1, raw [255; 255; 255; 255; 0; 0; 0; 0])])
        [(1, raw [255; 255; 255; 255; 0; 0; 0; 0])].
Proof.
  apply (read_headers_wire [(1, raw [255; 255; 255; 255; 0; 0; 0; 0])]).
  - repeat constructor; vm_compute; first [reflexivity | discriminate].
  - vm_compute. reflexivity.
Defined.

Lemma headers_loop_done (fuel : nat) (limit : Z) (acc : list (Z * bytes))
      (f : file) :
  limit <= tell f -> CCache.headers_loop fuel limit acc f = Ok (acc, f).
Proof.
  intros H. destruct fuel; cbn [CCache.headers_loop];
    destruct (Z.ltb_spec (tell f) limit); try lia; reflexivity.
Qed.

Lemma headers_loop_step (h : Z * bytes) (fuel : nat) (limit : Z)
      (acc : list (Z * bytes)) (pos : Z) (tail : bytes) :
  header_fits h -> pos < limit ->
  CCache.headers_loop (S fuel) limit acc (mkfile pos (wire_header h ++ tail))
  = CCache.headers_loop fuel limit (acc ++ [h])
                        (mkfile (pos + len (wire_header h)) tail).
Proof.
  intros [Ht Hd] Hlt. pose proof (len_nonneg (snd h)).
  cbn [CCache.headers_loop tell].
  destruct (Z.ltb_spec pos limit); [|lia].
  rewrite wire_header_len. unfold wire_header. rewrite <- !app_assoc.
  rewrite reads_unpack_bind_step by (reflexivity || (cbv [lo hi]; lia)).
  rewrite reads_unpack_bind_step by (reflexivity || (cbv [lo hi]; lia)).
  unfold bind at 1. unfold fread. rewrite read_app by reflexivity.
  destruct h as [tag data]. cbn [fst snd size].
  replace (pos + 2 + 2 + len data) with (pos + (4 + len data)) by lia.
  reflexivity.
Qed.

Lemma headers_loop_overrun (hs : list (Z * bytes)) :
  Forall header_fits hs ->
  forall (h : Z * bytes) (fuel : nat) (acc : list (Z * bytes)) (pos n : Z)
         (tail : bytes),
    header_fits h ->
    len (concat (map wire_header hs)) < n
    <= len (concat (map wire_header (hs ++ [h]))) ->
    (length (concat (map wire_header (hs ++ [h])) ++ tail) <= fuel)%nat ->
    CCache.headers_loop fuel (pos + n) acc
                        (mkfile pos (concat (map wire_header (hs ++ [h]))
                                       ++ tail))
    = Ok (acc ++ hs ++ [h],
          mkfile (pos + len (concat (map wire_header (hs ++ [h])))) tail).
Proof.
  induction 1 as [|h0 hs H0 Hhs IH];
    intros h fuel acc pos n tail Hh Hn Hfuel.
  - cbn [app map concat] in *. rewrite app_nil_r in *.
    rewrite len_nil in Hn.
    pose proof (wire_header_len h) as Hl. pose proof (len_nonneg (snd h)).
    destruct fuel as [|fuel].
    { rewrite length_app in Hfuel. unfold len in Hl. lia. }
    rewrite headers_loop_step by (exact Hh || lia).
    apply headers_loop_done. cbn [tell]. lia.
  - cbn [app map concat] in *. rewrite len_app in Hn.
    pose proof (wire_header_len h0) as Hl. pose proof (len_nonneg (snd h0)).
    pose proof (len_nonneg (concat (map wire_header hs))).
    destruct fuel as [|fuel].
    { rewrite !length_app in Hfuel. unfold len in Hl. lia. }
    rewrite <- app_assoc.
    rewrite headers_loop_step by (exact H0 || lia).
    replace (pos + n)
      with (pos + len (wire_header h0) + (n - len (wire_header h0))) by lia.
    rewrite (IH h fuel (acc ++ [h0]) _ (n - len (wire_header h0)) tail Hh).
    + rewrite <- app_assoc, len_app, Z.add_assoc. reflexivity.
    + rewrite len_app in Hn. lia.
    + rewrite !length_app in *. unfold len in Hl. lia.
Qed.

(** A header block whose declared length ends inside its last header,
    anywhere behind the first byte of that header, is read without an
    error: the last header is read whole, so [_read_headers] returns all
    the headers and leaves the file behind the last of them, past the
    end of the block that the length declares. *)
Theorem read_headers_past_block (hs : list (Z * bytes)) (h : Z * bytes)
        (n : Z) :
  Forall header_fits hs -> header_fits h ->
  len (concat (map wire_header hs)) < n
  < len (concat (map wire_header (hs ++ [h]))) ->
  n < 2 ^ 16 ->
  reads CCache._read_headers
        (enc uint16 n ++ concat (map wire_header (hs ++ [h])))
        (hs ++ [h]).
Proof.
  intros Hhs Hh Hn Hmax pos tail. unfold CCache._read_headers.
  rewrite <- app_assoc.
  pose proof (len_nonneg (concat (map wire_header hs))).
  rewrite reads_unpack_bind_step by (reflexivity || (cbv [lo hi]; lia)).
  unfold bind, ftell. cbn [tell rest].
  rewrite (headers_loop_overrun hs Hhs h _ [] (pos + size uint16) n tail Hh
                                ltac:(lia) (le_n _)).
  rewrite len_app, len_enc. cbn [app]. do 3 f_equal. lia.
Qed.

Lemma read_headers_past_block_witness :
  reads CCache._read_headers
        (enc uint16 8 ++ wire_header (1, B "ab") ++ wire_header (7, B "abc"))
        [(1, B "ab"); (7, B "abc")]
  /\ len (enc uint16 8) + 8
     < len (enc uint16 8 ++ wire_header (1, B "ab")
              ++ wire_header (7, B "abc")).
Proof.
  split; [|vm_compute; reflexivity].
  change (wire_header (1, B "ab") ++ wire_header (7, B "abc"))
    with (wire_header (1, B "ab") ++ wire_header (7, B "abc") ++ []).
  apply (read_headers_past_block [(1, B "ab")] (7, B "abc") 8).
  - repeat constructor; vm_compute; first [reflexivity | discriminate].
  - repeat constructor; vm_compute; first [reflexivity | discriminate].
  - vm_compute. split; reflexivity.
  - lia.
Defined.

(** ** Credential caches: loading a file *)

Lemma shrinks_ccache_read_times : shrinks CCache._read_times.
Proof. unfold CCache._read_times. repeat shrinks_step. Qed.

Lemma shrinks_ccache_read_segments (self : Krb5File cred) :
  shrinks (CCache._read_segments self).
Proof. unfold CCache._read_segments. repeat shrinks_step. Qed.

#[local] Hint Resolve shrinks_ccache_read_times shrinks_ccache_read_segments
  : shrinks.

Lemma read_unpack_length {C} (s : Struct) (n : Z) (k : Z -> M C) (f f' : file)
      (c : C) :
  0 <= n -> (forall v, shrinks (k v)) ->
  bind (fread n) (fun data => bind (lift (unpack s data)) k) f = Ok (c, f') ->
  (length (rest f') < length (rest f))%nat.
Proof.
  intros Hn Hk H. unfold bind at 1 in H. unfold fread in H.
  destruct (read n f) as [d f1] eqn:R.
  apply bind_inv in H. destruct H as (v & f2 & U & H).
  apply lift_inv in U. destruct U as [U ->].
  apply unpack_range in U. destruct U as [_ L].
  apply read_split in R; [|exact Hn]. destruct R as (R1 & _ & _).
  apply Hk in H. rewrite R1, length_app.
  pose proof (size_pos s). unfold len in L. lia.
Qed.

Lemma ccache_load_entry_length (self : Krb5File cred) (f f' : file)
      (c : cred) :
  CCache._load_entry self f = Ok (c, f') ->
  (length (rest f') < length (rest f))%nat.
Proof.
  unfold CCache._load_entry. intros H.
  apply bind_inv in H. destruct H as (cl & f1 & H1 & H).
  apply bind_inv in H. destruct H as (sv & f2 & H2 & H).
  apply bind_inv in H. destruct H as (k & f3 & H3 & H).
  apply bind_inv in H. destruct H as (tm & f4 & H4 & H).
  apply shrinks_read_principal in H1. apply shrinks_read_principal in H2.
  apply shrinks_read_keyblock in H3. apply shrinks_ccache_read_times in H4.
  apply read_unpack_length in H; [lia | lia|].
  intros v. repeat shrinks_step.
Qed.

Lemma ccache_load_loop_fuel (self : Krb5File cred) (fuel fuel' : nat)
      (acc : list cred) (f : file) :
  (length (rest f) <= fuel)%nat -> (length (rest f) <= fuel')%nat ->
  CCache.load_loop self fuel acc f = CCache.load_loop self fuel' acc f.
Proof.
  revert fuel' acc f.
  induction fuel as [|fuel IH]; intros fuel' acc f H H';
    destruct fuel' as [|fuel']; try reflexivity; simpl;
    destruct (CCache._load_entry self f) as [[e f1]|x] eqn:L;
    try reflexivity;
    apply ccache_load_entry_length in L; try lia.
  apply IH; lia.
Qed.

Lemma ccache_load_entries_step (self : Krb5File cred) (acc : list cred)
      (f f' : file) (c : cred) :
  CCache._load_entry self f = Ok (c, f') ->
  CCache.load_entries self acc f = CCache.load_entries self (acc ++ [c]) f'.
Proof.
  intros L. unfold CCache.load_entries.
  pose proof (ccache_load_entry_length _ _ _ _ L) as Hl.
  destruct (length (rest f)) as [|n] eqn:Hn; [lia|].
  simpl. rewrite L. apply ccache_load_loop_fuel; lia.
Qed.

Lemma ccache_load_entries_raise (self : Krb5File cred) (acc : list cred)
      (f : file) (x : exn) :
  CCache._load_entry self f = Raise x ->
  CCache.load_entries self acc f
  = match x with EOFError => Ok acc | _ => Raise x end.
Proof.
  intros L. unfold CCache.load_entries.
  destruct (length (rest f)); simpl; rewrite L; reflexivity.
Qed.

Lemma ccache_load_creds (self : Krb5File cred) (cs : list wcred) :
  Forall (wcred_fits (array self)) cs ->
  let wire := wire_cred (array self) (name_type_place (version self))
                        (has_etype (version self)) in
  let dec := decoded_cred (name_type_place (version self))
                          (has_etype (version self)) in
  forall acc pos tail,
    CCache.load_entries self acc
                        (mkfile pos (concat (map wire cs) ++ tail))
    = CCache.load_entries self (acc ++ map dec cs)
                          (mkfile (pos + len (concat (map wire cs))) tail).
Proof.
  intros Hcs wire dec.
  induction Hcs as [|c cs Hc Hcs IH]; intros acc pos tail.
  - cbn [map concat app]. rewrite len_nil, Z.add_0_r, app_nil_r.
    reflexivity.
  - cbn [map concat]. rewrite <- app_assoc.
    rewrite (ccache_load_entries_step
               self acc _ _ _
               (reads_ccache_load_entry self c Hc pos _)).
    fold wire. rewrite IH, len_app, <- app_assoc, Z.add_assoc. reflexivity.
Qed.

Lemma read_principal_cut_eof {E} (self : Krb5File E) (p : wprincipal)
      (j : nat) (pos : Z) :
  0 <= w_name_type p < 2 ^ 32 ->
  (j < length (wire_lead (array self) (name_type_place (version self)) p))%nat ->
  _read_principal self
    (mkfile pos (firstn j (wire_lead (array self)
                                     (name_type_place (version self)) p)))
  = Raise EOFError.
Proof.
  intros Hnt Hj. rewrite read_principal_parts. apply bind_raise.
  unfold except_struct_error, wire_lead.
  rewrite (strict_lead self _ _ Hnt pos j (or_introl Hj)). reflexivity.
Qed.

Lemma ccache_cut_eof (self : Krb5File cred) (b : bytes) (pos : Z) :
  cut_in_lead (array self) (name_type_place (version self)) b ->
  CCache._load_entry self (mkfile pos b) = Raise EOFError.
Proof.
  intros (p & j & Hnt & Hj & [-> | (client & Hcl & ->)]);
    unfold CCache._load_entry.
  - apply bind_raise. apply read_principal_cut_eof; assumption.
  - rewrite (bind_ok _ _ _ _ _ (reads_wire_principal self client Hcl pos _)).
    apply bind_raise. apply read_principal_cut_eof; assumption.
Qed.

Lemma ccache_load_file (v : Z) (hs : list (Z * bytes)) (dp : wprincipal)
      (cs : list wcred) (b : bytes) :
  0 <= v < 2 ^ 16 ->
  let self := set_version CCache.fresh v in
  Forall header_fits hs ->
  len (concat (map wire_header hs)) < 2 ^ 16 ->
  wprincipal_fits (array self) dp ->
  Forall (wcred_fits (array self)) cs ->
  (forall pos, CCache._load_entry self (mkfile pos b) = Raise EOFError) ->
  CCache.__init__
    (enc uint16 v
       ++ wire_headers hs
       ++ wire_principal (array self) (name_type_place v) dp
       ++ concat (map (wire_cred (array self) (name_type_place v)
                                 (has_etype v)) cs)
       ++ b)
  = Ok (CCache.mk
          (mkKrb5File v (array self)
                      (map (decoded_cred (name_type_place v) (has_etype v))
                           cs))
          hs (decoded_principal (name_type_place v) dp)).
Proof.
  intros Hv self Hhs Htotal Hdp Hcs Hb.
  unfold CCache.__init__, CCache.load.
  assert (V : forall t, _read_version (open (enc uint16 v ++ t))
                        = Ok (v, mkfile 2 t)).
  { intros t. unfold _read_version, open.
    rewrite (reads_unpack uint16 2 v eq_refl ltac:(cbv [lo hi]; lia) 0 t).
    rewrite len_enc. reflexivity. }
  rewrite V. fold self.
  assert (I : forall t,
             CCache._load_intro
               self
               (mkfile 2 (wire_headers hs
                            ++ wire_principal (array self)
                                              (name_type_place v) dp ++ t))
             = Ok ((hs, decoded_principal (name_type_place v) dp),
                   mkfile (2 + len (wire_headers hs)
                           + len (wire_principal (array self)
                                                 (name_type_place v) dp))
                          t)).
  { intros t. unfold CCache._load_intro.
    rewrite (bind_ok _ _ _ _ _ (reads_read_headers hs Hhs Htotal 2 _)).
    rewrite (bind_ok _ _ _ _ _ (reads_wire_principal self dp Hdp _ _)).
    reflexivity. }
  rewrite I. change (entries self) with (@nil cred).
  rewrite (ccache_load_creds self cs Hcs). cbn [app].
  rewrite (ccache_load_entries_raise self _ _ EOFError) by apply Hb.
  reflexivity.
Qed.

(** A credential cache file laid out as version tag, header block,
    default principal and credentials, one after the other up to the end
    of the file, loads as the cache with this version, these headers,
    this default principal and these credentials in file order. *)
Theorem ccache_load_wire (v : Z) (hs : list (Z * bytes)) (dp : wprincipal)
        (cs : list wcred) :
  0 <= v < 2 ^ 16 ->
  let self := set_version CCache.fresh v in
  Forall header_fits hs ->
  len (concat (map wire_header hs)) < 2 ^ 16 ->
  wprincipal_fits (array self) dp ->
  Forall (wcred_fits (array self)) cs ->
  CCache.__init__
    (enc uint16 v
       ++ wire_headers hs
       ++ wire_principal (array self) (name_type_place v) dp
       ++ concat (map (wire_cred (array self) (name_type_place v)
                                 (has_etype v)) cs))
  = Ok (CCache.mk
          (mkKrb5File v (array self)
                      (map (decoded_cred (name_type_place v) (has_etype v))
                           cs))
          hs (decoded_principal (name_type_place v) dp)).
Proof.
  intros Hv self Hhs Htotal Hdp Hcs.
  pose proof (ccache_load_file v hs dp cs [] Hv Hhs Htotal Hdp Hcs) as L.
  rewrite app_nil_r in L. apply L. intros pos.
  apply (ccache_cut_eof self [] pos).
  exists dp, 0%nat. split; [apply Hdp|]. split.
  - unfold wire_lead, Wire.lead. rewrite length_app.
    pose proof (len_enc (array self)
                        (Z.of_nat (length (w_components dp)))) as E.
    pose proof (size_pos (array self)). unfold len in E. lia.
  - left. reflexivity.
Qed.

(** A credential that is cut off by the end of the file inside the
    fields that open its client principal, or behind its client
    principal inside the fields that open its server principal, is
    dropped without an error: the cache loads with the credentials
    before it. *)
Theorem ccache_load_cut_credential
        (v : Z) (hs : list (Z * bytes)) (dp : wprincipal)
        (cs : list wcred) (b : bytes) :
  0 <= v < 2 ^ 16 ->
  let self := set_version CCache.fresh v in
  Forall header_fits hs ->
  len (concat (map wire_header hs)) < 2 ^ 16 ->
  wprincipal_fits (array self) dp ->
  Forall (wcred_fits (array self)) cs ->
  cut_in_lead (array self) (name_type_place v) b ->
  CCache.__init__
    (enc uint16 v
       ++ wire_headers hs
       ++ wire_principal (array self) (name_type_place v) dp
       ++ concat (map (wire_cred (array self) (name_type_place v)
                                 (has_etype v)) cs)
       ++ b)
  = Ok (CCache.mk
          (mkKrb5File v (array self)
                      (map (decoded_cred (name_type_place v) (has_etype v))
                           cs))
          hs (decoded_principal (name_type_place v) dp)).
Proof.
  intros Hv self Hhs Htotal Hdp Hcs Hb.
  apply (ccache_load_file v hs dp cs b Hv Hhs Htotal Hdp Hcs).
  intros pos. apply (ccache_cut_eof self b pos). exact Hb.
Qed.

(** A cache file that ends inside the fields that open its default
    principal raises [EOFError] out of [load]: [_load_intro] runs
    outside the [try] that ends the list of credentials. *)
Theorem ccache_load_cut_default_principal
        (v : Z) (hs : list (Z * bytes)) (dp : wprincipal) (j : nat) :
  0 <= v < 2 ^ 16 ->
  let self := set_version CCache.fresh v in
  Forall header_fits hs ->
  len (concat (map wire_header hs)) < 2 ^ 16 ->
  0 <= w_name_type dp < 2 ^ 32 ->
  (j < length (wire_lead (array self) (name_type_place v) dp))%nat ->
  CCache.__init__
    (enc uint16 v ++ wire_headers hs
       ++ firstn j (wire_lead (array self) (name_type_place v) dp))
  = Raise EOFError.
Proof.
  intros Hv self Hhs Htotal Hnt Hj.
  unfold CCache.__init__, CCache.load.
  assert (V : forall t, _read_version (open (enc uint16 v ++ t))
                        = Ok (v, mkfile 2 t)).
  { intros t. unfold _read_version, open.
    rewrite (reads_unpack uint16 2 v eq_refl ltac:(cbv [lo hi]; lia) 0 t).
    rewrite len_enc. reflexivity. }
  rewrite V. fold self. unfold CCache._load_intro.
  rewrite (bind_ok _ _ _ _ _ (reads_read_headers hs Hhs Htotal 2 _)).
  rewrite (bind_raise _ _ _ EOFError); [reflexivity|].
  apply (read_principal_cut_eof self dp j _ Hnt Hj).
Qed.

Lemma sample_header_fits :
  Forall header_fits [(1, raw [255; 255; 255; 255; 0; 0; 0; 0])].
Proof.
  repeat constructor; vm_compute; first [reflexivity | discriminate].
Qed.

Lemma sample_user_fits (s : Struct) :
  s = uint16 \/ s = uint32 -> wprincipal_fits s sample_user.
Proof. intros H. apply (sample_wcred_fits s H). Qed.

Lemma ccache_load_wire_witness :
  CCache.__init__
    (enc uint16 0x0504
       ++ wire_headers [(1, raw [255; 255; 255; 255; 0; 0; 0; 0])]
       ++ wire_principal uint32 Wire.First sample_user
       ++ concat (map (wire_cred uint32 Wire.First true) [sample_wcred]))
  = Ok (CCache.mk
          (mkKrb5File 0x0504 uint32
                      (map (decoded_cred Wire.First true) [sample_wcred]))
          [(1, raw [255; 255; 255; 255; 0; 0; 0; 0])]
          (decoded_principal Wire.First sample_user)).
Proof.
  pose proof (ccache_load_wire
                0x0504 [(1, raw [255; 255; 255; 255; 0; 0; 0; 0])]
                sample_user [sample_wcred]
                ltac:(lia) sample_header_fits
                ltac:(vm_compute; reflexivity)
                (sample_user_fits uint32 (or_intror eq_refl))
                (Forall_cons _ (sample_wcred_fits uint32 (or_intror eq_refl))
                             (Forall_nil _))) as W.
  exact W.
Defined.

Lemma ccache_load_cut_credential_witness :
  CCache.__init__
    (enc uint16 0x0504
       ++ wire_headers []
       ++ wire_principal uint32 Wire.First sample_user
       ++ concat (map (wire_cred uint32 Wire.First true) [sample_wcred])
       ++ wire_principal uint32 Wire.First sample_user
       ++ firstn 5 (wire_lead uint32 Wire.First sample_tgs))
  = Ok (CCache.mk
          (mkKrb5File 0x0504 uint32
                      (map (decoded_cred Wire.First true) [sample_wcred]))
          [] (decoded_principal Wire.First sample_user)).
Proof.
  assert (Hcut : cut_in_lead
                   uint32 Wire.First
                   (wire_principal uint32 Wire.First sample_user
                      ++ firstn 5 (wire_lead uint32 Wire.First sample_tgs))).
  { exists sample_tgs, 5%nat. split; [cbn; lia|]. split.
    - vm_compute. lia.
    - right. exists sample_user.
      split; [apply sample_user_fits; right; reflexivity | reflexivity]. }
  pose proof (ccache_load_cut_credential
                0x0504 [] sample_user [sample_wcred]
                (wire_principal uint32 Wire.First sample_user
                   ++ firstn 5 (wire_lead uint32 Wire.First sample_tgs))
                ltac:(lia) (Forall_nil _)
                ltac:(vm_compute; reflexivity)
                (sample_user_fits uint32 (or_intror eq_refl))
                (Forall_cons _ (sample_wcred_fits uint32 (or_intror eq_refl))
                             (Forall_nil _))
                Hcut) as W.
  exact W.
Defined.

Lemma ccache_load_cut_default_principal_witness :
  CCache.__init__
    (enc uint16 0x0504 ++ wire_headers []
       ++ firstn 6 (wire_lead uint32 Wire.First sample_user))
  = Raise EOFError.
Proof.
  pose proof (ccache_load_cut_default_principal
                0x0504 [] sample_user 6%nat
                ltac:(lia) (Forall_nil _)
                ltac:(vm_compute; reflexivity)
                ltac:(cbn; lia)
                ltac:(vm_compute; lia)) as W.
  exact W.
Defined.

(** ** Keytabs: loading a file of records and holes *)

Lemma load_entry_skips_hole (self : Keytab.t) (pos : Z)
      (skipped tail : bytes) :
  0 < len skipped <= 2 ^ 31 ->
  Keytab._load_entry self
                     (mkfile pos (enc int32 (- len skipped) ++ skipped ++ tail))
  = Keytab._load_entry self (mkfile (pos + 4 + len skipped) tail).
Proof.
  intros Hs. unfold Keytab._load_entry.
  rewrite (bind_ok _ _ _ _ _
                   (get_entry_size_enc (- len skipped) pos _ ltac:(lia))).
  unfold bind at 1. rewrite while_size_neg by lia.
  unfold bind at 1. unfold fread.
  rewrite Z.opp_involutive, read_app by reflexivity.
  unfold bind.
  destruct (Keytab.__get_entry_size (mkfile (pos + 4 + len skipped) tail))
    as [[m f3]|x]; reflexivity.
Qed.

Lemma reads_keytab_record (self : Keytab.t) (e : wentry) :
  wentry_fits (array self) (name_type_place (version self))
              (has_etype (version self)) e ->
  reads (Keytab._load_entry self)
        (wire_item (array self) (name_type_place (version self))
                   (has_etype (version self)) (Rec e))
        (decoded_entry (name_type_place (version self))
                       (has_etype (version self)) e).
Proof.
  intros ((Hnt & Hfits) & Hts & Hv8 & Hty & Het & Hkv & Hlen).
  exact (load_entry_wire self _ _ _ _ _ _ _ _ _
                         Hnt Hfits Hts Hv8 Hty Het Hkv Hlen).
Qed.

Lemma keytab_load_items (self : Keytab.t) (items : list item) :
  let wire := wire_item (array self) (name_type_place (version self))
                        (has_etype (version self)) in
  Forall (item_fits (array self) (name_type_place (version self))
                    (has_etype (version self))) items ->
  forall acc pos tail,
    Keytab.load_entries self acc
                        (mkfile pos (concat (map wire items) ++ tail))
    = Keytab.load_entries
        self
        (acc ++ decoded_items (name_type_place (version self))
                              (has_etype (version self)) items)
        (mkfile (pos + len (concat (map wire items))) tail).
Proof.
  intros wire Hitems.
  induction Hitems as [|i items Hi Hitems IH]; intros acc pos tail.
  - cbn [map concat app decoded_items flat_map].
    rewrite len_nil, Z.add_0_r, app_nil_r. reflexivity.
  - cbn [map concat]. rewrite <- app_assoc, len_app, Z.add_assoc.
    destruct i as [e|skipped].
    + rewrite (load_entries_step self acc _ _ _
                                 (reads_keytab_record self e Hi pos _)).
      fold wire. rewrite IH. cbn [decoded_items flat_map].
      rewrite <- app_assoc. reflexivity.
    + cbn [decoded_items flat_map app].
      rewrite <- IH. apply load_entries_same.
      unfold wire at 1 3. cbn [wire_item].
      rewrite <- app_assoc, len_app, len_enc. cbv [size].
      rewrite (load_entry_skips_hole self pos skipped _ Hi).
      rewrite Z.add_assoc. reflexivity.
Qed.

(** A keytab file laid out as version tag and then, in any order and
    number, records with the fields of their version and holes (a
    negative size before the bytes to skip) loads as the keytab with the
    entries of the records in file order; the holes leave no trace. *)
Theorem keytab_load_wire (v : Z) (items : list item) :
  0 <= v < 2 ^ 16 ->
  let self := set_version Keytab.fresh v in
  Forall (item_fits (array self) (name_type_place v) (has_etype v)) items ->
  Keytab.__init__
    (enc uint16 v
       ++ concat (map (wire_item (array self) (name_type_place v)
                                 (has_etype v)) items))
  = Ok (mkKrb5File v (array self)
                   (decoded_items (name_type_place v) (has_etype v) items)).
Proof.
  intros Hv self Hitems. unfold Keytab.__init__, Keytab.load.
  assert (V : forall t, _read_version (open (enc uint16 v ++ t))
                        = Ok (v, mkfile 2 t)).
  { intros t. unfold _read_version, open.
    rewrite (reads_unpack uint16 2 v eq_refl ltac:(cbv [lo hi]; lia) 0 t).
    rewrite len_enc. reflexivity. }
  rewrite V. fold self. change (entries self) with (@nil entry).
  pose proof (keytab_load_items self items Hitems [] 2 []) as L.
  cbv zeta in L. rewrite app_nil_r in L.
  change (version self) with v in L. rewrite L. cbn [app].
  rewrite (load_entries_raise self _ _ EOFError); [reflexivity|].
  unfold Keytab._load_entry. apply bind_raise.
  apply get_entry_size_short. cbn [rest]. unfold len. simpl. lia.
Qed.

Lemma keytab_load_wire_witness :
  Keytab.__init__
    (enc uint16 0x0503
       ++ concat (map (wire_item uint16 Wire.Absent true)
                      [Rec (sample_wentry []); Hole (B "gap");
                       Rec (sample_wentry (enc uint32 5 ++ B "xy"))]))
  = Ok (mkKrb5File 0x0503 uint16
                   (decoded_items Wire.Absent true
                                  [Rec (sample_wentry []); Hole (B "gap");
                                   Rec (sample_wentry
                                          (enc uint32 5 ++ B "xy"))])).
Proof.
  assert (F : forall t, t = [] \/ t = enc uint32 5 ++ B "xy" ->
                        wentry_fits uint16 Wire.Absent true (sample_wentry t)).
  { intros t [-> | ->]; unfold wentry_fits, wprincipal_fits, fits;
      repeat match goal with
             | |- _ /\ _ => split
             | |- Forall _ _ => constructor
             | |- _ => vm_compute; first [reflexivity | discriminate]
             end. }
  pose proof (keytab_load_wire
                0x0503
                [Rec (sample_wentry []); Hole (B "gap");
                 Rec (sample_wentry (enc uint32 5 ++ B "xy"))]
                ltac:(lia)) as W.
  apply W.
  apply Forall_cons; [apply F; left; reflexivity|].
  apply Forall_cons;
    [vm_compute; split; [reflexivity | discriminate]|].
  apply Forall_cons; [apply F; right; reflexivity | apply Forall_nil].
Defined.

(** ** Saving a keytab of another version *)

Lemma read_principal_name_type_none {E} (self : Krb5File E) (f f' : file)
      (p : principal) :
  version self <> 0x0504 -> version self <> 0x0502 ->
  _read_principal self f = Ok (p, f') -> name_type p = None.
Proof.
  intros H4 H2 H. unfold _read_principal in H.
  destruct (Z.eqb_spec (version self) 0x0504) as [|_]; [contradiction|].
  destruct (Z.eqb_spec (version self) 0x0502) as [|_]; [contradiction|].
  apply bind_inv in H. destruct H as ([nt0 n] & f1 & Hl & H).
  apply bind_inv in H. destruct H as (realm & f2 & _ & H).
  apply bind_inv in H. destruct H as (comps & f3 & _ & H).
  apply bind_inv in H. destruct H as (nt & f4 & Hnt & H).
  injection H as <- _. injection Hnt as <- _. cbn [name_type].
  unfold except_struct_error in Hl.
  match type of Hl with
  | match ?m with _ => _ end = _ => destruct m as [[a g]|x] eqn:L
  end; [|destruct x; discriminate Hl].
  injection Hl as -> ->.
  apply bind_inv in L. destruct L as (nt1 & g1 & Hr & L).
  injection Hr as <- _.
  apply bind_inv in L. destruct L as (d & g2 & _ & L).
  apply bind_inv in L. destruct L as (m & g3 & _ & L).
  injection L as <- _ _. reflexivity.
Qed.

Lemma load_entry_name_type_none (self : Keytab.t) (f f' : file) (e : entry) :
  version self <> 0x0504 -> version self <> 0x0502 ->
  Keytab._load_entry self f = Ok (e, f') ->
  name_type (entry_principal e) = None.
Proof.
  intros H4 H2 H. unfold Keytab._load_entry in H.
  apply bind_inv in H. destruct H as (s0 & f1 & _ & H).
  apply bind_inv in H. destruct H as (s1 & f2 & _ & H).
  apply bind_inv in H. destruct H as (start & f3 & _ & H).
  apply bind_inv in H. destruct H as (p & f4 & Hp & H).
  apply bind_inv in H. destruct H as (ts & f5 & _ & H).
  apply bind_inv in H. destruct H as (v8 & f6 & _ & H).
  apply bind_inv in H. destruct H as (k & f7 & _ & H).
  apply bind_inv in H. destruct H as (v & f8 & _ & H).
  injection H as <- _. cbn [entry_principal].
  exact (read_principal_name_type_none self _ _ p H4 H2 Hp).
Qed.

Lemma write_entry_without_name_type (self : Keytab.t) (e : entry) :
  name_type (entry_principal e) = None ->
  exists x, Keytab.__write_entry self e = Raise x.
Proof.
  intros Hnt. unfold Keytab.__write_entry. rewrite Hnt.
  destruct (split "@"%char (value (entry_principal e)))
    as [|princ [|realm [|extra l]]]; try (eexists; reflexivity).
  destruct (pack uint16 (Z.of_nat (length (split "/"%char princ))));
    [|eexists; reflexivity].
  cbn [rbind]. destruct (_make_array self realm); [|eexists; reflexivity].
  cbn [rbind].
  destruct (for_each (split "/"%char princ) (_make_array self));
    eexists; reflexivity.
Qed.

(** A keytab loaded from a file whose version tag is neither 0x0502 nor
    0x0504 cannot be saved once it has an entry: its entries carry no
    name type, which [__write_entry] demands, so [save] raises. *)
Theorem save_raises_without_name_type (contents : bytes) (kt : Keytab.t) :
  Keytab.__init__ contents = Ok kt ->
  version kt <> 0x0502 -> version kt <> 0x0504 ->
  entries kt <> [] ->
  exists x, Keytab.save kt = Raise x.
Proof.
  intros L H2 H4 Hne.
  unfold Keytab.__init__, Keytab.load in L.
  destruct (_read_version (open contents)) as [[v f]|y] eqn:V;
    [|discriminate L].
  unfold Keytab.load_entries in L.
  destruct (Keytab.load_loop (set_version Keytab.fresh v) (length (rest f))
                             (entries (set_version Keytab.fresh v)) f)
    as [l|z] eqn:LL; [|discriminate L].
  injection L as <-. cbn [version entries] in *.
  destruct (load_loop_inv _ _ _ _ _ LL) as (es & -> & Hes).
  cbn [set_version entries Keytab.fresh app] in *.
  destruct es as [|e es]; [contradiction|].
  apply Forall_inv in Hes. destruct Hes as (g & g' & Lg).
  apply load_entry_name_type_none in Lg; [|exact H4|exact H2].
  unfold Keytab.save. cbn [version entries].
  destruct (pack uint16 v); [|eexists; reflexivity]. cbn [rbind].
  match goal with
  | |- context [Keytab.__write_entry ?s e] =>
      destruct (write_entry_without_name_type s e Lg) as (x & Hx);
      rewrite Hx
  end.
  eexists. reflexivity.
Qed.

Lemma save_raises_without_name_type_witness :
  exists x,
    Keytab.save
      (mkKrb5File 0x0503 uint16
                  (decoded_items Wire.Absent true [Rec (sample_wentry [])]))
    = Raise x.
Proof.
  exact (save_raises_without_name_type
           (enc uint16 0x0503
              ++ concat (map (wire_item uint16 Wire.Absent true)
                             [Rec (sample_wentry [])]))
           (mkKrb5File 0x0503 uint16
                       (decoded_items Wire.Absent true
                                      [Rec (sample_wentry [])]))
           ltac:(vm_compute; reflexivity)
           ltac:(cbn; lia) ltac:(cbn; lia)
           ltac:(discriminate)).
Defined.

(** ** Which principals count as the ticket-granting service *)

(** [is_tgt_expired] takes a credential for the ticket-granting ticket
    only when its server principal has at least two components and the
    first of them is "krbtgt": a server principal with the single
    component "krbtgt", or with none, is passed over.  (The first
    component is taken to hold no [/].) *)
Theorem tgt_needs_two_components
        (pl : Wire.place) (p : wprincipal) (k : cred) (others : list cred)
        (now secs : Z) :
  server k = decoded_principal pl p ->
  match w_components p with
  | [] =>
      CredentialCache.is_tgt_expired (k :: others) now secs
      = CredentialCache.is_tgt_expired others now secs
  | [c1] =>
      ~ In "/"%char c1 ->
      CredentialCache.is_tgt_expired (k :: others) now secs
      = CredentialCache.is_tgt_expired others now secs
  | c1 :: _ :: _ =>
      ~ In "/"%char c1 ->
      CredentialCache.is_tgt_expired (k :: others) now secs
      = if bytes_eq_dec c1 (B "krbtgt")
        then Some (endtime (cred_times k) <=? now + secs)
        else CredentialCache.is_tgt_expired others now secs
  end.
Proof.
  intros Hs. cbn [CredentialCache.is_tgt_expired].
  rewrite hd_split_slash, Hs. unfold decoded_principal, Wire.joined.
  cbn [value]. destruct (w_components p) as [|c1 [|c2 cs]].
  - cbn [join app].
    destruct (bytes_eq_dec (service (B "@" ++ w_realm p)) (B "krbtgt"))
      as [E|_]; [|reflexivity].
    exfalso. change (B "@" ++ w_realm p) with ([] ++ "@"%char :: w_realm p) in E.
    rewrite service_app_at in E by (intros []).
    exact (with_at_not_krbtgt _ _ E).
  - intros Hn. cbn [join].
    change (c1 ++ B "@" ++ w_realm p) with (c1 ++ "@"%char :: w_realm p).
    rewrite service_app_at by exact Hn.
    destruct (bytes_eq_dec (c1 ++ "@"%char :: service (w_realm p))
                           (B "krbtgt")) as [E|_]; [|reflexivity].
    exfalso. exact (with_at_not_krbtgt _ _ E).
  - intros Hn. rewrite join_cons by discriminate.
    change (B "/" ++ ?x) with ("/"%char :: x). rewrite <- app_assoc.
    change (("/"%char :: ?x) ++ ?y) with ("/"%char :: (x ++ y)).
    rewrite service_app_slash by exact Hn.
    destruct (bytes_eq_dec c1 (B "krbtgt")); [|reflexivity].
    destruct (endtime (cred_times k) <=? now + secs); reflexivity.
Qed.

Lemma tgt_needs_two_components_witness :
  let k := mkcred (decoded_principal Wire.First sample_user)
                  (decoded_principal Wire.First
                                     (mkwprincipal 2 (B "R") [B "krbtgt"]))
                  sample_key (mktimes 0 0 100 0) 0 0 [] [] [] [] in
  CredentialCache.is_tgt_expired [k] 500 0
  = CredentialCache.is_tgt_expired [] 500 0.
Proof.
  intros k.
  apply (tgt_needs_two_components
           Wire.First (mkwprincipal 2 (B "R") [B "krbtgt"]) k [] 500 0
           eq_refl).
  vm_compute. intros H.
  repeat (destruct H as [H|H]; [discriminate H|]). exact H.
Defined.

(** ** Records with a size of zero, or one that is too small *)

(** A size field that declares no more bytes than the fields of the
    record take, zero included, is neither a hole nor the end of the
    keytab: the fields are decoded in full as an entry without a key
    version, and the file is left right behind the key, whatever
    follows. *)
Theorem keytab_record_small_size (self : Keytab.t) (e : wentry) (sz : Z) :
  wprincipal_fits (array self) (we_principal e) ->
  0 <= we_timestamp e < 2 ^ 32 -> 0 <= we_vno8 e < 2 ^ 8 ->
  0 <= we_keytype e < 2 ^ 16 -> len (we_etype e) = 2 ->
  len (we_keyval e) < 2 ^ 16 ->
  let fields := wire_entry_fields (array self)
                                  (name_type_place (version self))
                                  (has_etype (version self)) e in
  0 <= sz <= len fields -> sz < 2 ^ 31 ->
  reads (Keytab._load_entry self) (enc int32 sz ++ fields)
        (mkentry (decoded_principal (name_type_place (version self))
                                    (we_principal e))
                 (we_timestamp e) (we_vno8 e)
                 (wentry_key (has_etype (version self)) e)
                 None).
Proof.
  intros Hp Hts Hv8 Hty Het Hkv fields Hsz Hmax pos tail.
  set (pw := wire_principal (array self) (name_type_place (version self))
                            (we_principal e)) in *.
  set (kw := Wire.keyblock uint16 (has_etype (version self))
                           (wentry_key (has_etype (version self)) e)) in *.
  set (f0 := mkfile (pos + 4) (fields ++ tail)).
  set (f1 := mkfile (pos + 4 + len pw)
                    (enc uint32 (we_timestamp e) ++ enc char (we_vno8 e)
                       ++ kw ++ tail)).
  set (f2 := mkfile (pos + 4 + len pw + len (enc uint32 (we_timestamp e)))
                    (enc char (we_vno8 e) ++ kw ++ tail)).
  set (f3 := mkfile (pos + 4 + len pw + len (enc uint32 (we_timestamp e))
                     + len (enc char (we_vno8 e)))
                    (kw ++ tail)).
  set (f4 := mkfile (pos + 4 + len pw + len (enc uint32 (we_timestamp e))
                     + len (enc char (we_vno8 e)) + len kw)
                    tail).
  assert (Hfields : len fields = len pw + 4 + 1 + len kw).
  { unfold fields, wire_entry_fields. fold pw kw.
    rewrite !len_app, !len_enc. cbv [size]. lia. }
  rewrite (load_entry_fields self _ f0 f1 f2 f3 f4 sz
                             (we_timestamp e) (we_vno8 e)
                             (decoded_principal
                                (name_type_place (version self))
                                (we_principal e))
                             (wentry_key (has_etype (version self)) e)).
  - rewrite read_vno_none.
    + unfold f4. rewrite len_app, len_enc, Hfields, !len_enc. cbv [size].
      do 3 f_equal. lia.
    + unfold f4, f0. cbn [tell]. rewrite !len_enc. cbv [size]. lia.
  - rewrite <- app_assoc. apply get_entry_size_enc. lia.
  - lia.
  - unfold f0, f1, fields, wire_entry_fields. fold pw kw.
    rewrite <- !app_assoc. apply (reads_wire_principal self _ Hp).
  - unfold f1, f2. apply (reads_read_time _ Hts).
  - unfold f2, f3. apply (reads_read_vno8 _ Hv8).
  - unfold f3, f4, kw, wentry_key.
    apply (reads_keyblock self _ _ _ Hty Het Hkv).
Qed.

Lemma keytab_record_small_size_witness :
  reads (Keytab._load_entry sample_keytab)
        (enc int32 0
           ++ wire_entry_fields uint16 Wire.Last false (sample_wentry []))
        (mkentry sample_principal 9 7 sample_key None).
Proof.
  exact (keytab_record_small_size
           sample_keytab (sample_wentry []) 0
           ltac:(split; [cbn; lia | split; [|split];
                                    [vm_compute; reflexivity
                                    | vm_compute; reflexivity
                                    | repeat constructor]])
           ltac:(cbn; lia) ltac:(cbn; lia) ltac:(cbn; lia)
           ltac:(reflexivity) ltac:(vm_compute; reflexivity)
           ltac:(vm_compute; split; discriminate)
           ltac:(lia)).
Defined.
